(** * GPUOptimizer revenue core: a shallow embedding

    The development follows [src/gpu_optimizer_system.py] (class
    [RevenueManager], [SecurityUtils], [PerformanceCache]) and
    [src/global_payment_system.py] (class [GlobalPaymentSystem]).

    Conventions.
    - Python [str] values are modelled as [string] (8-bit characters).
    - [time.time()] readings are passed to every operation that reads the
      clock as an integer number of clock ticks ([Z]); a window or a TTL
      is a number of the same ticks.
    - Python [float] is IEEE-754 binary64, modelled by the primitive
      [float] type, so arithmetic rounds exactly as in the source.
    - The SQLite tables are lists of rows, oldest first. *)

From Stdlib Require Import ZArith List Bool Ascii String Floats.
From stdpp Require Import gmap strings list fin_maps.

Local Open Scope Z_scope.

(** ** AccessGuard: the sliding-window rate limiter *)

Module RateLimit.

(** [self.rate_limits]: identifier -> list of request timestamps. *)
Abbreviation limits := (gmap string (list Z)).

(** The list comprehension of [check_rate_limit]:
    [[t for t in self.rate_limits[identifier] if now - t < window]]. *)
Definition prune (now window : Z) (stamps : list Z) : list Z :=
  List.filter (fun timestamp => now - timestamp <? window) stamps.

(** [RevenueManager.check_rate_limit(identifier, limit, window)], with the
    clock reading [now] made explicit.  Returns the new [rate_limits]
    dictionary and the verdict. *)
Definition check_rate_limit (rl : limits) (now : Z) (identifier : string)
    (limit : Z) (window : Z) : limits * bool :=
  (* if identifier not in self.rate_limits: self.rate_limits[identifier] = [] *)
  let rl0 := match rl !! identifier with
             | Some _ => rl
             | None => <[identifier := []]> rl
             end in
  (* Remove old entries *)
  let pruned := prune now window (default [] (rl0 !! identifier)) in
  let rl1 := <[identifier := pruned]> rl0 in
  (* Check if under limit *)
  if limit <=? Z.of_nat (length pruned) then (rl1, false)
  else (<[identifier := pruned ++ [now]]> rl1, true).

(** The stored timestamps of an identifier ([[]] when it has no entry). *)
Definition stamps_of (rl : limits) (identifier : string) : list Z :=
  default [] (rl !! identifier).

(** Runs [check_rate_limit] once per clock reading, in order, and collects
    the verdicts. *)
Fixpoint run_checks (rl : limits) (identifier : string) (limit window : Z)
    (clock : list Z) : limits * list bool :=
  match clock with
  | [] => (rl, [])
  | now :: rest =>
      let '(rl', ok) := check_rate_limit rl now identifier limit window in
      let '(rl'', oks) := run_checks rl' identifier limit window rest in
      (rl'', ok :: oks)
  end.

(** *** The limiter seen from one identifier *)

(** What one call does to the stamps of its identifier, and its verdict. *)
Definition step (now limit window : Z) (stamps : list Z) : list Z * bool :=
  let pruned := prune now window stamps in
  if limit <=? Z.of_nat (length pruned) then (pruned, false)
  else (pruned ++ [now], true).

(** The verdicts of successive calls at the clock readings [clock]. *)
Fixpoint steps (limit window : Z) (stamps : list Z) (clock : list Z) : list bool :=
  match clock with
  | [] => []
  | now :: rest =>
      let '(stamps', ok) := step now limit window stamps in
      ok :: steps limit window stamps' rest
  end.

End RateLimit.

(** ** Python string helpers *)

Module PyStr.

Definition chars (s : string) : list ascii := list_ascii_of_string s.
Definition str (l : list ascii) : string := string_of_list_ascii l.

Definition code (c : ascii) : N := N_of_ascii c.

Definition in_range (lo hi : N) (c : ascii) : bool :=
  ((lo <=? code c) && (code c <=? hi))%N.

Definition is_char (n : N) (c : ascii) : bool := (code c =? n)%N.

(** [str.isspace] on the code points below 256: TAB..CR, FS..US, space,
    NEL and NBSP. *)
Definition isspace (c : ascii) : bool :=
  in_range 9 13 c || in_range 28 32 c || is_char 133 c || is_char 160 c.

Fixpoint lstrip (l : list ascii) : list ascii :=
  match l with
  | c :: l' => if isspace c then lstrip l' else l
  | [] => []
  end.

Definition rstrip (l : list ascii) : list ascii := rev (lstrip (rev l)).

(** [s.strip()] *)
Definition strip (l : list ascii) : list ascii := rstrip (lstrip l).

(** [s.startswith(p)] *)
Fixpoint startswith (p l : list ascii) : bool :=
  match p, l with
  | [], _ => true
  | a :: p', b :: l' => Ascii.eqb a b && startswith p' l'
  | _ :: _, [] => false
  end.

(** [needle in s] for a one-character needle. *)
Definition contains_char (n : N) (l : list ascii) : bool :=
  existsb (is_char n) l.

(** [s in l] for a list of strings. *)
Definition str_in (s : string) (l : list string) : bool :=
  existsb (String.eqb s) l.

(** Truthiness of an optional string: [None] and the empty string are
    falsy. *)
Definition truthy (s : option string) : bool :=
  match s with
  | Some v => negb (String.eqb v "")
  | None => false
  end.

(** The full stop and the line feed. *)
Definition dot : ascii := "."%char.
Definition newline : ascii := "010"%char.

End PyStr.

(** ** A small regular-expression engine (Brzozowski derivatives)

    Enough of Python's [re] for the three patterns of the source:
    character classes, concatenation, alternation, [+], [{n}], [{n,}],
    and the anchors [^] (implicit in [re.match]) and [$]. *)

Module Re.
Import PyStr.

Inductive regex : Type :=
| Void : regex                          (* matches nothing *)
| Eps : regex                           (* the empty string *)
| Cls : (ascii -> bool) -> regex        (* one character of a class *)
| Seq : regex -> regex -> regex
| Alt : regex -> regex -> regex
| Star : regex -> regex.

Fixpoint nullable (r : regex) : bool :=
  match r with
  | Void => false
  | Eps => true
  | Cls _ => false
  | Seq a b => nullable a && nullable b
  | Alt a b => nullable a || nullable b
  | Star _ => true
  end.

Fixpoint deriv (c : ascii) (r : regex) : regex :=
  match r with
  | Void => Void
  | Eps => Void
  | Cls p => if p c then Eps else Void
  | Seq a b =>
      if nullable a then Alt (Seq (deriv c a) b) (deriv c b)
      else Seq (deriv c a) b
  | Alt a b => Alt (deriv c a) (deriv c b)
  | Star a => Seq (deriv c a) (Star a)
  end.

(** The whole of [l] is in the language of [r]. *)
Fixpoint accepts (r : regex) (l : list ascii) : bool :=
  match l with
  | [] => nullable r
  | c :: l' => accepts (deriv c r) l'
  end.

(** [r+] *)
Definition Plus (r : regex) : regex := Seq r (Star r).

(** [r{n}] *)
Fixpoint Rep (n : nat) (r : regex) : regex :=
  match n with
  | O => Eps
  | S n' => Seq r (Rep n' r)
  end.

(** [r{n,}] *)
Definition AtLeast (n : nat) (r : regex) : regex := Seq (Rep n r) (Star r).

(** A literal string. *)
Fixpoint Lit (l : list ascii) : regex :=
  match l with
  | [] => Eps
  | c :: l' => Seq (Cls (Ascii.eqb c)) (Lit l')
  end.

(** [re.match('^' r '$', s)]: without [re.MULTILINE], [$] matches at the
    end of the string and also just before a newline that ends it. *)
Definition match_anchored (r : regex) (l : list ascii) : bool :=
  accepts r l ||
  match rev l with
  | c :: before => is_char 10 c && accepts r (rev before)
  | [] => false
  end.

(** Character classes of the source patterns. *)
Definition lower (c : ascii) : bool := in_range 97 122 c.
Definition upper (c : ascii) : bool := in_range 65 90 c.
Definition digit (c : ascii) : bool := in_range 48 57 c.
Definition alpha (c : ascii) : bool := lower c || upper c.
Definition alnum (c : ascii) : bool := alpha c || digit c.

(** The characters that occur in some class of [r]. *)
Fixpoint chars_of (r : regex) (c : ascii) : bool :=
  match r with
  | Void | Eps => false
  | Cls p => p c
  | Seq a b | Alt a b => chars_of a c || chars_of b c
  | Star a => chars_of a c
  end.

(** A syntactic test for the empty language. *)
Fixpoint dead (r : regex) : bool :=
  match r with
  | Void => true
  | Eps | Cls _ | Star _ => false
  | Seq a b => dead a || dead b
  | Alt a b => dead a && dead b
  end.

End Re.

(** ** SecurityUtils and the e-mail validator *)

Module Security.
Import PyStr Re.

(** The character class of [sanitize_input] and of the first suspicious
    pattern of [validate_email]: less-than, greater-than, double quote,
    single quote, semicolon and backslash (code points 60, 62, 34, 39,
    59 and 92). *)
Definition dangerous (c : ascii) : bool :=
  is_char 60 c || is_char 62 c || is_char 34 c || is_char 39 c ||
  is_char 59 c || is_char 92 c.

(** [SecurityUtils.sanitize_input(data)] for a [str] argument: [re.sub]
    deletes the dangerous characters, then [.strip()[:1000]]. *)
Definition sanitize_chars (data : list ascii) : list ascii :=
  let sanitized := List.filter (fun c => negb (dangerous c)) data in
  firstn 1000 (strip sanitized).

Definition sanitize_input (data : string) : string :=
  str (sanitize_chars (chars data)).

(** [r'^gopt_[a-zA-Z0-9]{23}$'] *)
Definition api_key_pattern : regex :=
  Seq (Lit (chars "gopt_")) (Rep 23 (Cls alnum)).

(** [SecurityUtils.validate_api_key(api_key)]: the empty string is falsy. *)
Definition validate_api_key (api_key : string) : bool :=
  match chars api_key with
  | [] => false
  | l => match_anchored api_key_pattern l
  end.

(** [[a-zA-Z0-9._%+-]] *)
Definition local_class (c : ascii) : bool :=
  alnum c || is_char 46 c || is_char 95 c || is_char 37 c ||
  is_char 43 c || is_char 45 c.

(** [[a-zA-Z0-9.-]] *)
Definition domain_class (c : ascii) : bool :=
  alnum c || is_char 46 c || is_char 45 c.

(** [r'^[a-zA-Z0-9._%+-]+@[a-zA-Z0-9.-]+\.[a-zA-Z]{2,}$'] *)
Definition email_pattern : regex :=
  Seq (Plus (Cls local_class))
    (Seq (Cls (is_char 64))
       (Seq (Plus (Cls domain_class))
          (Seq (Cls (is_char 46)) (AtLeast 2 (Cls alpha))))).

(** [re.search(r'\.{2,}', email)]: two dots in a row somewhere. *)
Fixpoint has_consecutive_dots (l : list ascii) : bool :=
  match l with
  | a :: (b :: _) as l' => (is_char 46 a && is_char 46 b) || has_consecutive_dots l'
  | _ => false
  end.

(** [re.search(r'^\.', email)] *)
Definition starts_with_dot (l : list ascii) : bool :=
  match l with
  | c :: _ => is_char 46 c
  | [] => false
  end.

(** [re.search(r'\.$', email)]: a dot at the end, or just before a final
    newline. *)
Definition ends_with_dot (l : list ascii) : bool :=
  match rev l with
  | c :: before =>
      is_char 46 c ||
      (is_char 10 c && match before with
                       | d :: _ => is_char 46 d
                       | [] => false
                       end)
  | [] => false
  end.

(** The list [suspicious_patterns] of [validate_email], in order. *)
Definition suspicious_patterns : list (list ascii -> bool) :=
  [ existsb dangerous;
    has_consecutive_dots;
    (fun l => starts_with_dot l || ends_with_dot l) ].

(** [RevenueManager.validate_email(email)] *)
Definition validate_email_chars (l : list ascii) : bool :=
  match l with
  | [] => false
  | _ =>
    if (255 <? length l)%nat then false
    else if negb (match_anchored email_pattern l) then false
    else negb (existsb (fun pattern => pattern l) suspicious_patterns)
  end.

Definition validate_email (email : string) : bool :=
  validate_email_chars (chars email).

(** The characters [sanitize_input] keeps. *)
Definition keep (c : ascii) : bool := negb (dangerous c).

(** The alphabet of an e-mail address: [[a-zA-Z0-9._%+-]] and [@]. *)
Definition email_char (c : ascii) : bool := local_class c || is_char 64 c.

End Security.

(** ** [secrets.token_urlsafe] *)

Module Token.
Import PyStr.

(** The URL-safe base64 alphabet: A-Z a-z 0-9 - _ *)
Definition alphabet : list ascii :=
  chars "ABCDEFGHIJKLMNOPQRSTUVWXYZabcdefghijklmnopqrstuvwxyz0123456789-_".

Definition sextet (n : N) : ascii :=
  nth (N.to_nat (N.land n 63)) alphabet "A"%char.

(** [base64.urlsafe_b64encode(bs).rstrip(b'=')]: three bytes give four
    characters; a rest of one or two bytes gives two or three. *)
Fixpoint urlsafe_b64 (bs : list Byte.byte) : list ascii :=
  match bs with
  | b0 :: b1 :: b2 :: rest =>
      let n := N.lor (N.shiftl (Byte.to_N b0) 16)
                 (N.lor (N.shiftl (Byte.to_N b1) 8) (Byte.to_N b2)) in
      sextet (N.shiftr n 18) :: sextet (N.shiftr n 12) ::
      sextet (N.shiftr n 6) :: sextet n :: urlsafe_b64 rest
  | [b0; b1] =>
      let n := N.lor (N.shiftl (Byte.to_N b0) 16) (N.shiftl (Byte.to_N b1) 8) in
      [sextet (N.shiftr n 18); sextet (N.shiftr n 12); sextet (N.shiftr n 6)]
  | [b0] =>
      let n := N.shiftl (Byte.to_N b0) 16 in
      [sextet (N.shiftr n 18); sextet (N.shiftr n 12)]
  | [] => []
  end.

(** [secrets.token_bytes(nbytes)] read from the random source [rng] at
    position [pos]. *)
Definition token_bytes (rng : nat -> Byte.byte) (pos nbytes : nat) : list Byte.byte :=
  List.map rng (seq pos nbytes).

(** [secrets.token_urlsafe(nbytes)] *)
Definition token_urlsafe (rng : nat -> Byte.byte) (pos nbytes : nat) : list ascii :=
  urlsafe_b64 (token_bytes rng pos nbytes).

End Token.

(** ** The revenue manager: storage, caches and operations *)

Module Revenue.
Import PyStr Security Token.

(** Python control flow: a call returns a value or raises. *)
Inductive exn : Type :=
| ValueError (msg : string)
| KeyError (key : string)
| AttributeError (msg : string)
| RecursionError.

Inductive outcome (A : Type) : Type :=
| Return (a : A)
| Raise (e : exn).
Arguments Return {A} a.
Arguments Raise {A} e.

(** The [Customer] dataclass. *)
Record Customer : Type := mkCustomer {
  email : string;
  tier : string;
  api_key : string;
  created_at : Z;
  last_payment : option Z;
  gpu_count : Z;
  monthly_savings : float;
  flutterwave_customer_id : option string;
  nowpayments_customer_id : option string
}.

(** A row of table [customers] (columns in schema order).  A REAL
    column is a float.  SQLite keeps no NaN: a NaN that is bound or
    computed is stored as NULL, and NULL plus a number is NULL again, as
    nan plus a number is nan; so [nan] in a REAL column of these tables
    stands for the NULL that the column holds. *)
Record CustomerRow : Type := mkCustomerRow {
  row_id : Z;
  row_email : string;
  row_api_key : string;
  row_tier : string;
  row_created_at : Z;
  row_last_payment : option Z;
  row_gpu_count : Z;
  row_monthly_savings : float;
  row_flutterwave_customer_id : option string;
  row_nowpayments_customer_id : option string
}.

(** The [metadata] column of [revenue_events] (a JSON object in the
    source). *)
Inductive EventMeta : Type :=
| SignupMeta (source : string)
| UpgradeMeta (from_tier to_tier payment_id : string).

Record RevenueEvent : Type := mkRevenueEvent {
  ev_customer_email : string;
  ev_event_type : string;
  ev_amount : Z;
  ev_timestamp : Z;
  ev_metadata : EventMeta
}.

(** A row of table [gpu_usage_logs]. *)
Record UsageRow : Type := mkUsageRow {
  ul_customer_email : string;
  ul_gpu_index : Z;
  ul_gpu_name : string;
  ul_gpu_util : float;
  ul_mem_used : float;
  ul_mem_total : float;
  ul_cost_per_hour : float;
  ul_potential_savings : float;
  ul_timestamp : Z
}.

(** A row of table [payment_transactions]; [payment_id] is UNIQUE. *)
Record PaymentRow : Type := mkPaymentRow {
  pt_customer_email : string;
  pt_payment_id : string;
  pt_payment_gateway : string;
  pt_amount : float;
  pt_currency : string;
  pt_status : string;
  pt_created_at : Z;
  pt_updated_at : Z;
  pt_metadata : option string
}.

(** The SQLite database [revenue.db]. *)
Record DB : Type := mkDB {
  customers : list CustomerRow;
  revenue_events : list RevenueEvent;
  gpu_usage_logs : list UsageRow;
  payment_transactions : list PaymentRow
}.

(** What a REAL column keeps of a float that is bound or computed for
    it.  SQLite writes a float that equals an integer as that integer
    and reads it back as a float, which loses the sign of a negative
    zero; every other number is kept as it is, and a NaN becomes NULL,
    which is shown as nan (see [CustomerRow]). *)
Definition sqlite_real (x : float) : float :=
  if (x =? 0)%float then 0%float else x.

(** What [send_onboarding_email] and [send_upgrade_email] hand to
    [send_email], which never raises. *)
Inductive Mail : Type :=
| OnboardingEmail (to_email key : string)
| UpgradeEmail (to_email new_tier : string).

(** One entry of a [functools.lru_cache]: the argument and the memoised
    return value.  The list is ordered most recently used first. *)
Abbreviation lru := (list (string * option Customer)).

(** The state of a [RevenueManager] and of the world it acts on. *)
Record Manager : Type := mkManager {
  db : DB;
  cache : gmap string Customer;          (* PerformanceCache.cache *)
  ttl_cache : gmap string Z;             (* PerformanceCache.ttl_cache *)
  lru_get_customer : lru;                (* @lru_cache of get_customer *)
  lru_get_customer_by_api_key : lru;     (* @lru_cache of get_customer_by_api_key *)
  rng : nat -> Byte.byte;                (* the system random source *)
  rng_pos : nat;                         (* bytes of it consumed so far *)
  outbox : list Mail                     (* e-mails handed to send_email *)
}.

Definition with_db (m : Manager) (d : DB) : Manager :=
  mkManager d (cache m) (ttl_cache m) (lru_get_customer m)
    (lru_get_customer_by_api_key m) (rng m) (rng_pos m) (outbox m).

Definition with_cache (m : Manager) (c : gmap string Customer)
    (t : gmap string Z) : Manager :=
  mkManager (db m) c t (lru_get_customer m)
    (lru_get_customer_by_api_key m) (rng m) (rng_pos m) (outbox m).

Definition with_lru_get_customer (m : Manager) (l : lru) : Manager :=
  mkManager (db m) (cache m) (ttl_cache m) l
    (lru_get_customer_by_api_key m) (rng m) (rng_pos m) (outbox m).

Definition with_lru_get_customer_by_api_key (m : Manager) (l : lru) : Manager :=
  mkManager (db m) (cache m) (ttl_cache m) (lru_get_customer m) l
    (rng m) (rng_pos m) (outbox m).

Definition with_rng_pos (m : Manager) (p : nat) : Manager :=
  mkManager (db m) (cache m) (ttl_cache m) (lru_get_customer m)
    (lru_get_customer_by_api_key m) (rng m) p (outbox m).

Definition with_outbox (m : Manager) (o : list Mail) : Manager :=
  mkManager (db m) (cache m) (ttl_cache m) (lru_get_customer m)
    (lru_get_customer_by_api_key m) (rng m) (rng_pos m) o.

(** *** PerformanceCache *)

(** [PerformanceCache.get(key)] at clock reading [now]. *)
Definition cache_get (m : Manager) (now : Z) (key : string)
    : Manager * option Customer :=
  match cache m !! key with
  | Some v =>
      match ttl_cache m !! key with
      | Some expiry =>
          if expiry <? now
          then (with_cache m (delete key (cache m)) (delete key (ttl_cache m)), None)
          else (m, Some v)
      | None => (m, Some v)
      end
  | None => (m, None)
  end.

(** [PerformanceCache.set(key, value, ttl)] with a non-zero [ttl]. *)
Definition cache_set (m : Manager) (now : Z) (key : string) (value : Customer)
    (ttl : Z) : Manager :=
  with_cache m (<[key := value]> (cache m)) (<[key := now + ttl]> (ttl_cache m)).

(** [PerformanceCache.delete(key)] *)
Definition cache_delete (m : Manager) (key : string) : Manager :=
  with_cache m (delete key (cache m)) (delete key (ttl_cache m)).

(** *** functools.lru_cache(maxsize=1000) *)

Definition maxsize : nat := 1000.

Fixpoint lru_find (key : string) (l : lru) : option (option Customer) :=
  match l with
  | [] => None
  | (k, v) :: l' => if String.eqb k key then Some v else lru_find key l'
  end.

Definition lru_remove (key : string) (l : lru) : lru :=
  List.filter (fun entry => negb (String.eqb (fst entry) key)) l.

(** A hit moves the entry to the most-recently-used end. *)
Definition lru_hit (key : string) (v : option Customer) (l : lru) : lru :=
  (key, v) :: lru_remove key l.

(** A miss stores the result and, when full, evicts the least recently
    used entry. *)
Definition lru_store (key : string) (v : option Customer) (l : lru) : lru :=
  firstn maxsize ((key, v) :: l).

(** *** Rows and customers *)

Definition tiers : list string := ["free"; "professional"; "enterprise"].

(** [Customer.__post_init__]: the [ValueError] of the first check that
    fails, if one does. *)
Definition post_init (c : Customer) : option exn :=
  if String.eqb (email c) "" || negb (contains_char 64 (chars (email c)))
  then Some (ValueError "Invalid email address")
  else if negb (str_in (tier c) tiers)
  then Some (ValueError "Invalid tier")
  else if String.eqb (api_key c) "" ||
          negb (startswith (chars "gopt_") (chars (api_key c)))
  then Some (ValueError "Invalid API key format")
  else None.

(** [float(row[7]) if row[7] is not None else 0.0] *)
Definition savings_of (stored : float) : float :=
  if PrimFloat.is_nan stored then 0%float else stored.

(** [RevenueManager.row_to_customer(row)] for a fetched row; a
    [ValueError] of the constructor is caught and gives [None]. *)
Definition row_to_customer (row : option CustomerRow) : option Customer :=
  match row with
  | None => None
  | Some r =>
      let c := mkCustomer (row_email r) (row_tier r) (row_api_key r)
                 (row_created_at r) (row_last_payment r) (row_gpu_count r)
                 (savings_of (row_monthly_savings r))
                 (row_flutterwave_customer_id r)
                 (row_nowpayments_customer_id r) in
      match post_init c with
      | None => Some c
      | Some _ => None
      end
  end.

(** [SELECT * FROM customers WHERE email = ?] then [fetchone()]. *)
Definition select_by_email (d : DB) (e : string) : option CustomerRow :=
  List.find (fun r => String.eqb (row_email r) e) (customers d).

(** [SELECT * FROM customers WHERE api_key = ?] then [fetchone()]. *)
Definition select_by_api_key (d : DB) (k : string) : option CustomerRow :=
  List.find (fun r => String.eqb (row_api_key r) k) (customers d).

(** *** Lookups *)

(** The body of [get_customer], below its [@lru_cache] wrapper. *)
Definition get_customer_body (m : Manager) (now : Z) (e : string)
    : Manager * option Customer :=
  let cache_key := ("customer_email_" ++ e)%string in
  match cache_get m now cache_key with
  | (m1, Some cached_customer) => (m1, Some cached_customer)
  | (m1, None) =>
      let customer := match select_by_email (db m1) e with
                      | Some row => row_to_customer (Some row)
                      | None => None
                      end in
      match customer with
      | Some c => (cache_set m1 now cache_key c 600, Some c)
      | None => (m1, None)
      end
  end.

(** [RevenueManager.get_customer(email)] *)
Definition get_customer (m : Manager) (now : Z) (e : string)
    : Manager * option Customer :=
  match lru_find e (lru_get_customer m) with
  | Some result =>
      (with_lru_get_customer m (lru_hit e result (lru_get_customer m)), result)
  | None =>
      let '(m1, result) := get_customer_body m now e in
      (with_lru_get_customer m1 (lru_store e result (lru_get_customer m1)), result)
  end.

(** [RevenueManager.get_customer_by_email(email)] *)
Definition get_customer_by_email (m : Manager) (now : Z) (e : string)
    : Manager * option Customer :=
  get_customer m now e.

(** The body of [get_customer_by_api_key], below its [@lru_cache]
    wrapper. *)
Definition get_customer_by_api_key_body (m : Manager) (now : Z) (k : string)
    : Manager * option Customer :=
  if negb (validate_api_key k) then (m, None)
  else
    let cache_key := ("customer_api_" ++ k)%string in
    match cache_get m now cache_key with
    | (m1, Some cached_customer) => (m1, Some cached_customer)
    | (m1, None) =>
        let customer := match select_by_api_key (db m1) k with
                        | Some row => row_to_customer (Some row)
                        | None => None
                        end in
        match customer with
        | Some c => (cache_set m1 now cache_key c 600, Some c)
        | None => (m1, None)
        end
    end.

(** [RevenueManager.get_customer_by_api_key(api_key)] *)
Definition get_customer_by_api_key (m : Manager) (now : Z) (k : string)
    : Manager * option Customer :=
  match lru_find k (lru_get_customer_by_api_key m) with
  | Some result =>
      (with_lru_get_customer_by_api_key m
         (lru_hit k result (lru_get_customer_by_api_key m)), result)
  | None =>
      let '(m1, result) := get_customer_by_api_key_body m now k in
      (with_lru_get_customer_by_api_key m1
         (lru_store k result (lru_get_customer_by_api_key m1)), result)
  end.

(** *** Pricing *)

(** [self.pricing[tier]['price']]; [None] stands for the [KeyError] of a
    tier that is not a key of the dictionary. *)
Definition pricing_price (t : string) : option Z :=
  if String.eqb t "free" then Some 0
  else if String.eqb t "professional" then Some 49
  else if String.eqb t "enterprise" then Some 199
  else None.

(** [self.pricing['free']['gpu_limit']] *)
Definition free_gpu_limit : nat := 2.

(** *** Customer creation *)

(** The interpreter's recursion limit, which bounds the retries of
    [generate_api_key]. *)
Definition recursion_limit : nat := 1000.

(** [SELECT COUNT( * ) FROM customers WHERE api_key = ?] is positive. *)
Definition api_key_taken (d : DB) (k : string) : bool :=
  existsb (fun r => String.eqb (row_api_key r) k) (customers d).

Definition email_taken (d : DB) (e : string) : bool :=
  existsb (fun r => String.eqb (row_email r) e) (customers d).

(** [RevenueManager.generate_api_key()]: [None] is a [RecursionError]. *)
Fixpoint generate_api_key (depth : nat) (m : Manager) : Manager * option string :=
  match depth with
  | O => (m, None)
  | S depth' =>
      let random_part := firstn 23 (token_urlsafe (rng m) (rng_pos m) 18) in
      let m1 := with_rng_pos m (rng_pos m + 18)%nat in
      let key := ("gopt_" ++ str random_part)%string in
      if api_key_taken (db m1) key
      then generate_api_key depth' m1   (* recursive call if collision *)
      else (m1, Some key)
  end.

(** [RevenueManager.create_customer(email)] at clock reading [now].  The
    security log is not part of the state.  The [Customer] is constructed
    after the commit, so a [ValueError] of its [__post_init__] would
    leave the row stored. *)
Definition create_customer (m : Manager) (now : Z) (email0 : string)
    : Manager * outcome (option Customer) :=
  (* Validate and sanitize email *)
  let e := sanitize_input email0 in
  if negb (validate_email e) then (m, Raise (ValueError "Invalid email format"))
  else
    (* Check for existing customer *)
    match get_customer_by_email m now e with
    | (m1, Some _) => (m1, Raise (ValueError "Customer already exists"))
    | (m1, None) =>
        (* Generate secure API key *)
        match generate_api_key recursion_limit m1 with
        | (m2, None) => (m2, Raise RecursionError)
        | (m2, Some key) =>
            if email_taken (db m2) e || api_key_taken (db m2) key
            then
              (* sqlite3.IntegrityError: nothing is committed *)
              (m2, Return (row_to_customer (select_by_email (db m2) e)))
            else
              let d := db m2 in
              let row := mkCustomerRow (1 + Z.of_nat (length (customers d))) e key
                           "free" now None 0 0%float None None in
              let event := mkRevenueEvent e "signup" 0 now (SignupMeta "landing_page") in
              let d' := mkDB (customers d ++ [row]) (revenue_events d ++ [event])
                          (gpu_usage_logs d) (payment_transactions d) in
              let customer := mkCustomer e "free" key now None 0 0%float None None in
              match post_init customer with
              | Some error => (with_db m2 d', Raise error)
              | None =>
                  (* Send welcome email with setup instructions *)
                  let m3 := with_outbox (with_db m2 d')
                              (outbox m2 ++ [OnboardingEmail e key]) in
                  (m3, Return (Some customer))
              end
        end
    end.

(** *** Payment transactions *)

(** [RevenueManager.store_payment_transaction(...)]: INSERT OR REPLACE
    deletes the row that holds the same [payment_id], then inserts. *)
Definition store_payment_transaction (m : Manager) (now : Z)
    (customer_email payment_id payment_gateway : string) (amount : float)
    (currency status : string) (metadata : option string) : Manager :=
  let d := db m in
  let kept := List.filter
                (fun r => negb (String.eqb (pt_payment_id r) payment_id))
                (payment_transactions d) in
  let row := mkPaymentRow customer_email payment_id payment_gateway
               (sqlite_real amount) currency status now now metadata in
  with_db m (mkDB (customers d) (revenue_events d) (gpu_usage_logs d)
                  (kept ++ [row])).

(** [RevenueManager.update_payment_status(payment_id, status, metadata)] *)
Definition update_payment_status (m : Manager) (now : Z)
    (payment_id status : string) (metadata : option string) : Manager :=
  let d := db m in
  let upd (r : PaymentRow) : PaymentRow :=
    if String.eqb (pt_payment_id r) payment_id then
      mkPaymentRow (pt_customer_email r) (pt_payment_id r)
        (pt_payment_gateway r) (pt_amount r) (pt_currency r) status
        (pt_created_at r) now
        (if truthy metadata then metadata else pt_metadata r)
    else r in
  with_db m (mkDB (customers d) (revenue_events d) (gpu_usage_logs d)
                  (List.map upd (payment_transactions d))).

(** [SELECT status FROM payment_transactions WHERE payment_id = ?] *)
Definition status_in (rows : list PaymentRow) (payment_id : string) : option string :=
  option_map pt_status
    (List.find (fun r => String.eqb (pt_payment_id r) payment_id) rows).

(** The stored status of a payment id, if it has a row. *)
Definition payment_status (m : Manager) (payment_id : string) : option string :=
  status_in (payment_transactions (db m)) payment_id.

(** *** Completing an upgrade *)

(** What a method leaves on the [sqlite3] connection it worked on, once
    it has returned or raised. *)
Inductive Connection : Type :=
| Unused                    (* no statement that writes was executed *)
| Committed                 (* [commit()] was reached *)
| Uncommitted (view : DB).  (* writes were executed and never committed:
                               [view] is the database with them applied,
                               as this connection alone sees it *)

(** [RevenueManager.complete_upgrade(customer_email, new_tier, payment_id)]
    with the connection it opened.  The UPDATE is executed before the
    arguments of the INSERT are evaluated, so the [KeyError] of an
    unknown tier and the [AttributeError] of an unresolved customer
    leave it uncommitted on a connection that nothing commits, rolls back
    or closes.  The stored database is then unchanged; the connection
    keeps its write lock for as long as the interpreter keeps it alive,
    and what that lock does to other writers is not followed here. *)
Definition complete_upgrade_run (m : Manager) (now : Z)
    (customer_email new_tier payment_id : string)
    : (Manager * outcome unit) * Connection :=
  let '(m1, customer) := get_customer m now customer_email in
  let d := db m1 in
  (* Update customer tier *)
  let upd (r : CustomerRow) : CustomerRow :=
    if String.eqb (row_email r) customer_email then
      mkCustomerRow (row_id r) (row_email r) (row_api_key r) new_tier
        (row_created_at r) (Some now) (row_gpu_count r)
        (row_monthly_savings r) (row_flutterwave_customer_id r)
        (row_nowpayments_customer_id r)
    else r in
  let updated := mkDB (List.map upd (customers d)) (revenue_events d)
                   (gpu_usage_logs d) (payment_transactions d) in
  (* Log upgrade event *)
  match pricing_price new_tier with
  | None => ((m1, Raise (KeyError new_tier)), Uncommitted updated)
  | Some price =>
      match customer with
      | None =>
          ((m1, Raise (AttributeError "'NoneType' object has no attribute 'tier'")),
           Uncommitted updated)
      | Some c =>
          let event := mkRevenueEvent customer_email "upgrade" price now
                         (UpgradeMeta (tier c) new_tier payment_id) in
          let d' := mkDB (customers updated) (revenue_events updated ++ [event])
                      (gpu_usage_logs updated) (payment_transactions updated) in
          (* Send upgrade confirmation email *)
          ((with_outbox (with_db m1 d')
              (outbox m1 ++ [UpgradeEmail customer_email new_tier]), Return tt),
           Committed)
      end
  end.

(** [RevenueManager.complete_upgrade(customer_email, new_tier, payment_id)]:
    the manager after the call and what the call returned or raised. *)
Definition complete_upgrade (m : Manager) (now : Z)
    (customer_email new_tier payment_id : string) : Manager * outcome unit :=
  fst (complete_upgrade_run m now customer_email new_tier payment_id).

(** *** Usage ingestion *)

(** One element of [gpu_data], a dictionary: a key may be missing.
    [cost_per_hour] is the only key read with [.get] and a default; the
    other keys are indexed.  [gpu_index] is a Python integer, unbounded.
    The other numbers are floats: an integer reading takes part in the
    comparison and the products with the same value. *)
Record GpuSample : Type := mkGpuSample {
  gpu_index : option Z;
  gpu_name : option string;
  gpu_util : option float;
  mem_used : option float;
  mem_total : option float;
  cost_per_hour : option float
}.

(** The success dictionary of [_batch_process_gpu_data]. *)
Record UsageReport : Type := mkUsageReport {
  gpus_monitored : nat;
  potential_hourly_savings : float;
  monthly_projection : float;
  report_tier : string
}.

(** The dictionary returned by [track_gpu_usage]: an ['error'] entry or
    the success report. *)
Inductive track_result : Type :=
| TrackError (msg : string)
| TrackOk (r : UsageReport).

(** [gpu.get('cost_per_hour', 3.0)] *)
Definition cost_of (gpu : GpuSample) : float :=
  match cost_per_hour gpu with
  | Some c => c
  | None => 3.0%float
  end.

(** The [for gpu in gpu_data] loop of [_batch_process_gpu_data], with its
    two accumulators [total_savings] and [batch_data]; [None] is the
    [KeyError] of a sample that lacks an indexed key.  The tuples of
    [batch_data] are written as the rows they are to become. *)
Fixpoint prepare_batch (customer_email : string) (now : Z)
    (gpu_data : list GpuSample) (total_savings : float)
    (batch_data : list UsageRow) : option (float * list UsageRow) :=
  match gpu_data with
  | [] => Some (total_savings, batch_data)
  | gpu :: rest =>
      match gpu_util gpu, gpu_index gpu, gpu_name gpu, mem_used gpu,
            mem_total gpu with
      | Some util, Some index, Some name, Some used, Some total =>
          let row (potential_savings : float) :=
            mkUsageRow customer_email index name util used total (cost_of gpu)
              potential_savings now in
          if (util <? 15)%float then      (* Idle threshold *)
            let potential_savings := (cost_of gpu * 0.5)%float in
            prepare_batch customer_email now rest
              (total_savings + potential_savings)%float
              (batch_data ++ [row potential_savings])
          else
            prepare_batch customer_email now rest total_savings
              (batch_data ++ [row 0%float])
      | _, _, _, _, _ => None
      end
  end.

(** What an INTEGER column takes: a signed 64-bit integer.  Binding any
    other Python integer raises [OverflowError]. *)
Definition int64 (z : Z) : bool := (- 2 ^ 63 <=? z) && (z <? 2 ^ 63).

(** The row of [gpu_usage_logs] that the INSERT makes of one tuple. *)
Definition inserted_row (row : UsageRow) : UsageRow :=
  mkUsageRow (ul_customer_email row) (ul_gpu_index row) (ul_gpu_name row)
    (sqlite_real (ul_gpu_util row)) (sqlite_real (ul_mem_used row))
    (sqlite_real (ul_mem_total row)) (sqlite_real (ul_cost_per_hour row))
    (sqlite_real (ul_potential_savings row)) (ul_timestamp row).

(** [cursor.executemany(INSERT INTO gpu_usage_logs ..., batch_data)] on
    the table [logs]: the tuples are bound and inserted one after the
    other; [false] is the [OverflowError] of the first tuple whose index
    does not fit, raised with the tuples before it inserted. *)
Fixpoint executemany (batch_data : list UsageRow) (logs : list UsageRow)
    : list UsageRow * bool :=
  match batch_data with
  | [] => (logs, true)
  | row :: rest =>
      if int64 (ul_gpu_index row)
      then executemany rest (logs ++ [inserted_row row])
      else (logs, false)
  end.

(** [RevenueManager._batch_process_gpu_data(customer, gpu_data)] with the
    pooled connection it worked on.  Both exceptions that the data can
    cause are caught by [except Exception]; nothing is rolled back there,
    so the rows inserted before an [OverflowError] stay uncommitted on
    the connection that goes back to the pool, and what a later user of
    that connection commits is not followed here.  [except sqlite3.Error]
    needs the storage itself to fail, which it does not in this model. *)
Definition _batch_process_gpu_data_run (m : Manager) (now : Z)
    (customer : Customer) (gpu_data : list GpuSample)
    : (Manager * track_result) * Connection :=
  match prepare_batch (email customer) now gpu_data 0%float [] with
  | None => ((m, TrackError "Internal server error"), Unused)
  | Some (total_savings, batch_data) =>
      let d := db m in
      (* Batch insert for better performance *)
      match executemany batch_data (gpu_usage_logs d) with
      | (logs, false) =>
          ((m, TrackError "Internal server error"),
           Uncommitted (mkDB (customers d) (revenue_events d) logs
                          (payment_transactions d)))
      | (logs, true) =>
          (* Update customer savings *)
          let upd (r : CustomerRow) : CustomerRow :=
            if String.eqb (row_email r) (email customer) then
              mkCustomerRow (row_id r) (row_email r) (row_api_key r) (row_tier r)
                (row_created_at r) (row_last_payment r)
                (Z.of_nat (length gpu_data))
                (sqlite_real (row_monthly_savings r + total_savings * 24 * 30))
                (row_flutterwave_customer_id r) (row_nowpayments_customer_id r)
            else r in
          let d' := mkDB (List.map upd (customers d)) (revenue_events d)
                      logs (payment_transactions d) in
          (* Invalidate cache for this customer *)
          let m1 := cache_delete (with_db m d')
                      ("customer_email_" ++ email customer) in
          let m2 := cache_delete m1 ("customer_api_" ++ api_key customer) in
          ((m2, TrackOk (mkUsageReport (length gpu_data) total_savings
                           (total_savings * 24 * 30)%float (tier customer))),
           Committed)
      end
  end.

(** [RevenueManager._batch_process_gpu_data(customer, gpu_data)]: the
    manager after the call and the dictionary returned. *)
Definition _batch_process_gpu_data (m : Manager) (now : Z) (customer : Customer)
    (gpu_data : list GpuSample) : Manager * track_result :=
  fst (_batch_process_gpu_data_run m now customer gpu_data).

(** [RevenueManager.track_gpu_usage(api_key, gpu_data)] *)
Definition track_gpu_usage (m : Manager) (now : Z) (key : string)
    (gpu_data : list GpuSample) : Manager * track_result :=
  match get_customer_by_api_key m now key with
  | (m1, None) => (m1, TrackError "Invalid API key")
  | (m1, Some customer) =>
      (* Check tier limits *)
      if String.eqb (tier customer) "free" && (free_gpu_limit <? length gpu_data)%nat
      then (m1, TrackError
                  "Free tier limited to 2 GPUs. Upgrade to Professional.")
      else _batch_process_gpu_data m1 now customer gpu_data
  end.

(** What one record adds to the running total, in the words of the
    specification: when its utilisation is below 15, its hourly cost
    times 0.5; nothing otherwise.  For a record that names no hourly
    cost the specification gives no figure; the 3.0 written here is the
    figure the comparison with the code then has to confirm. *)
Definition add_savings (total : float) (gpu : GpuSample) : float :=
  match gpu_util gpu with
  | Some utilization =>
      if (utilization <? 15)%float then
        match cost_per_hour gpu with
        | Some hourly_cost => (total + hourly_cost * 0.5)%float
        | None => (total + 3.0 * 0.5)%float
        end
      else total
  | None => total
  end.

End Revenue.

(** ** The payment orchestrator *)

Module Payments.
Import PyStr.

(** [PaymentResult] *)
Record PaymentResult : Type := mkPaymentResult {
  success : bool;
  transaction_id : option string;
  amount : float;
  currency : string;
  gateway : string;
  status : string;
  message : string;
  payment_url : option string
}.

(** The credential entries of [self.primary_gateways], as read from the
    environment by [os.getenv] when the system is constructed. *)
Record Credentials : Type := mkCredentials {
  nowpayments_api_key : option string;
  flutterwave_secret_key : option string;
  paddle_vendor_id : option string;
  paddle_vendor_auth_code : option string
}.

(** [GlobalPaymentSystem._is_gateway_configured(gateway_id)]: an id that
    is not a key of [primary_gateways] is not configured. *)
Definition _is_gateway_configured (cfg : Credentials) (gateway_id : string) : bool :=
  if String.eqb gateway_id "nowpayments" then truthy (nowpayments_api_key cfg)
  else if String.eqb gateway_id "flutterwave" then truthy (flutterwave_secret_key cfg)
  else if String.eqb gateway_id "paddle" then
    truthy (paddle_vendor_id cfg) && truthy (paddle_vendor_auth_code cfg)
  else false.

Definition africa : list string :=
  ["NG"; "GH"; "KE"; "UG"; "ZA"; "TZ"; "RW"; "ZM"].

Definition developed : list string :=
  ["US"; "GB"; "CA"; "AU"; "FR"; "DE"; "IT"; "ES"; "NL"; "BE"; "CH"; "SE";
   "DK"; "NO"; "FI"; "BR"; "MX"].

(** The global fallback priority of [_select_best_gateway]. *)
Definition global_fallback (cfg : Credentials) : string :=
  if _is_gateway_configured cfg "flutterwave" then "flutterwave"
  else if _is_gateway_configured cfg "nowpayments" then "nowpayments"
  else if _is_gateway_configured cfg "paddle" then "paddle"
  else "demo".

(** [GlobalPaymentSystem._select_best_gateway(country_code)] *)
Definition _select_best_gateway (cfg : Credentials) (country_code : option string)
    : string :=
  if truthy country_code then
    let cc := default "" country_code in
    if str_in cc africa then
      if _is_gateway_configured cfg "flutterwave" then "flutterwave"
      else global_fallback cfg
    else if str_in cc developed then
      if _is_gateway_configured cfg "flutterwave" then "flutterwave"
      else if _is_gateway_configured cfg "paddle" then "paddle"
      else global_fallback cfg
    else global_fallback cfg
  else global_fallback cfg.

(** The failed result built by the [except] clause of [create_payment]. *)
Definition failed_result (amount : float) (currency gateway message : string)
    : PaymentResult :=
  mkPaymentResult false None amount currency gateway "failed" message None.

(** [GlobalPaymentSystem._create_demo_payment(...)]; [hex12] is
    [uuid.uuid4().hex[:12]]. *)
Definition _create_demo_payment (hex12 : string) (amount : float)
    (currency plan customer_email : string) : PaymentResult :=
  let transaction_id := ("demo_" ++ hex12)%string in
  mkPaymentResult true (Some transaction_id) amount currency "demo" "pending"
    "Demo payment created - this is for testing only"
    (Some ("https://demo-payment.gpuoptimizer.com/pay/" ++ transaction_id)%string).

Section CreatePayment.

(** The NOWPayments adapter talks to the network; whatever happens there
    it returns a [PaymentResult]. *)
Variable _create_nowpayments_payment :
  float -> string -> string -> string -> PaymentResult.

(** [uuid.uuid4().hex[:12]] of this call. *)
Variable hex12 : string.

(** The class defines no [_create_paddle_payment],
    [_create_razorpay_payment] or [_create_flutterwave_payment]. *)
Definition no_attribute (name : string) : string :=
  ("'GlobalPaymentSystem' object has no attribute '" ++ name ++ "'")%string.

(** [GlobalPaymentSystem.create_payment(amount, currency, plan,
    customer_email, gateway, country_code)] *)
Definition create_payment (cfg : Credentials) (amount : float)
    (currency plan customer_email : string) (gateway : option string)
    (country_code : option string) : PaymentResult :=
  (* Auto-select gateway if not specified *)
  let gw := if truthy gateway then default "" gateway
            else _select_best_gateway cfg country_code in
  (* Validate gateway *)
  if negb (_is_gateway_configured cfg gw) then
    failed_result amount currency gw ("Gateway " ++ gw ++ " is not configured")
  (* Create payment based on gateway *)
  else if String.eqb gw "nowpayments" then
    _create_nowpayments_payment amount currency plan customer_email
  else if String.eqb gw "paypal" then
    failed_result amount currency "paypal" "'paypal'"
  else if String.eqb gw "paddle" then
    failed_result amount currency gw (no_attribute "_create_paddle_payment")
  else if String.eqb gw "razorpay" then
    failed_result amount currency gw (no_attribute "_create_razorpay_payment")
  else if String.eqb gw "flutterwave" then
    failed_result amount currency gw (no_attribute "_create_flutterwave_payment")
  else if String.eqb gw "demo" then
    _create_demo_payment hex12 amount currency plan customer_email
  else
    failed_result amount currency gw ("Unsupported gateway: " ++ gw).

End CreatePayment.

(** None of the three gateways has its mandatory credentials. *)
Definition unconfigured (cfg : Credentials) : bool :=
  negb (_is_gateway_configured cfg "nowpayments") &&
  negb (_is_gateway_configured cfg "flutterwave") &&
  negb (_is_gateway_configured cfg "paddle").

End Payments.

(** ** States and inputs of the worked scenarios *)

Module Scenario.
Import PyStr Security Token Revenue Payments.

(** A manager started on an empty database. *)
Definition started (r : nat -> Byte.byte) : Manager :=
  mkManager (mkDB [] [] [] []) ∅ ∅ [] [] r 0 [].

(** A manager restarted on a database that already holds [rows]. *)
Definition restarted (rows : list CustomerRow) (r : nat -> Byte.byte) : Manager :=
  mkManager (mkDB rows [] [] []) ∅ ∅ [] [] r 0 [].

(** Random sources used in the examples. *)
Definition zeros : nat -> Byte.byte := fun _ => Byte.x00.
Definition ones : nat -> Byte.byte := fun _ => Byte.xff.
Definition mixed : nat -> Byte.byte :=
  fun i => if (i <? 18)%nat then Byte.x00 else Byte.x10.

(** A key that [validate_api_key] accepts. *)
Definition dev_key : string := "gopt_AAAAAAAAAAAAAAAAAAAAAAA".

(** The stored row of the customer of the examples. *)
Definition dev_row : CustomerRow :=
  mkCustomerRow 1 "dev@example.com" dev_key "free"
    1000 None 0 0%float None None.

(** The customer of the examples, as signup returns it. *)
Definition dev_customer : Customer :=
  mkCustomer "dev@example.com" "free" dev_key 1000 None 0 0%float None None.

(** The key generated first by a manager started on the random source
    [r]. *)
Definition first_key (r : nat -> Byte.byte) : string :=
  ("gopt_" ++ str (firstn 23 (token_urlsafe r 0 18)))%string.

(** The customer returned by the first signup of the address [e]. *)
Definition new_customer (r : nat -> Byte.byte) (now : Z) (e : string) : Customer :=
  mkCustomer e "free" (first_key r) now None 0 0%float None None.

(** The manager left by that signup on an empty database. *)
Definition signed_up (r : nat -> Byte.byte) (now : Z) (e : string) : Manager :=
  mkManager
    (mkDB [mkCustomerRow 1 e (first_key r) "free" now None 0 0%float None None]
          [mkRevenueEvent e "signup" 0 now (SignupMeta "landing_page")] [] [])
    ∅ ∅ [(e, None)] [] r 18 [OnboardingEmail e (first_key r)].

(** A sample with utilisation 5 and cost 3.0 per hour, as in the
    end-to-end scenario. *)
Definition idle_sample : GpuSample :=
  mkGpuSample (Some 0) (Some "Tesla V100") (Some 5%float) (Some 1000%float)
    (Some 16000%float) (Some 3.0%float).

(** A sample with utilisation 5 and cost 10.0 per hour. *)
Definition costly_sample : GpuSample :=
  mkGpuSample (Some 1) (Some "A100") (Some 5%float) (Some 2000%float)
    (Some 40000%float) (Some 10.0%float).





(** The stored row of a customer on the professional tier. *)
Definition pro_row : CustomerRow :=
  mkCustomerRow 1 "dev@example.com" dev_key "professional"
    1000 None 0 0%float None None.

(** A manager restarted on the professional customer, who is looked up
    by key and then put on the free tier. *)
Definition downgraded : Manager :=
  fst (complete_upgrade
         (fst (get_customer_by_api_key (restarted [pro_row] zeros) 1 dev_key))
         2 "dev@example.com" "free" "pay_0").

(** A manager whose only payment transaction is completed. *)
Definition paid : Manager :=
  store_payment_transaction (started zeros) 10 "dev@example.com" "tx_1" "demo"
    49%float "USD" "completed" None.

(** An input of 315 characters: 300 spaces, then a valid address. *)
Definition padded_email : string :=
  str (repeat " "%char 300 ++ chars "dev@example.com").

(** An input that ends in a line feed. *)
Definition newline_email : string := str (chars "dev@example.com" ++ [newline]).

(** No credential is set in the environment. *)
Definition no_credentials : Credentials := mkCredentials None None None None.

End Scenario.

(** ** Runs of the rate limiter *)

Module RateRun.

(** The clock readings of the calls whose verdict was [True]. *)
Fixpoint allowed_of (clock : list Z) (verdicts : list bool) : list Z :=
  match clock, verdicts with
  | now :: clock', ok :: verdicts' =>
      (if ok then [now] else []) ++ allowed_of clock' verdicts'
  | _, _ => []
  end.

(** The clock never runs backwards: every reading is at least [last] and
    at least the one before it. *)
Fixpoint nondecreasing (last : Z) (clock : list Z) : Prop :=
  match clock with
  | [] => True
  | now :: clock' => last <= now /\ nondecreasing now clock'
  end.

(** The last reading of a clock that starts after [last]. *)
Fixpoint final_reading (last : Z) (clock : list Z) : Z :=
  match clock with
  | [] => last
  | now :: clock' => final_reading now clock'
  end.

End RateRun.

(** ** The rest of PerformanceCache *)

Module CacheOps.
Import Revenue.

(** [self.cache = PerformanceCache(default_ttl=300)] *)
Definition default_ttl : Z := 300.

(** [ttl or self.default_ttl]: a missing or zero [ttl] is falsy. *)
Definition effective_ttl (ttl : option Z) : Z :=
  match ttl with
  | Some t => if t =? 0 then default_ttl else t
  | None => default_ttl
  end.

(** [PerformanceCache.set(key, value, ttl=None)] *)
Definition performance_cache_set (m : Manager) (now : Z) (key : string)
    (value : Customer) (ttl : option Z) : Manager :=
  cache_set m now key value (effective_ttl ttl).

(** [PerformanceCache.clear()] *)
Definition cache_clear (m : Manager) : Manager := with_cache m ∅ ∅.

End CacheOps.

(** ** The [require_api_key] decorator *)

Module Access.
Import PyStr Security.

(** [api_key[7:]] *)
Definition after_bearer (header : string) : string :=
  str (skipn 7 (chars header)).

(** [require_api_key]: [authorization] is the [Authorization] header,
    [json_api_key] is [request.json.get('api_key')] ([None] without a
    JSON body or without the entry).  [Some key] means the wrapped view
    runs with [g.api_key = key]; [None] is the 401 response. *)
Definition require_api_key (authorization json_api_key : option string)
    : option string :=
  let api_key :=
    match authorization with
    | Some header =>
        if truthy (Some header) && startswith (chars "Bearer ") (chars header)
        then Some (after_bearer header)    (* Remove 'Bearer ' prefix *)
        else json_api_key
    | None => json_api_key
    end in
  match api_key with
  | Some key =>
      if negb (truthy (Some key)) || negb (validate_api_key key) then None
      else Some key
  | None => None
  end.

End Access.

(** ** Views of the stored tables *)

Module Tables.
Import Revenue.

(** The e-mail and API-key columns of table [customers]. *)
Definition emails (d : DB) : list string := List.map row_email (customers d).
Definition api_keys (d : DB) : list string := List.map row_api_key (customers d).

(** The UNIQUE constraints of table [customers]. *)
Definition unique_customers (d : DB) : Prop :=
  NoDup (emails d) /\ NoDup (api_keys d).

(** The [payment_id] column of table [payment_transactions]. *)
Definition payment_ids (d : DB) : list string :=
  List.map pt_payment_id (payment_transactions d).

(** A sample that has the five indexed keys. *)
Definition complete (gpu : GpuSample) : bool :=
  match gpu_index gpu, gpu_name gpu, gpu_util gpu, mem_used gpu, mem_total gpu with
  | Some _, Some _, Some _, Some _, Some _ => true
  | _, _, _, _, _ => false
  end.

(** A sample whose index, if it has one, fits an INTEGER column. *)
Definition storable (gpu : GpuSample) : bool :=
  match gpu_index gpu with
  | Some index => int64 index
  | None => true
  end.

(** The row to be logged for one sample that has its keys: the hourly
    cost is the sample's own or else 3.0, the potential saving is half of
    it for a utilisation below 15 and zero otherwise, and each number is
    as a REAL column keeps it. *)
Definition usage_row (customer_email : string) (now : Z) (gpu : GpuSample)
    : option UsageRow :=
  match gpu_index gpu, gpu_name gpu, gpu_util gpu, mem_used gpu, mem_total gpu with
  | Some index, Some name, Some util, Some used, Some total =>
      let hourly_cost := match cost_per_hour gpu with
                         | Some given => given
                         | None => 3.0%float
                         end in
      Some (mkUsageRow customer_email index name (sqlite_real util)
              (sqlite_real used) (sqlite_real total) (sqlite_real hourly_cost)
              (sqlite_real
                 (if (util <? 15)%float then (hourly_cost * 0.5)%float
                  else 0%float))
              now)
  | _, _, _, _, _ => None
  end.


(** What one call of a memoised method does to its memo: nothing, a hit
    on an entry, or a miss that stores one. *)
Definition lru_step (l l' : lru) : Prop :=
  l' = l \/
  (exists key v, lru_find key l = Some v /\ l' = lru_hit key v l) \/
  (exists key v, lru_find key l = None /\ l' = lru_store key v l).

(** The memo [l] holds [v] for [key] with at most [n] other entries in
    front of it. *)
Definition held_within (n : nat) (key : string) (v : option Customer) (l : lru)
    : Prop :=
  exists before after,
    l = before ++ (key, v) :: after /\
    Forall (fun entry => fst entry <> key) before /\
    (length before <= n)%nat.

(** A customer row after an upgrade of [customer_email] to [new_tier]:
    the same row with the tier and the payment time replaced. *)
Definition upgraded (customer_email new_tier : string) (now : Z)
    (before after : CustomerRow) : Prop :=
  row_id after = row_id before /\
  row_email after = row_email before /\
  row_api_key after = row_api_key before /\
  row_created_at after = row_created_at before /\
  row_gpu_count after = row_gpu_count before /\
  row_monthly_savings after = row_monthly_savings before /\
  (row_email before = customer_email ->
     row_tier after = new_tier /\ row_last_payment after = Some now) /\
  (row_email before <> customer_email -> after = before).

(** The customer row [r] as the UPDATE of an accepted batch leaves it. *)
Definition credited (customer_email : string) (count : nat) (projection : float)
    (r : CustomerRow) : CustomerRow :=
  if String.eqb (row_email r) customer_email then
    mkCustomerRow (row_id r) (row_email r) (row_api_key r) (row_tier r)
      (row_created_at r) (row_last_payment r) (Z.of_nat count)
      (sqlite_real (row_monthly_savings r + projection))
      (row_flutterwave_customer_id r) (row_nowpayments_customer_id r)
  else r.


(** Every cached or memoised customer sits under its own e-mail or its
    own API key, and a memoised key that resolved is a well-formed key. *)
Definition coherent (m : Manager) : Prop :=
  (forall key c, cache m !! key = Some c ->
     key = ("customer_email_" ++ email c)%string \/
     key = ("customer_api_" ++ api_key c)%string) /\
  (forall e c, lru_find e (lru_get_customer m) = Some (Some c) -> email c = e) /\
  (forall k c, lru_find k (lru_get_customer_by_api_key m) = Some (Some c) ->
     api_key c = k /\ Security.validate_api_key k = true).

End Tables.

(** ** The gateway listing *)

Module Gateways.
Import PyStr Payments.

(** The descriptive entries of [self.primary_gateways]; [None] for
    [countries] stands for ['worldwide']. *)
Record GatewayInfo : Type := mkGatewayInfo {
  info_id : string;
  info_name : string;
  info_countries : option (list string);
  info_currencies : list string;
  info_fees : string
}.

Definition nowpayments_info : GatewayInfo :=
  mkGatewayInfo "nowpayments" "Crypto Payments" None
    ["BTC"; "ETH"; "USDT"; "USDC"; "LTC"; "BCH"; "XRP"; "ADA"; "DOT"; "LINK"; "UNI"]
    "0.5%".

Definition flutterwave_info : GatewayInfo :=
  mkGatewayInfo "flutterwave" "Flutterwave"
    (Some ["NG"; "GH"; "KE"; "UG"; "ZA"; "TZ"; "RW"; "ZM"; "US"; "GB"; "CA";
           "AU"; "FR"; "DE"; "IT"; "ES"; "NL"; "BE"; "CH"; "SE"; "DK"; "NO";
           "FI"; "BR"; "MX"; "AR"])
    ["NGN"; "GHS"; "KES"; "UGX"; "ZAR"; "TZS"; "RWF"; "ZMW"; "USD"; "GBP";
     "EUR"; "CAD"; "AUD"]
    "1.4%".

Definition paddle_info : GatewayInfo :=
  mkGatewayInfo "paddle" "Paddle" None
    ["USD"; "EUR"; "GBP"; "CAD"; "AUD"; "JPY"; "CHF"; "SEK"; "DKK"; "NOK"]
    "5%".

(** [self.primary_gateways], in insertion order. *)
Definition primary_gateways : list GatewayInfo :=
  [nowpayments_info; flutterwave_info; paddle_info].

(** One dictionary of the list returned by [get_available_gateways]. *)
Record GatewayEntry : Type := mkGatewayEntry {
  entry_id : string;
  entry_name : string;
  entry_currencies : list string;
  entry_fees : string;
  entry_recommended : bool
}.

Definition to_entry (g : GatewayInfo) : GatewayEntry :=
  mkGatewayEntry (info_id g) (info_name g) (info_currencies g) (info_fees g)
    (str_in (info_id g) ["nowpayments"; "paypal"]).

Definition demo_entry : GatewayEntry :=
  mkGatewayEntry "demo" "Demo Payment (Testing)" ["USD"; "EUR"; "GBP"]
    "0% (Demo)" true.

(** The gateway is not skipped by the [continue] of the loop. *)
Definition supports (g : GatewayInfo) (country_code : option string) : bool :=
  if truthy country_code then
    match info_countries g with
    | None => true
    | Some countries => str_in (default "" country_code) countries
    end
  else true.

(** The preference order of the sort key. *)
Definition preference : list string :=
  ["nowpayments"; "paypal"; "paddle"; "razorpay"; "flutterwave"; "demo"].

(** [l.index(s)]; [None] is the [ValueError]. *)
Fixpoint index_of (s : string) (l : list string) : option nat :=
  match l with
  | [] => None
  | x :: l' => if String.eqb x s then Some O
               else option_map S (index_of s l')
  end.

(** A stable sort by a numeric key. *)
Fixpoint insert_by {A} (key : A -> nat) (x : A) (l : list A) : list A :=
  match l with
  | [] => [x]
  | y :: l' => if (key x <=? key y)%nat then x :: l else y :: insert_by key x l'
  end.

Fixpoint sort_by {A} (key : A -> nat) (l : list A) : list A :=
  match l with
  | [] => []
  | x :: l' => insert_by key x (sort_by key l')
  end.

(** [available.sort(key=...)] inside [try]: the keys are computed first,
    and a [ValueError] among them leaves the list as it is. *)
Definition sort_by_preference (available : list GatewayEntry) : list GatewayEntry :=
  if forallb (fun e => match index_of (entry_id e) preference with
                       | Some _ => true
                       | None => false
                       end) available
  then sort_by (fun e => default O (index_of (entry_id e) preference)) available
  else available.

(** [GlobalPaymentSystem.get_available_gateways(country_code)] *)
Definition get_available_gateways (cfg : Credentials) (country_code : option string)
    : list GatewayEntry :=
  let available :=
    List.map to_entry
      (List.filter (fun g => _is_gateway_configured cfg (info_id g) &&
                             supports g country_code) primary_gateways) in
  (* If no gateways are available, add demo mode *)
  let available := match available with
                   | [] => [demo_entry]
                   | _ => available
                   end in
  sort_by_preference available.

End Gateways.

(** ** DatabaseConnectionPool

    The pool as one thread sees it: [get] on an empty queue is the case
    in which the five-second wait has run out. *)

Module Pool.

(** A connection and the PRAGMAs it was opened with. *)
Record Connection : Type := mkConnection {
  conn_id : nat;
  journal_mode_wal : bool;
  synchronous_normal : bool;
  cache_size_10000 : bool;
  temp_store_memory : bool
}.

(** The pool: its [Queue(maxsize=pool_size)], oldest first, the number
    of connections opened so far and the connections closed so far. *)
Record PoolState : Type := mkPool {
  pool_size : nat;
  queue : list Connection;
  opened : nat;
  closed : list Connection
}.

(** A connection as [_initialize_pool] opens it. *)
Definition pooled_connection (id : nat) : Connection :=
  mkConnection id true true true true.

(** A connection as the [except Empty] branch of [get_connection] opens
    it. *)
Definition fallback_connection (id : nat) : Connection :=
  mkConnection id true true false false.

(** [Queue.full()]: a [maxsize] of zero means no bound. *)
Definition full (p : PoolState) : bool :=
  (0 <? pool_size p)%nat && (pool_size p <=? length (queue p))%nat.

(** [DatabaseConnectionPool(db_path, pool_size)]: [__init__] and
    [_initialize_pool]. *)
Definition new_pool (size : nat) : PoolState :=
  mkPool size (List.map pooled_connection (seq 0 size)) size [].

(** The part of [get_connection] before the [yield]. *)
Definition acquire (p : PoolState) : Connection * PoolState :=
  match queue p with
  | conn :: rest => (conn, mkPool (pool_size p) rest (opened p) (closed p))
  | [] =>
      (* If pool is empty, create a new connection *)
      (fallback_connection (opened p),
       mkPool (pool_size p) [] (S (opened p)) (closed p))
  end.

(** The [finally] clause of [get_connection]: [put_nowait], and [close]
    when the queue is full. *)
Definition release (p : PoolState) (conn : Connection) : PoolState :=
  if full p
  then mkPool (pool_size p) (queue p) (opened p) (closed p ++ [conn])
  else mkPool (pool_size p) (queue p ++ [conn]) (opened p) (closed p).

(** [with self.db_pool.get_connection() as conn: body] *)
Definition with_connection {A} (p : PoolState) (body : Connection -> A)
    : PoolState * A :=
  let '(conn, p1) := acquire p in
  (release p1 conn, body conn).

(** [DatabaseConnectionPool.close_all()] *)
Definition close_all (p : PoolState) : PoolState :=
  mkPool (pool_size p) [] (opened p) (closed p ++ queue p).

End Pool.

(** ** The candidates of key generation *)

Module Keys.
Import PyStr Token Revenue.

(** The key that the call of [generate_api_key] at recursion depth [i]
    builds: each call draws 18 bytes, so the call at depth [i] reads the
    random source 18 * i bytes further on. *)
Definition candidate (m : Manager) (i : nat) : string :=
  ("gopt_" ++ str (firstn 23 (token_urlsafe (rng m) (rng_pos m + 18 * i) 18)))%string.

End Keys.

(** ** A client of the manager *)

Module Session.
Import PyStr Revenue.

(** One call of a public method of [RevenueManager], with the clock
    reading at which it is made. *)
Inductive call : Type :=
  | GetCustomer (now : Z) (email : string)
  | GetCustomerByEmail (now : Z) (email : string)
  | GetCustomerByApiKey (now : Z) (api_key : string)
  | CreateCustomer (now : Z) (email : string)
  | CompleteUpgrade (now : Z) (customer_email new_tier payment_id : string)
  | TrackGpuUsage (now : Z) (api_key : string) (gpu_data : list GpuSample)
  | StorePaymentTransaction (now : Z)
      (customer_email payment_id payment_gateway : string) (amount : float)
      (currency status : string) (metadata : option string)
  | UpdatePaymentStatus (now : Z) (payment_id status : string)
      (metadata : option string).

(** The manager after the call; what the call returned or raised is
    dropped, as by a caller that catches and goes on.  Every call finds
    the storage available: a lock that an earlier call may have left
    (see [settles]) is taken to be gone. *)
Definition perform (m : Manager) (c : call) : Manager :=
  match c with
  | GetCustomer now e => fst (get_customer m now e)
  | GetCustomerByEmail now e => fst (get_customer_by_email m now e)
  | GetCustomerByApiKey now k => fst (get_customer_by_api_key m now k)
  | CreateCustomer now e => fst (create_customer m now e)
  | CompleteUpgrade now e t p => fst (complete_upgrade m now e t p)
  | TrackGpuUsage now k g => fst (track_gpu_usage m now k g)
  | StorePaymentTransaction now e p g a c s md =>
      store_payment_transaction m now e p g a c s md
  | UpdatePaymentStatus now p s md => update_payment_status m now p s md
  end.

(** The calls of a session, made one after the other. *)
Definition run (calls : list call) (m : Manager) : Manager :=
  fold_left perform calls m.

(** The calls that cannot leave a connection behind with a write pending:
    the lookups only read, signup closes its connection in a [finally]
    clause, and the two payment writes commit in a straight line.
    [complete_upgrade] and [track_gpu_usage] can leave one (see
    [complete_upgrade_run] and [_batch_process_gpu_data_run]), and the
    write lock it holds makes the writes of later calls fail until the
    interpreter collects it. *)
Definition settles (c : call) : bool :=
  match c with
  | CompleteUpgrade _ _ _ _ | TrackGpuUsage _ _ _ => false
  | _ => true
  end.

End Session.

(** * Properties *)

(** ** The rate limiter *)

Module RateLimitFacts.
Import RateLimit.

Lemma stamps_of_insert (rl : limits) identifier l :
  stamps_of (<[identifier := l]> rl) identifier = l.
Proof. unfold stamps_of. by rewrite lookup_insert_eq. Qed.

Lemma stamps_of_insert_ne (rl : limits) identifier other l :
  other <> identifier ->
  stamps_of (<[identifier := l]> rl) other = stamps_of rl other.
Proof. intros Hne. unfold stamps_of. by rewrite lookup_insert_ne. Qed.

Lemma check_rate_limit_step (rl : limits) now identifier limit window :
  stamps_of (fst (check_rate_limit rl now identifier limit window)) identifier
    = fst (step now limit window (stamps_of rl identifier)) /\
  snd (check_rate_limit rl now identifier limit window)
    = snd (step now limit window (stamps_of rl identifier)).
Proof.
  unfold check_rate_limit, step, stamps_of.
  destruct (rl !! identifier) as [l|] eqn:Hl.
  - rewrite Hl.
    destruct (limit <=? _); cbn [fst snd]; rewrite !lookup_insert_eq; auto.
  - rewrite lookup_insert_eq.
    destruct (limit <=? _); cbn [fst snd]; rewrite !lookup_insert_eq; auto.
Qed.

Lemma check_rate_limit_other (rl : limits) now identifier limit window other :
  other <> identifier ->
  stamps_of (fst (check_rate_limit rl now identifier limit window)) other
    = stamps_of rl other.
Proof.
  intros Hne. unfold check_rate_limit.
  destruct (rl !! identifier) as [l|] eqn:Hl;
    match goal with |- context [if ?c then _ else _] => destruct c end; simpl;
    rewrite ?stamps_of_insert_ne by done; done.
Qed.

Lemma run_checks_steps (clock : list Z) : forall (rl : limits) identifier limit window,
  snd (run_checks rl identifier limit window clock)
    = steps limit window (stamps_of rl identifier) clock.
Proof.
  induction clock as [|now rest IH]; intros rl identifier limit window; [done|].
  simpl.
  destruct (check_rate_limit_step rl now identifier limit window) as [Hs Hv].
  destruct (check_rate_limit rl now identifier limit window) as [rl' ok].
  destruct (step now limit window (stamps_of rl identifier)) as [st' ok'].
  simpl in Hs, Hv. subst.
  specialize (IH rl' identifier limit window).
  destruct (run_checks rl' identifier limit window rest) as [rl'' oks].
  simpl in *. by rewrite IH.
Qed.

Lemma prune_In now window stamps t :
  In t (prune now window stamps) <-> In t stamps /\ now - t < window.
Proof.
  unfold prune. rewrite filter_In. by rewrite Z.ltb_lt.
Qed.

Ltac prune_cases :=
  repeat match goal with
         | |- context [?a - ?b <? ?w] =>
             destruct (Z.ltb_spec (a - b) w); try lia; simpl
         end.

(** C7: [check_rate_limit] keeps exactly the stored timestamps younger
    than the window, denies without recording when as many as [limit] of
    them remain, and otherwise appends the clock reading and allows;
    other identifiers are untouched.  With limit 5 and window 60, five
    calls within one window are allowed, the sixth is denied, and a call
    made once the oldest timestamp is a full window old is allowed. *)
Theorem check_rate_limit_sliding_window :
  (forall (rl : limits) now identifier limit window,
      let pruned := prune now window (stamps_of rl identifier) in
      let result := check_rate_limit rl now identifier limit window in
      (forall t, In t pruned <->
                 In t (stamps_of rl identifier) /\ now - t < window) /\
      (limit <= Z.of_nat (length pruned) ->
         snd result = false /\ stamps_of (fst result) identifier = pruned) /\
      (Z.of_nat (length pruned) < limit ->
         snd result = true /\
         stamps_of (fst result) identifier = pruned ++ [now]) /\
      (forall other, other <> identifier ->
         stamps_of (fst result) other = stamps_of rl other)) /\
  (forall (rl : limits) identifier t1 t2 t3 t4 t5 t6 t7,
      stamps_of rl identifier = [] ->
      t1 <= t2 -> t2 <= t3 -> t3 <= t4 -> t4 <= t5 -> t5 <= t6 -> t6 <= t7 ->
      t6 - t1 < 60 -> 60 <= t7 - t1 ->
      snd (run_checks rl identifier 5 60 [t1; t2; t3; t4; t5; t6; t7])
        = [true; true; true; true; true; false; true]).
Proof.
  split.
  - intros rl now identifier limit window pruned result.
    destruct (check_rate_limit_step rl now identifier limit window) as [Hs Hv].
    fold result in Hs, Hv. unfold step in Hs, Hv. fold pruned in Hs, Hv.
    split; [apply prune_In|].
    split; [|split].
    + intros Hle. destruct (Z.leb_spec limit (Z.of_nat (length pruned))); [|lia].
      by rewrite Hs, Hv.
    + intros Hlt. destruct (Z.leb_spec limit (Z.of_nat (length pruned))); [lia|].
      by rewrite Hs, Hv.
    + intros other Hne. by apply check_rate_limit_other.
  - intros rl identifier t1 t2 t3 t4 t5 t6 t7 Hfresh H12 H23 H34 H45 H56 H67 Hin Hout.
    rewrite run_checks_steps, Hfresh.
    unfold steps, step, prune. simpl.
    prune_cases; reflexivity.
Qed.

(** A concrete run: calls at seconds 0, 10, 20, 30, 40 and 50 of a fresh
    identifier, then one at second 60. *)
Lemma check_rate_limit_sliding_window_witness :
  snd (run_checks ∅ "agent-1" 5 60 [0; 10; 20; 30; 40; 50; 60])
    = [true; true; true; true; true; false; true].
Proof.
  apply (proj2 check_rate_limit_sliding_window); try lia.
  reflexivity.
Defined.

End RateLimitFacts.

(** ** The regular-expression engine *)

Module ReFacts.
Import PyStr Re.

Lemma dead_not_nullable r : dead r = true -> nullable r = false.
Proof.
  induction r; cbn [dead nullable]; try discriminate; try done.
  - intros [H|H]%orb_prop; [rewrite IHr1|rewrite IHr2]; auto using andb_false_r.
  - intros [H1 H2]%andb_prop. by rewrite IHr1, IHr2.
Qed.

Lemma dead_deriv c r : dead r = true -> dead (deriv c r) = true.
Proof.
  induction r; cbn [dead deriv]; try discriminate; try done.
  - intros H. destruct (nullable r1) eqn:Hn; cbn [dead].
    + apply orb_prop in H as [H|H].
      * apply dead_not_nullable in H. congruence.
      * rewrite H, IHr2 by done. by rewrite orb_true_r.
    + apply orb_prop in H as [H|H].
      * by rewrite IHr1.
      * rewrite H. apply orb_true_r.
  - intros [H1 H2]%andb_prop. by rewrite IHr1, IHr2.
Qed.

Lemma dead_rejects l : forall r, dead r = true -> accepts r l = false.
Proof.
  induction l as [|c l IH]; intros r Hdead; cbn [accepts].
  - by apply dead_not_nullable.
  - by apply IH, dead_deriv.
Qed.

Lemma deriv_alien c r : chars_of r c = false -> dead (deriv c r) = true.
Proof.
  induction r; cbn [chars_of deriv dead]; try done.
  - by intros ->.
  - intros [H1 H2]%orb_false_elim.
    destruct (nullable r1); cbn [dead]; rewrite IHr1 by done; [|done].
    by rewrite IHr2.
  - intros [H1 H2]%orb_false_elim. by rewrite IHr1, IHr2.
  - intros H. by rewrite IHr.
Qed.

Lemma chars_of_deriv c c' r :
  chars_of (deriv c r) c' = true -> chars_of r c' = true.
Proof.
  induction r; cbn [chars_of deriv]; try done.
  - by destruct (b c).
  - destruct (nullable r1); cbn [chars_of]; intros H;
      repeat (apply orb_prop in H as [H|H]);
      rewrite ?(IHr1 H), ?(IHr2 H), ?H, ?orb_true_r; done.
  - intros [H|H]%orb_prop; rewrite ?(IHr1 H), ?(IHr2 H), ?orb_true_r; done.
  - intros [H|H]%orb_prop; [by apply IHr|done].
Qed.

(** An accepted string is made of characters of the pattern's classes. *)
Lemma accepts_chars l : forall r,
  accepts r l = true -> Forall (fun c => chars_of r c = true) l.
Proof.
  induction l as [|c l IH]; intros r Hacc; [constructor|].
  cbn [accepts] in Hacc. constructor.
  - destruct (chars_of r c) eqn:Hc; [done|].
    apply (deriv_alien c) in Hc. apply (dead_rejects l) in Hc. congruence.
  - apply IH in Hacc. eapply Forall_impl; [exact Hacc|].
    intros c'. apply chars_of_deriv.
Qed.

Lemma accepts_Alt l : forall a b,
  accepts (Alt a b) l = accepts a l || accepts b l.
Proof.
  induction l as [|c l IH]; intros a b; [done|].
  cbn [accepts deriv]. apply IH.
Qed.

(** A string accepted by a concatenation splits in two accepted parts. *)
Lemma accepts_Seq l : forall a b,
  accepts (Seq a b) l = true ->
  exists l1 l2, l = l1 ++ l2 /\ accepts a l1 = true /\ accepts b l2 = true.
Proof.
  induction l as [|c l IH]; intros a b.
  - cbn [accepts nullable]. intros [Ha Hb]%andb_prop. by exists [], [].
  - cbn [accepts deriv]. destruct (nullable a) eqn:Hn.
    + rewrite accepts_Alt. intros [H|H]%orb_prop.
      * apply IH in H as (l1 & l2 & -> & H1 & H2). by exists (c :: l1), l2.
      * by exists [], (c :: l).
    + intros H. apply IH in H as (l1 & l2 & -> & H1 & H2). by exists (c :: l1), l2.
Qed.

(** A string accepted by a class is one character of the class. *)
Lemma accepts_Cls p l :
  accepts (Cls p) l = true -> exists c, l = [c] /\ p c = true.
Proof.
  destruct l as [|c l]; [done|]. cbn [accepts deriv].
  destruct (p c) eqn:Hp; [|by rewrite dead_rejects].
  destruct l as [|c' l]; [by exists c|].
  cbn [accepts deriv]. by rewrite dead_rejects.
Qed.

End ReFacts.

(** ** Validation and sanitising *)

Module SecurityFacts.
Import PyStr Re Security ReFacts.

Lemma is_char_eq n c : is_char n c = true -> c = ascii_of_N n.
Proof.
  unfold is_char, code. intros H%N.eqb_eq.
  rewrite <- H. symmetry. apply ascii_N_embedding.
Qed.

Lemma is_dot c : is_char 46 c = true -> c = dot.
Proof. apply is_char_eq. Qed.

Lemma chars_str l : chars (str l) = l.
Proof. apply list_ascii_of_string_of_list_ascii. Qed.

Lemma sanitize_input_chars e0 :
  chars (sanitize_input e0) = sanitize_chars (chars e0).
Proof. apply chars_str. Qed.

(** The addresses of the repository's tests
    [test_validate_email_security] and [test_create_customer_invalid_email]
    are refused, and the address of the signup tests is accepted. *)
Example validate_email_on_test_addresses :
  forallb (fun address => negb (validate_email address))
    [ "test<script>@example.com";
      "test';DROP TABLE customers;--@example.com";
      "test@example.com<script>alert('xss')</script>";
      "test@example..com"; ".test@example.com"; "test@example.com.";
      "invalid-email"; "test@"; "@example.com"; "test..test@example.com";
      "test@example"; "" ] = true /\
  validate_email "test@example.com" = true.
Proof. vm_compute. split; reflexivity. Qed.

(** *** What [validate_email] refuses *)

Lemma validate_refuses_long l :
  (255 < length l)%nat -> validate_email_chars l = false.
Proof.
  intros Hlen. unfold validate_email_chars.
  destruct l; [done|].
  by destruct (Nat.ltb_spec 255 (length (a :: l))); [|lia].
Qed.

Lemma validate_refuses_suspicious l :
  existsb (fun pattern => pattern l) suspicious_patterns = true ->
  validate_email_chars l = false.
Proof.
  intros Hs. unfold validate_email_chars.
  destruct l; [done|].
  destruct (255 <? _)%nat; [done|].
  destruct (negb _); [done|].
  by rewrite Hs.
Qed.

Lemma validate_refuses_dots l :
  has_consecutive_dots l = true -> validate_email_chars l = false.
Proof.
  intros H. apply validate_refuses_suspicious.
  cbn [existsb suspicious_patterns]. rewrite H. by rewrite !orb_true_r.
Qed.

Lemma validate_refuses_leading l :
  starts_with_dot l = true -> validate_email_chars l = false.
Proof.
  intros H. apply validate_refuses_suspicious.
  cbn [existsb suspicious_patterns]. rewrite H. by rewrite !orb_true_r.
Qed.

Lemma validate_refuses_trailing l :
  ends_with_dot l = true -> validate_email_chars l = false.
Proof.
  intros H. apply validate_refuses_suspicious.
  cbn [existsb suspicious_patterns]. rewrite H. by rewrite !orb_true_r.
Qed.

Lemma email_pattern_chars c :
  chars_of email_pattern c = true -> email_char c = true.
Proof.
  unfold email_pattern, Plus, AtLeast, email_char. cbn [chars_of Rep].
  unfold local_class, domain_class, alnum, alpha.
  destruct (lower c), (upper c), (digit c), (is_char 46 c), (is_char 95 c),
    (is_char 37 c), (is_char 43 c), (is_char 45 c), (is_char 64 c); done.
Qed.

(** An accepted address is made of e-mail characters, except that a
    newline may end it. *)
Lemma validate_accepts_alphabet l :
  validate_email_chars l = true ->
  Forall (fun c => email_char c = true) l \/
  exists before, l = before ++ [newline] /\
                 Forall (fun c => email_char c = true) before.
Proof.
  unfold validate_email_chars.
  destruct l as [|a l']; [done|]. set (l := a :: l').
  destruct (255 <? _)%nat; [done|].
  destruct (match_anchored email_pattern l) eqn:Hm; [|done].
  intros _. unfold match_anchored in Hm.
  apply orb_prop in Hm as [Hm|Hm].
  - left. apply accepts_chars in Hm.
    eapply Forall_impl; [exact Hm|]. intros c. apply email_pattern_chars.
  - right. destruct (rev l) as [|c before] eqn:Hrev; [done|].
    apply andb_prop in Hm as [Hc Hm].
    exists (rev before). split.
    + apply is_char_eq in Hc. subst c.
      rewrite <- (rev_involutive l), Hrev. reflexivity.
    + apply accepts_chars in Hm.
      eapply Forall_impl; [exact Hm|]. intros c'. apply email_pattern_chars.
Qed.

(** *** What [sanitize_input] preserves *)

Lemma lstrip_solid pre c rest :
  isspace c = false -> lstrip (pre ++ c :: rest) = lstrip pre ++ c :: rest.
Proof.
  intros Hc. induction pre as [|a pre IH]; cbn [app lstrip].
  - by rewrite Hc.
  - by destruct (isspace a).
Qed.

Lemma rstrip_solid pre c rest :
  isspace c = false -> rstrip (pre ++ c :: rest) = pre ++ c :: rstrip rest.
Proof.
  intros Hc. unfold rstrip.
  rewrite rev_app_distr. cbn [rev]. rewrite <- app_assoc. cbn [app].
  rewrite lstrip_solid by done.
  rewrite rev_app_distr. cbn [rev]. rewrite rev_involutive, <- app_assoc.
  reflexivity.
Qed.

Lemma rstrip_head c rest :
  isspace c = false -> rstrip (c :: rest) = c :: rstrip rest.
Proof. apply (rstrip_solid [] c rest). Qed.

Lemma strip_solid pre c rest :
  isspace c = false -> strip (pre ++ c :: rest) = lstrip pre ++ c :: rstrip rest.
Proof.
  intros Hc. unfold strip. rewrite lstrip_solid by done. by apply rstrip_solid.
Qed.

(** The last character left by [strip] is not white space. *)
Lemma strip_last l before c : strip l = before ++ [c] -> isspace c = false.
Proof.
  unfold strip, rstrip. intros H.
  apply (f_equal (@rev ascii)) in H.
  rewrite rev_involutive, rev_app_distr in H. cbn [rev app] in H.
  revert H. generalize (rev (lstrip l)). intros k.
  induction k as [|a k IH]; cbn [lstrip]; [done|].
  destruct (isspace a) eqn:Ha; [exact IH|].
  by intros [= -> _].
Qed.

Lemma sanitize_solid pre c rest :
  isspace c = false -> keep c = true ->
  let s := lstrip (List.filter keep pre) ++ c :: rstrip (List.filter keep rest) in
  sanitize_chars (pre ++ c :: rest) = firstn 1000 s.
Proof.
  intros Hc Hk. unfold sanitize_chars. fold keep.
  rewrite List.filter_app. cbn [List.filter]. rewrite Hk.
  by rewrite strip_solid.
Qed.

(** Truncation either is the identity or leaves 1000 characters. *)
Lemma firstn_1000 (l : list ascii) :
  firstn 1000 l = l \/ (255 < length (firstn 1000 l))%nat.
Proof.
  destruct (Nat.le_gt_cases (length l) 1000) as [Hle|Hgt].
  - left. by apply firstn_all2.
  - right. rewrite length_firstn. lia.
Qed.

Lemma consecutive_dots_split l :
  has_consecutive_dots l = true ->
  exists pre post, l = pre ++ dot :: dot :: post.
Proof.
  induction l as [|a l IH]; [done|].
  destruct l as [|b l']; [done|].
  change (has_consecutive_dots (a :: b :: l'))
    with ((is_char 46 a && is_char 46 b) || has_consecutive_dots (b :: l')).
  intros [H|H]%orb_prop.
  - apply andb_prop in H as [->%is_dot ->%is_dot]. by exists [], l'.
  - destruct (IH H) as (pre & post & ->). by exists (a :: pre), post.
Qed.

Lemma consecutive_dots_join pre post :
  has_consecutive_dots (pre ++ dot :: dot :: post) = true.
Proof.
  induction pre as [|a pre IH]; [done|].
  cbn [app]. destruct (pre ++ dot :: dot :: post) as [|b k] eqn:Hk; [done|].
  change (has_consecutive_dots (a :: b :: k))
    with ((is_char 46 a && is_char 46 b) || has_consecutive_dots (b :: k)).
  rewrite IH. apply orb_true_r.
Qed.

Lemma ends_with_dot_split l :
  ends_with_dot l = true ->
  exists pre, l = pre ++ [dot] \/ l = pre ++ [dot; newline].
Proof.
  unfold ends_with_dot.
  destruct (rev l) as [|c before] eqn:Hrev; [done|].
  apply (f_equal (@rev ascii)) in Hrev. rewrite rev_involutive in Hrev.
  cbn [rev] in Hrev.
  intros [H|H]%orb_prop.
  - apply is_dot in H. subst c. exists (rev before). by left.
  - apply andb_prop in H as [Hc Hd].
    apply is_char_eq in Hc. subst c.
    destruct before as [|d before']; [done|].
    apply is_dot in Hd. subst d. exists (rev before'). right.
    rewrite Hrev. cbn [rev]. by rewrite <- app_assoc.
Qed.

Lemma ends_with_dot_snoc pre : ends_with_dot (pre ++ [dot]) = true.
Proof. unfold ends_with_dot. by rewrite rev_app_distr. Qed.

(** An input with two dots in a row, a leading dot or a trailing dot is
    still refused after sanitising. *)
Lemma sanitize_keeps_dots l :
  has_consecutive_dots l = true ->
  validate_email_chars (sanitize_chars l) = false.
Proof.
  intros (pre & post & ->)%consecutive_dots_split.
  rewrite (sanitize_solid pre dot (dot :: post)) by done.
  change (List.filter keep (dot :: post)) with (dot :: List.filter keep post).
  rewrite (rstrip_head dot) by done.
  destruct (firstn_1000
    (lstrip (List.filter keep pre) ++ dot :: dot :: rstrip (List.filter keep post)))
    as [->|Hlong].
  - apply validate_refuses_dots, consecutive_dots_join.
  - by apply validate_refuses_long.
Qed.

Lemma sanitize_keeps_leading_dot l :
  starts_with_dot l = true ->
  validate_email_chars (sanitize_chars l) = false.
Proof.
  destruct l as [|c rest]; [done|].
  cbn [starts_with_dot]. intros ->%is_dot.
  change (dot :: rest) with ([] ++ dot :: rest).
  rewrite (sanitize_solid [] dot rest) by done.
  by apply validate_refuses_leading.
Qed.

Lemma sanitize_keeps_trailing_dot l :
  ends_with_dot l = true ->
  validate_email_chars (sanitize_chars l) = false.
Proof.
  intros [pre [->| ->]]%ends_with_dot_split.
  - rewrite (sanitize_solid pre dot []) by done.
    change (rstrip (List.filter keep [])) with (@nil ascii).
    destruct (firstn_1000 (lstrip (List.filter keep pre) ++ [dot])) as [->|Hlong].
    + apply validate_refuses_trailing, ends_with_dot_snoc.
    + by apply validate_refuses_long.
  - rewrite (sanitize_solid pre dot [newline]) by done.
    change (rstrip (List.filter keep [newline])) with (@nil ascii).
    destruct (firstn_1000 (lstrip (List.filter keep pre) ++ [dot])) as [->|Hlong].
    + apply validate_refuses_trailing, ends_with_dot_snoc.
    + by apply validate_refuses_long.
Qed.

(** A sanitised address that is accepted holds e-mail characters only. *)
Lemma sanitize_accepted_alphabet l :
  validate_email_chars (sanitize_chars l) = true ->
  Forall (fun c => email_char c = true) (sanitize_chars l).
Proof.
  intros Hvalid.
  destruct (validate_accepts_alphabet _ Hvalid) as [Hall|(before & Heq & Hall)];
    [exact Hall|].
  exfalso. unfold sanitize_chars in Heq, Hvalid.
  destruct (firstn_1000 (strip (List.filter (fun c => negb (dangerous c)) l)))
    as [Hid|Hlong].
  - rewrite Hid in Heq. by apply strip_last in Heq.
  - apply validate_refuses_long in Hlong. congruence.
Qed.

(** An accepted address holds an at sign. *)
Lemma validate_accepts_at l :
  validate_email_chars l = true -> contains_char 64 l = true.
Proof.
  assert (forall k, accepts email_pattern k = true -> contains_char 64 k = true)
    as Hat.
  { intros k Hk. unfold email_pattern in Hk.
    apply accepts_Seq in Hk as (l1 & l2 & -> & _ & Hk).
    apply accepts_Seq in Hk as (l3 & l4 & -> & Hk & _).
    apply accepts_Cls in Hk as (c & -> & Hc).
    unfold contains_char. rewrite existsb_app. cbn [app existsb].
    rewrite Hc. by rewrite orb_true_r. }
  unfold validate_email_chars.
  destruct l as [|a l']; [done|]. set (l := a :: l').
  destruct (255 <? _)%nat; [done|].
  destruct (match_anchored email_pattern l) eqn:Hm; [|done].
  intros _. unfold match_anchored in Hm.
  apply orb_prop in Hm as [Hm|Hm]; [by apply Hat|].
  destruct (rev l) as [|c before] eqn:Hrev; [done|].
  apply andb_prop in Hm as [_ Hm]. apply Hat in Hm.
  rewrite <- (rev_involutive l), Hrev. cbn [rev].
  unfold contains_char in *. rewrite existsb_app, Hm. reflexivity.
Qed.

End SecurityFacts.

(** ** The revenue manager *)

Module RevenueFacts.
Import PyStr Security Token Revenue Scenario Tables SecurityFacts.

(** *** Bookkeeping lemmas *)

Lemma generate_api_key_S depth m :
  generate_api_key (S depth) m =
    let random_part := firstn 23 (token_urlsafe (rng m) (rng_pos m) 18) in
    let m1 := with_rng_pos m (rng_pos m + 18)%nat in
    let key := ("gopt_" ++ str random_part)%string in
    if api_key_taken (db m1) key then generate_api_key depth m1
    else (m1, Some key).
Proof. reflexivity. Qed.

Lemma cache_get_db m now key : db (fst (cache_get m now key)) = db m.
Proof.
  unfold cache_get.
  destruct (cache m !! key); [|done].
  destruct (ttl_cache m !! key) as [expiry|]; [|done].
  by destruct (expiry <? now).
Qed.

Lemma get_customer_by_api_key_body_db m now k :
  db (fst (get_customer_by_api_key_body m now k)) = db m.
Proof.
  unfold get_customer_by_api_key_body.
  destruct (negb (validate_api_key k)); [done|].
  pose proof (cache_get_db m now ("customer_api_" ++ k)) as Hdb.
  destruct (cache_get m now ("customer_api_" ++ k)) as [m1 [c|]];
    cbn [fst] in *; [done|].
  destruct (select_by_api_key (db m1) k) as [row|]; [|done].
  destruct (row_to_customer (Some row)); cbn [fst]; [|done].
  unfold cache_set, with_cache. by cbn [db].
Qed.

Lemma get_customer_by_api_key_db m now k :
  db (fst (get_customer_by_api_key m now k)) = db m.
Proof.
  unfold get_customer_by_api_key.
  destruct (lru_find k (lru_get_customer_by_api_key m)); [done|].
  pose proof (get_customer_by_api_key_body_db m now k) as Hdb.
  by destruct (get_customer_by_api_key_body m now k).
Qed.

(** *** Format of generated keys *)

Lemma sextet_in_alphabet n : In (sextet n) alphabet.
Proof.
  unfold sextet. apply nth_In.
  assert (N.land n 63 < 64)%N as Hlt.
  { change 63%N with (N.ones 6). rewrite N.land_ones. by apply N.mod_lt. }
  change (length alphabet) with 64%nat. lia.
Qed.

Lemma urlsafe_b64_alphabet : forall n bs, (length bs <= n)%nat ->
  Forall (fun c => In c alphabet) (urlsafe_b64 bs).
Proof.
  induction n as [n IH] using lt_wf_ind. intros bs Hlen.
  destruct bs as [|b0 [|b1 [|b2 rest]]]; cbn [urlsafe_b64].
  - constructor.
  - repeat (constructor; [apply sextet_in_alphabet|]). constructor.
  - repeat (constructor; [apply sextet_in_alphabet|]). constructor.
  - repeat (constructor; [apply sextet_in_alphabet|]).
    apply (IH (length rest)); simpl in Hlen; lia.
Qed.

Lemma random_part_format r pos :
  let random_part := firstn 23 (token_urlsafe r pos 18) in
  length random_part = 23%nat /\ Forall (fun c => In c alphabet) random_part.
Proof.
  split.
  - reflexivity.
  - apply Forall_take.
    by apply (urlsafe_b64_alphabet (length (token_bytes r pos 18))).
Qed.

(** Whatever the random source and the stored keys, a key returned by
    [generate_api_key] is the prefix followed by 23 characters of the
    URL-safe alphabet, and is not yet stored. *)
Lemma generate_api_key_format : forall depth m m' key,
  generate_api_key depth m = (m', Some key) ->
  exists random_part,
    key = ("gopt_" ++ str random_part)%string /\
    length random_part = 23%nat /\
    Forall (fun c => In c alphabet) random_part /\
    api_key_taken (db m) key = false.
Proof.
  induction depth as [|depth IH]; intros m m' key; [discriminate|].
  rewrite generate_api_key_S. cbv zeta.
  destruct (api_key_taken _ _) eqn:Htaken.
  - intros Hgen. apply IH in Hgen. exact Hgen.
  - intros [= <- <-].
    exists (firstn 23 (token_urlsafe (rng m) (rng_pos m) 18)).
    destruct (random_part_format (rng m) (rng_pos m)) as [Hlen Hall].
    auto.
Qed.

(** *** Creation followed by lookup *)

Lemma lru_find_head key v l : lru_find key ((key, v) :: l) = Some v.
Proof. simpl. by rewrite String.eqb_refl. Qed.

Lemma get_customer_unknown m now e :
  lru_find e (lru_get_customer m) = None ->
  cache m !! ("customer_email_" ++ e)%string = None ->
  select_by_email (db m) e = None ->
  get_customer m now e =
    (with_lru_get_customer m (lru_store e None (lru_get_customer m)), None).
Proof.
  intros Hlru Hcache Hrow. unfold get_customer. rewrite Hlru.
  unfold get_customer_body, cache_get. rewrite Hcache, Hrow. reflexivity.
Qed.

(** The constructor accepts what signup builds. *)
Lemma post_init_signup e suffix now :
  validate_email e = true ->
  post_init (mkCustomer e "free" ("gopt_" ++ suffix) now None 0 0%float None None)
    = None.
Proof.
  intros Hvalid. unfold post_init. cbn [email tier api_key].
  assert (String.eqb e "" = false) as -> by (by destruct e).
  unfold validate_email in Hvalid. apply validate_accepts_at in Hvalid.
  by rewrite Hvalid.
Qed.

(** The first signup on an empty database. *)
Lemma create_customer_started r now e0 :
  validate_email (sanitize_input e0) = true ->
  create_customer (started r) now e0 =
    (signed_up r now (sanitize_input e0),
     Return (Some (new_customer r now (sanitize_input e0)))).
Proof.
  intros Hvalid.
  unfold create_customer. rewrite Hvalid. cbn [negb].
  unfold get_customer_by_email.
  rewrite get_customer_unknown by (try reflexivity; apply lookup_empty).
  change recursion_limit with (S 999). rewrite generate_api_key_S.
  unfold started. cbv zeta.
  cbn [db with_rng_pos with_lru_get_customer api_key_taken customers existsb
       email_taken orb rng rng_pos].
  rewrite post_init_signup by done.
  reflexivity.
Qed.

Lemma generate_api_key_db : forall depth m,
  db (fst (generate_api_key depth m)) = db m.
Proof.
  induction depth as [|depth IH]; intros m; [done|].
  rewrite generate_api_key_S. cbv zeta.
  destruct (api_key_taken _ _); [|done].
  by rewrite IH.
Qed.

(** C4, on the code: on a freshly started manager every accepted signup
    stores a row whose key has the fixed format ([gopt_] and 23 more
    characters) and returns that key, but the lookup by e-mail that
    follows answers [None]: the existence check made inside
    [create_customer] left a memoised [None] in the [lru_cache] of
    [get_customer]. *)
Theorem create_customer_then_get_by_email r now now' e0 :
  validate_email (sanitize_input e0) = true ->
  exists m1 c,
    create_customer (started r) now e0 = (m1, Return (Some c)) /\
    email c = sanitize_input e0 /\
    option_map row_api_key (select_by_email (db m1) (email c)) = Some (api_key c) /\
    startswith (chars "gopt_") (chars (api_key c)) = true /\
    String.length (api_key c) = 28%nat /\
    snd (get_customer_by_email m1 now' (email c)) = None.
Proof.
  intros Hvalid. rewrite create_customer_started by done.
  eexists _, _. split; [reflexivity|].
  split; [reflexivity|].
  split.
  { unfold select_by_email, signed_up, new_customer.
    cbn [db customers List.find row_email email]. by rewrite String.eqb_refl. }
  do 2 (split; [reflexivity|]).
  unfold get_customer_by_email, get_customer, signed_up, new_customer.
  cbn [lru_get_customer email]. by rewrite lru_find_head.
Qed.

Lemma create_customer_then_get_by_email_witness :
  exists m1 c,
    create_customer (started zeros) 1000 "dev@example.com" = (m1, Return (Some c)) /\
    email c = sanitize_input "dev@example.com" /\
    option_map row_api_key (select_by_email (db m1) (email c)) = Some (api_key c) /\
    startswith (chars "gopt_") (chars (api_key c)) = true /\
    String.length (api_key c) = 28%nat /\
    snd (get_customer_by_email m1 1001 (email c)) = None.
Proof.
  apply (create_customer_then_get_by_email zeros 1000 1001 "dev@example.com").
  vm_compute. reflexivity.
Defined.

(** C5, on the code: on a freshly started manager the second signup with
    the same e-mail never raises the duplicate error.  The memoised
    [None] of the first existence check hides the stored customer, the
    INSERT hits the UNIQUE constraint, and the [IntegrityError] handler
    returns the first customer (unless key generation itself gives up);
    the database is left as it was.  With the random source [mixed] the
    second call returns the first customer. *)
Theorem second_create_customer_returns_first :
  (forall r now now' e0,
      validate_email (sanitize_input e0) = true ->
      exists m1 c,
        create_customer (started r) now e0 = (m1, Return (Some c)) /\
        (snd (create_customer m1 now' e0) = Return (Some c) \/
         snd (create_customer m1 now' e0) = Raise RecursionError) /\
        db (fst (create_customer m1 now' e0)) = db m1) /\
  (let first := create_customer (started mixed) 1000 "dev@example.com" in
   let second := create_customer (fst first) 1001 "dev@example.com" in
   snd first = Return (Some dev_customer) /\
   snd second = Return (Some dev_customer) /\
   db (fst second) = db (fst first)).
Proof.
  split; [|vm_compute; repeat split].
  intros r now now' e0 Hvalid. rewrite create_customer_started by done.
  eexists _, _. split; [reflexivity|].
  set (e := sanitize_input e0) in *.
  unfold create_customer. fold e. rewrite Hvalid. cbn [negb].
  unfold get_customer_by_email, get_customer.
  replace (lru_find e (lru_get_customer (signed_up r now e))) with (Some (@None Customer))
    by (symmetry; apply lru_find_head).
  match goal with
  | |- context [generate_api_key recursion_limit ?m] =>
      pose proof (generate_api_key_db recursion_limit m) as Hdb;
      destruct (generate_api_key recursion_limit m) as [m2 [key2|]]
  end; cbn [fst] in Hdb; [|by auto].
  assert (email_taken (db m2) e = true) as Htaken.
  { rewrite Hdb. unfold signed_up.
    cbn [db with_lru_get_customer email_taken customers existsb row_email].
    by rewrite String.eqb_refl. }
  assert (row_to_customer (select_by_email (db m2) e)
          = Some (new_customer r now e)) as Hrow.
  { rewrite Hdb. unfold signed_up, select_by_email.
    cbn [db with_lru_get_customer customers List.find row_email].
    rewrite String.eqb_refl. unfold row_to_customer.
    cbn [row_email row_tier row_api_key row_created_at row_last_payment
         row_gpu_count row_monthly_savings row_flutterwave_customer_id
         row_nowpayments_customer_id].
    unfold first_key. by rewrite post_init_signup. }
  rewrite Htaken, Hrow. cbn [orb fst snd].
  split; [by left|]. by rewrite Hdb.
Qed.

Lemma second_create_customer_returns_first_witness :
  exists m1 c,
    create_customer (started mixed) 1000 "dev@example.com"
      = (m1, Return (Some c)) /\
    (snd (create_customer m1 1001 "dev@example.com") = Return (Some c) \/
     snd (create_customer m1 1001 "dev@example.com") = Raise RecursionError) /\
    db (fst (create_customer m1 1001 "dev@example.com")) = db m1.
Proof.
  apply (proj1 second_create_customer_returns_first mixed 1000 1001
           "dev@example.com").
  vm_compute. reflexivity.
Defined.

(** *** Upgrades and the caches *)

Lemma cache_get_lru_api m now key :
  lru_get_customer_by_api_key (fst (cache_get m now key))
    = lru_get_customer_by_api_key m.
Proof.
  unfold cache_get.
  destruct (cache m !! key); [|done].
  destruct (ttl_cache m !! key) as [expiry|]; [|done].
  by destruct (expiry <? now).
Qed.

Lemma get_customer_lru_api m now e :
  lru_get_customer_by_api_key (fst (get_customer m now e))
    = lru_get_customer_by_api_key m.
Proof.
  unfold get_customer.
  destruct (lru_find e (lru_get_customer m)); [done|].
  unfold get_customer_body.
  pose proof (cache_get_lru_api m now ("customer_email_" ++ e)) as Hget.
  destruct (cache_get m now ("customer_email_" ++ e)) as [m1 [c|]];
    cbn [fst] in *; [done|].
  destruct (select_by_email (db m1) e) as [row|]; [|done].
  by destruct (row_to_customer (Some row)).
Qed.

(** [complete_upgrade] never touches the memo of
    [get_customer_by_api_key]. *)
Lemma complete_upgrade_lru_api m now e new_tier payment_id :
  lru_get_customer_by_api_key (fst (complete_upgrade m now e new_tier payment_id))
    = lru_get_customer_by_api_key m.
Proof.
  unfold complete_upgrade, complete_upgrade_run.
  pose proof (get_customer_lru_api m now e) as Hget.
  destruct (get_customer m now e) as [m1 customer]. cbn [fst] in Hget.
  destruct (pricing_price new_tier); [|done].
  by destruct customer.
Qed.

(** C1, on the code: whatever [get_customer_by_api_key] has memoised for
    a key before [complete_upgrade] is what it answers after it, at any
    later time.  In particular a customer looked up by API key, upgraded
    and looked up again: the upgrade succeeds and the stored tier is
    [professional], but both [PerformanceCache] entries are still there
    and the second lookup still answers with tier [free]. *)
Theorem complete_upgrade_keeps_cached_customer :
  (forall m now now' e new_tier payment_id key memoised,
      lru_find key (lru_get_customer_by_api_key m) = Some memoised ->
      snd (get_customer_by_api_key
             (fst (complete_upgrade m now e new_tier payment_id)) now' key)
        = memoised) /\
  (let before := get_customer_by_api_key (restarted [dev_row] zeros) 2000 dev_key in
   let upgrade := complete_upgrade (fst before) 2001 "dev@example.com"
                    "professional" "pay_1" in
   let after := get_customer_by_api_key (fst upgrade) 2002 dev_key in
   option_map tier (snd before) = Some "free" /\
   snd upgrade = Return tt /\
   option_map row_tier (select_by_api_key (db (fst upgrade)) dev_key)
     = Some "professional" /\
   option_map tier (cache (fst upgrade) !! ("customer_api_" ++ dev_key)%string)
     = Some "free" /\
   option_map tier (cache (fst upgrade) !! "customer_email_dev@example.com")
     = Some "free" /\
   option_map tier (snd after) = Some "free").
Proof.
  split.
  - intros m now now' e new_tier payment_id key memoised Hmemo.
    unfold get_customer_by_api_key.
    by rewrite complete_upgrade_lru_api, Hmemo.
  - vm_compute. repeat split.
Qed.

Lemma complete_upgrade_keeps_cached_customer_witness :
  let before := get_customer_by_api_key (restarted [dev_row] zeros) 2000 dev_key in
  snd (get_customer_by_api_key
         (fst (complete_upgrade (fst before) 2001 "dev@example.com"
                 "professional" "pay_1")) 2002 dev_key)
    = Some dev_customer.
Proof.
  apply (proj1 complete_upgrade_keeps_cached_customer).
  vm_compute. reflexivity.
Defined.

(** *** Generated keys and the key validator *)

(** C10: the URL-safe alphabet of generated keys contains [-] and [_],
    which the validator refuses.  With a random source of all-ones bytes
    signup stores and returns the key [gopt_] followed by 23 underscores;
    [validate_api_key] rejects it and [get_customer_by_api_key] answers
    [None] at any time although the row is stored. *)
Theorem generated_key_rejected_by_validator :
  let created := create_customer (started ones) 1000 "dev@example.com" in
  exists c,
    snd created = Return (Some c) /\
    api_key c = "gopt________________________" /\
    snd (generate_api_key recursion_limit (started ones)) = Some (api_key c) /\
    validate_api_key (api_key c) = false /\
    option_map row_email (select_by_api_key (db (fst created)) (api_key c))
      = Some "dev@example.com" /\
    forall now, snd (get_customer_by_api_key (fst created) now (api_key c)) = None.
Proof.
  eexists. split; [vm_compute; reflexivity|].
  do 4 (split; [vm_compute; reflexivity|]).
  intros now. vm_compute. reflexivity.
Qed.

(** *** Usage ingestion *)

Lemma prepare_batch_total e now : forall gpu_data total rows total' rows',
  prepare_batch e now gpu_data total rows = Some (total', rows') ->
  total' = fold_left add_savings gpu_data total.
Proof.
  induction gpu_data as [|gpu rest IH]; intros total rows total' rows'.
  - cbn [prepare_batch fold_left]. by intros [= <- _].
  - cbn [prepare_batch fold_left]. unfold add_savings at 2. unfold cost_of.
    destruct (gpu_util gpu) as [util|]; [|discriminate].
    destruct (gpu_index gpu); [|discriminate].
    destruct (gpu_name gpu); [|discriminate].
    destruct (mem_used gpu); [|discriminate].
    destruct (mem_total gpu); [|discriminate].
    destruct (util <? 15)%float; [destruct (cost_per_hour gpu)|]; apply IH.
Qed.

Lemma prepare_batch_rows e now : forall gpu_data total batch total' batch',
  prepare_batch e now gpu_data total batch = Some (total', batch') ->
  exists rows,
    batch' = batch ++ rows /\
    Forall2 (fun gpu row => usage_row e now gpu = Some (inserted_row row))
      gpu_data rows.
Proof.
  induction gpu_data as [|gpu rest IH]; intros total batch total' batch'.
  - cbn [prepare_batch]. intros [= _ <-]. exists []. split; [|constructor].
    by rewrite app_nil_r.
  - cbn [prepare_batch].
    assert (forall index name util used total0,
              gpu_index gpu = Some index -> gpu_name gpu = Some name ->
              gpu_util gpu = Some util -> mem_used gpu = Some used ->
              mem_total gpu = Some total0 ->
              usage_row e now gpu =
                Some (inserted_row
                        (mkUsageRow e index name util used total0 (cost_of gpu)
                           (if (util <? 15)%float then (cost_of gpu * 0.5)%float
                            else 0%float) now))) as Hrow.
    { intros index name util used total0 Hi Hn Hu Hm Ht.
      unfold usage_row, cost_of. by rewrite Hi, Hn, Hu, Hm, Ht. }
    destruct (gpu_util gpu) as [util|]; [|discriminate].
    destruct (gpu_index gpu) as [index|]; [|discriminate].
    destruct (gpu_name gpu) as [name|]; [|discriminate].
    destruct (mem_used gpu) as [used|]; [|discriminate].
    destruct (mem_total gpu) as [total0|]; [|discriminate].
    specialize (Hrow index name util used total0 eq_refl eq_refl eq_refl
                  eq_refl eq_refl).
    destruct (util <? 15)%float; intros Hrest;
      apply IH in Hrest as (rows & -> & Hrows);
      eexists (_ :: rows); (split; [by rewrite <- app_assoc|]);
      by constructor.
Qed.

Lemma prepare_batch_complete e now : forall gpu_data total batch,
  forallb complete gpu_data = true <->
  exists result, prepare_batch e now gpu_data total batch = Some result.
Proof.
  induction gpu_data as [|gpu rest IH]; intros total batch.
  - cbn [forallb prepare_batch]. split; [by eexists|done].
  - cbn [forallb prepare_batch]. unfold complete at 1.
    destruct (gpu_index gpu); destruct (gpu_name gpu); destruct (gpu_util gpu) as [util|];
      destruct (mem_used gpu); destruct (mem_total gpu); cbn [andb];
      try (split; [discriminate|by intros [? [=]]]).
    destruct (util <? 15)%float; apply IH.
Qed.

Lemma usage_rows_storable e now gpu_data rows :
  Forall2 (fun gpu row => usage_row e now gpu = Some (inserted_row row))
    gpu_data rows ->
  forallb (fun row => int64 (ul_gpu_index row)) rows = forallb storable gpu_data /\
  length rows = length gpu_data.
Proof.
  induction 1 as [|gpu row gpu_data rows Hrow _ [IH Hlen]]; [done|].
  cbn [forallb length]. rewrite IH, Hlen. split; [|done]. f_equal.
  apply (f_equal (option_map ul_gpu_index)) in Hrow.
  unfold usage_row in Hrow. unfold storable.
  destruct (gpu_index gpu); [|done].
  destruct (gpu_name gpu); [|done]. destruct (gpu_util gpu); [|done].
  destruct (mem_used gpu); [|done]. destruct (mem_total gpu); [|done].
  cbn [option_map ul_gpu_index inserted_row] in Hrow. by injection Hrow as ->.
Qed.

Lemma executemany_stored : forall batch_data logs,
  forallb (fun row => int64 (ul_gpu_index row)) batch_data = true ->
  executemany batch_data logs = (logs ++ List.map inserted_row batch_data, true).
Proof.
  induction batch_data as [|row rest IH]; intros logs.
  - intros _. cbn [executemany]. by rewrite app_nil_r.
  - cbn [forallb executemany]. intros [Hrow Hrest]%andb_prop.
    rewrite Hrow, IH by done. by rewrite <- app_assoc.
Qed.

Lemma executemany_refused : forall batch_data logs,
  forallb (fun row => int64 (ul_gpu_index row)) batch_data = false ->
  exists inserted,
    executemany batch_data logs = (logs ++ inserted, false) /\
    (length inserted < length batch_data)%nat.
Proof.
  induction batch_data as [|row rest IH]; intros logs; [discriminate|].
  cbn [forallb executemany length].
  destruct (int64 (ul_gpu_index row)); cbn [andb].
  - intros Hrest.
    destruct (IH (logs ++ [inserted_row row]) Hrest) as (inserted & -> & Hlen).
    exists (inserted_row row :: inserted). rewrite <- app_assoc. split; [done|].
    cbn [length]. lia.
  - intros _. exists []. rewrite app_nil_r. split; [done|]. cbn [length]. lia.
Qed.

(** What an accepted batch is and does. *)
Lemma _batch_process_gpu_data_ok m now customer gpu_data m' report :
  _batch_process_gpu_data m now customer gpu_data = (m', TrackOk report) ->
  exists rows,
    Forall2 (fun gpu row => usage_row (email customer) now gpu = Some row)
      gpu_data rows /\
    forallb complete gpu_data = true /\
    forallb storable gpu_data = true /\
    report = mkUsageReport (length gpu_data)
               (fold_left add_savings gpu_data 0%float)
               (fold_left add_savings gpu_data 0 * 24 * 30)%float
               (tier customer) /\
    m' = cache_delete
           (cache_delete
              (with_db m
                 (mkDB (List.map (credited (email customer) (length gpu_data)
                                    (fold_left add_savings gpu_data 0 * 24 * 30)%float)
                          (customers (db m)))
                    (revenue_events (db m)) (gpu_usage_logs (db m) ++ rows)
                    (payment_transactions (db m))))
              ("customer_email_" ++ email customer))
           ("customer_api_" ++ api_key customer).
Proof.
  unfold _batch_process_gpu_data, _batch_process_gpu_data_run.
  destruct (prepare_batch (email customer) now gpu_data 0 []) as [[total batch]|]
    eqn:Hprepare; [|discriminate].
  pose proof (prepare_batch_total _ _ _ _ _ _ _ Hprepare) as ->.
  pose proof (proj2 (prepare_batch_complete (email customer) now gpu_data 0%float [])
                (ex_intro _ _ Hprepare)) as Hcomplete.
  apply prepare_batch_rows in Hprepare as (rows & -> & Hrows).
  cbn [app] in *.
  destruct (usage_rows_storable _ _ _ _ Hrows) as [Hstorable _].
  destruct (forallb (fun row => int64 (ul_gpu_index row)) rows) eqn:Hfit.
  - rewrite executemany_stored by done. cbn [fst].
    intros [= <- <-]. exists (List.map inserted_row rows).
    split; [by apply Forall2_fmap_r|]. by repeat split.
  - destruct (executemany_refused rows (gpu_usage_logs (db m)) Hfit)
      as (inserted & -> & _).
    discriminate.
Qed.

Lemma _batch_process_gpu_data_accepts m now customer gpu_data :
  forallb complete gpu_data = true ->
  forallb storable gpu_data = true ->
  exists m' report,
    _batch_process_gpu_data m now customer gpu_data = (m', TrackOk report).
Proof.
  intros Hcomplete Hstorable.
  unfold _batch_process_gpu_data, _batch_process_gpu_data_run.
  destruct (proj1 (prepare_batch_complete (email customer) now gpu_data 0%float [])
              Hcomplete) as [[total batch] Hprepare].
  rewrite Hprepare.
  apply prepare_batch_rows in Hprepare as (rows & -> & Hrows).
  cbn [app].
  destruct (usage_rows_storable _ _ _ _ Hrows) as [Hfit _].
  rewrite Hstorable in Hfit.
  rewrite executemany_stored by done. by eexists _, _.
Qed.


Lemma select_by_api_key_credited d k e count projection :
  List.find (fun r => String.eqb (row_api_key r) k)
    (List.map (credited e count projection) (customers d))
  = option_map (credited e count projection) (select_by_api_key d k).
Proof.
  unfold select_by_api_key.
  induction (customers d) as [|row rows IH]; [done|].
  cbn [List.map List.find].
  assert (row_api_key (credited e count projection row) = row_api_key row) as ->.
  { unfold credited. by destruct (String.eqb (row_email row) e). }
  by destruct (String.eqb (row_api_key row) k).
Qed.

Lemma row_to_customer_tier row c :
  row_to_customer (Some row) = Some c -> tier c = row_tier row.
Proof.
  unfold row_to_customer. destruct (post_init _); [done|]. by intros [= <-].
Qed.

Lemma get_customer_by_api_key_first m now key row :
  lru_find key (lru_get_customer_by_api_key m) = None ->
  cache m !! ("customer_api_" ++ key)%string = None ->
  select_by_api_key (db m) key = Some row ->
  snd (get_customer_by_api_key m now key)
    = if validate_api_key key then row_to_customer (Some row) else None.
Proof.
  intros Hmemo Hcache Hrow. unfold get_customer_by_api_key. rewrite Hmemo.
  unfold get_customer_by_api_key_body.
  destruct (validate_api_key key); cbn [negb]; [|done].
  unfold cache_get. rewrite Hcache, Hrow.
  by destruct (row_to_customer (Some row)).
Qed.

(** C6, on the code: the free-tier ceiling is checked against the tier
    that the key lookup answers, and that is the stored tier only on a
    first lookup.  With nothing memoised or cached for the key, a stored
    free-tier row and more than two records, [track_gpu_usage] answers
    with an error (the ceiling message when the key is well formed and
    the row converts, [Invalid API key] otherwise) and the database is as
    before.  But once the memo holds a customer of another tier for the
    key, a batch of any size whose samples have their keys and fit the
    table is accepted although the stored tier is [free]: one usage row
    per sample is stored, and the stored row of the customer, still on
    the free tier, gets the batch size as GPU count. *)
Theorem track_gpu_usage_limit_follows_memo m now key gpu_data :
  (forall row,
     lru_find key (lru_get_customer_by_api_key m) = None ->
     cache m !! ("customer_api_" ++ key)%string = None ->
     select_by_api_key (db m) key = Some row ->
     row_tier row = "free" ->
     (2 < length gpu_data)%nat ->
     snd (track_gpu_usage m now key gpu_data)
       = TrackError
           match (if validate_api_key key then row_to_customer (Some row)
                  else None) with
           | Some _ => "Free tier limited to 2 GPUs. Upgrade to Professional."
           | None => "Invalid API key"
           end /\
     db (fst (track_gpu_usage m now key gpu_data)) = db m) /\
  (forall c row,
     lru_find key (lru_get_customer_by_api_key m) = Some (Some c) ->
     tier c <> "free" ->
     select_by_api_key (db m) key = Some row ->
     row_tier row = "free" ->
     row_email row = email c ->
     forallb complete gpu_data = true ->
     forallb storable gpu_data = true ->
     exists m' report rows row',
       track_gpu_usage m now key gpu_data = (m', TrackOk report) /\
       gpus_monitored report = length gpu_data /\
       length rows = length gpu_data /\
       gpu_usage_logs (db m') = gpu_usage_logs (db m) ++ rows /\
       select_by_api_key (db m') key = Some row' /\
       row_tier row' = "free" /\
       row_gpu_count row' = Z.of_nat (length gpu_data)).
Proof.
  split.
  - intros row Hmemo Hcache Hrow Htier Hlen.
    pose proof (get_customer_by_api_key_first m now key row Hmemo Hcache Hrow)
      as Hfirst.
    pose proof (get_customer_by_api_key_db m now key) as Hdb.
    unfold track_gpu_usage.
    destruct (get_customer_by_api_key m now key) as [m1 [c|]];
      cbn [fst snd] in *; rewrite <- Hfirst; [|done].
    assert (tier c = "free") as ->.
    { destruct (validate_api_key key); [|discriminate].
      symmetry in Hfirst. apply row_to_customer_tier in Hfirst. congruence. }
    change (String.eqb "free" "free") with true. cbn [andb].
    unfold free_gpu_limit.
    destruct (Nat.ltb_spec 2 (length gpu_data)); [done|lia].
  - intros c row Hmemo Htier Hrow Hfree Hemail Hcomplete Hstorable.
    unfold track_gpu_usage, get_customer_by_api_key. rewrite Hmemo.
    apply String.eqb_neq in Htier. rewrite Htier. cbn [andb].
    set (m1 := with_lru_get_customer_by_api_key m _).
    destruct (_batch_process_gpu_data_accepts m1 now c gpu_data Hcomplete Hstorable)
      as (m' & report & Hok).
    rewrite Hok.
    destruct (_batch_process_gpu_data_ok _ _ _ _ _ _ Hok)
      as (rows & Hrows & _ & _ & -> & ->).
    pose proof (Forall2_length _ _ _ Hrows) as Hlen.
    eexists _, _, rows, _. split; [reflexivity|].
    split; [done|]. split; [by symmetry|]. split; [done|].
    unfold select_by_api_key at 1.
    cbn [db cache_delete with_cache with_db customers].
    change (db m1) with (db m).
    rewrite select_by_api_key_credited, Hrow. cbn [option_map].
    split; [reflexivity|].
    unfold credited. rewrite Hemail, String.eqb_refl.
    by cbn [row_tier row_gpu_count].
Qed.

Lemma track_gpu_usage_limit_follows_memo_witness :
  option_map row_tier (select_by_api_key (db downgraded) dev_key) = Some "free" /\
  exists m' report rows,
    track_gpu_usage downgraded 3 dev_key [idle_sample; idle_sample; idle_sample]
      = (m', TrackOk report) /\
    gpus_monitored report = 3%nat /\
    length rows = 3%nat /\
    gpu_usage_logs (db m') = gpu_usage_logs (db downgraded) ++ rows.
Proof.
  split; [by vm_compute|].
  destruct (proj2 (track_gpu_usage_limit_follows_memo downgraded 3 dev_key
                     [idle_sample; idle_sample; idle_sample])
              (mkCustomer "dev@example.com" "professional" dev_key 1000 None 0
                 0%float None None)
              (mkCustomerRow 1 "dev@example.com" dev_key "free" 1000 (Some 2) 0
                 0%float None None))
    as (m' & report & rows & row' & Hok & Hcount & Hlen & Hlogs & _).
  - by vm_compute.
  - discriminate.
  - by vm_compute.
  - reflexivity.
  - reflexivity.
  - reflexivity.
  - reflexivity.
  - by exists m', report, rows.
Defined.

Lemma fold_add_savings_busy : forall gpu_data total,
  Forall (fun gpu => forall utilization,
            gpu_util gpu = Some utilization -> (utilization <? 15)%float = false)
    gpu_data ->
  fold_left add_savings gpu_data total = total.
Proof.
  induction gpu_data as [|gpu rest IH]; intros total Hbusy; [done|].
  inversion Hbusy as [|? ? Hgpu Hrest]; subst.
  cbn [fold_left]. unfold add_savings at 2.
  destruct (gpu_util gpu) as [utilization|]; [|by apply IH].
  rewrite (Hgpu utilization eq_refl). by apply IH.
Qed.

Lemma track_gpu_usage_report m now key gpu_data m' r :
  track_gpu_usage m now key gpu_data = (m', TrackOk r) ->
  r = mkUsageReport (length gpu_data) (fold_left add_savings gpu_data 0%float)
        (fold_left add_savings gpu_data 0 * 24 * 30)%float (report_tier r).
Proof.
  unfold track_gpu_usage.
  destruct (get_customer_by_api_key m now key) as [m1 [customer|]]; [|discriminate].
  destruct (_ && _); [discriminate|].
  intros Hok. by destruct (_batch_process_gpu_data_ok _ _ _ _ _ _ Hok)
    as (rows & _ & _ & _ & -> & _).
Qed.

(** C8: in the report of an accepted batch the hourly savings are the
    running total over the records, taken in order from 0, where a record
    with utilisation below 15 adds its own hourly cost times 0.5 (3.0
    times 0.5 when it names no cost) and any other record adds nothing,
    and the monthly projection is that total times 24 times 30.  So a
    batch without idle records reports 0; a single idle record of hourly
    cost [c] reports 0 + c * 0.5; and one record with utilisation 5 and
    cost 3.0 reports 1.5 and 1080.0. *)
Theorem track_gpu_usage_savings m now key gpu_data m' r :
  track_gpu_usage m now key gpu_data = (m', TrackOk r) ->
  potential_hourly_savings r = fold_left add_savings gpu_data 0%float /\
  monthly_projection r = (potential_hourly_savings r * 24 * 30)%float /\
  (forall before gpu utilization hourly_cost,
      gpu_util gpu = Some utilization ->
      cost_per_hour gpu = Some hourly_cost ->
      fold_left add_savings (before ++ [gpu]) 0%float =
        if (utilization <? 15)%float
        then (fold_left add_savings before 0 + hourly_cost * 0.5)%float
        else fold_left add_savings before 0%float) /\
  (Forall (fun gpu => forall utilization,
             gpu_util gpu = Some utilization -> (utilization <? 15)%float = false)
     gpu_data ->
   potential_hourly_savings r = 0%float) /\
  (forall gpu utilization hourly_cost,
     gpu_data = [gpu] -> gpu_util gpu = Some utilization ->
     (utilization <? 15)%float = true ->
     cost_per_hour gpu = Some hourly_cost ->
     potential_hourly_savings r = (0 + hourly_cost * 0.5)%float) /\
  (forall gpu, gpu_data = [gpu] -> gpu_util gpu = Some 5%float ->
     cost_per_hour gpu = Some 3.0%float ->
     potential_hourly_savings r = 1.5%float /\
     monthly_projection r = 1080.0%float).
Proof.
  intros Hok. apply track_gpu_usage_report in Hok.
  assert (potential_hourly_savings r = fold_left add_savings gpu_data 0%float)
    as Hphs by (by rewrite Hok).
  assert (monthly_projection r = (potential_hourly_savings r * 24 * 30)%float)
    as Hmonth by (by rewrite Hok).
  assert (forall gpu utilization hourly_cost,
            gpu_data = [gpu] -> gpu_util gpu = Some utilization ->
            (utilization <? 15)%float = true ->
            cost_per_hour gpu = Some hourly_cost ->
            potential_hourly_savings r = (0 + hourly_cost * 0.5)%float) as Hone.
  { intros gpu utilization hourly_cost -> Hutil Hidle Hcost.
    rewrite Hphs. cbn [fold_left]. unfold add_savings.
    by rewrite Hutil, Hidle, Hcost. }
  split; [exact Hphs|]. split; [exact Hmonth|]. split; [|split; [|split]].
  - intros before gpu utilization hourly_cost Hutil Hcost.
    rewrite fold_left_app. cbn [fold_left]. unfold add_savings at 1.
    by rewrite Hutil, Hcost.
  - intros Hbusy. rewrite Hphs. by apply fold_add_savings_busy.
  - exact Hone.
  - intros gpu Hgpu Hutil Hcost.
    assert (potential_hourly_savings r = 1.5%float) as H15.
    { rewrite (Hone gpu 5%float 3.0%float Hgpu Hutil eq_refl Hcost).
      reflexivity. }
    split; [exact H15|]. rewrite Hmonth, H15. reflexivity.
Qed.

Lemma track_gpu_usage_savings_witness :
  exists m' r,
    track_gpu_usage (restarted [dev_row] zeros) 2000 dev_key [costly_sample]
      = (m', TrackOk r) /\
    potential_hourly_savings r = 5%float /\
    monthly_projection r = 3600%float.
Proof.
  destruct (track_gpu_usage (restarted [dev_row] zeros) 2000 dev_key
              [costly_sample]) as [m' [msg|r]] eqn:Hok;
    [by vm_compute in Hok|].
  exists m', r. split; [reflexivity|].
  destruct (track_gpu_usage_savings _ _ _ _ _ _ Hok)
    as (_ & Hmonth & _ & _ & Hone & _).
  assert (potential_hourly_savings r = 5%float) as H5.
  { rewrite (Hone costly_sample 5%float 10%float eq_refl eq_refl eq_refl eq_refl).
    reflexivity. }
  split; [exact H5|]. rewrite Hmonth, H5. reflexivity.
Defined.

(** *** Payment status *)

(** C3 as stated fails on the code: a completed transaction is put back
    to [pending] by [update_payment_status] and to [failed] by
    [store_payment_transaction]; both calls return normally. *)
Lemma completed_payment_is_overwritten :
  payment_status paid "tx_1" = Some "completed" /\
  payment_status (update_payment_status paid 20 "tx_1" "pending" None) "tx_1"
    = Some "pending" /\
  payment_status
    (store_payment_transaction paid 20 "dev@example.com" "tx_1" "demo" 49%float
       "USD" "failed" None) "tx_1"
    = Some "failed".
Proof. vm_compute. repeat split. Qed.

Lemma status_in_update rows now payment_id status metadata other :
  status_in
    (List.map (fun r =>
       if String.eqb (pt_payment_id r) payment_id then
         mkPaymentRow (pt_customer_email r) (pt_payment_id r)
           (pt_payment_gateway r) (pt_amount r) (pt_currency r) status
           (pt_created_at r) now
           (if truthy metadata then metadata else pt_metadata r)
       else r) rows) other
  = if String.eqb other payment_id
    then option_map (fun _ => status) (status_in rows other)
    else status_in rows other.
Proof.
  unfold status_in.
  induction rows as [|r rows IH]; cbn [List.map List.find].
  - by destruct (String.eqb other payment_id).
  - destruct (String.eqb_spec (pt_payment_id r) payment_id) as [Hr|Hr];
      cbn [pt_payment_id].
    + destruct (String.eqb_spec (pt_payment_id r) other) as [Ho|Ho].
      * rewrite <- Ho, Hr, String.eqb_refl. reflexivity.
      * exact IH.
    + destruct (String.eqb_spec (pt_payment_id r) other) as [Ho|Ho].
      * rewrite <- Ho. apply String.eqb_neq in Hr. by rewrite Hr.
      * exact IH.
Qed.

Lemma status_in_kept rows payment_id other :
  status_in
    (List.filter (fun r => negb (String.eqb (pt_payment_id r) payment_id)) rows)
    other
  = if String.eqb other payment_id then None else status_in rows other.
Proof.
  unfold status_in.
  induction rows as [|r rows IH]; cbn [List.filter List.find].
  - by destruct (String.eqb other payment_id).
  - destruct (String.eqb_spec (pt_payment_id r) payment_id) as [Hr|Hr];
      cbn [negb List.find].
    + rewrite IH.
      destruct (String.eqb_spec other payment_id) as [Ho|Ho]; [done|].
      destruct (String.eqb_spec (pt_payment_id r) other) as [Hro|Hro]; [|done].
      congruence.
    + destruct (String.eqb_spec (pt_payment_id r) other) as [Hro|Hro].
      * rewrite <- Hro. apply String.eqb_neq in Hr. by rewrite Hr.
      * exact IH.
Qed.

Lemma status_in_app rows row other :
  status_in (rows ++ [row]) other =
    match status_in rows other with
    | Some s => Some s
    | None => if String.eqb (pt_payment_id row) other
              then Some (pt_status row) else None
    end.
Proof.
  unfold status_in.
  induction rows as [|r rows IH]; cbn [app List.find].
  - by destruct (String.eqb (pt_payment_id row) other).
  - by destruct (String.eqb (pt_payment_id r) other).
Qed.

(** C3, amended: both status writers overwrite unconditionally.
    [update_payment_status] sets the status of the row with the given
    payment id to the given value whatever it was (and does nothing when
    there is no such row); [store_payment_transaction] leaves exactly one
    row for the payment id, with the given status; neither touches the
    status of another payment id. *)
Theorem payment_status_is_overwritten m now payment_id status metadata :
  (forall old, payment_status m payment_id = Some old ->
     payment_status (update_payment_status m now payment_id status metadata)
       payment_id = Some status) /\
  (payment_status m payment_id = None ->
     payment_status (update_payment_status m now payment_id status metadata)
       payment_id = None) /\
  (forall other, other <> payment_id ->
     payment_status (update_payment_status m now payment_id status metadata) other
       = payment_status m other) /\
  (forall e g a c,
     payment_status
       (store_payment_transaction m now e payment_id g a c status metadata)
       payment_id = Some status) /\
  (forall e g a c other, other <> payment_id ->
     payment_status
       (store_payment_transaction m now e payment_id g a c status metadata) other
       = payment_status m other).
Proof.
  assert (forall other,
    payment_status (update_payment_status m now payment_id status metadata) other
    = if String.eqb other payment_id
      then option_map (fun _ => status) (payment_status m other)
      else payment_status m other) as Hupd.
  { intros other. unfold payment_status, update_payment_status.
    cbn [db with_db payment_transactions]. apply status_in_update. }
  assert (forall e g a c other,
    payment_status
      (store_payment_transaction m now e payment_id g a c status metadata) other
    = if String.eqb other payment_id then Some status
      else payment_status m other) as Hstore.
  { intros e g a c other. unfold payment_status, store_payment_transaction.
    cbn [db with_db payment_transactions].
    fold (status_in
            (List.filter (fun r => negb (String.eqb (pt_payment_id r) payment_id))
               (payment_transactions (db m)) ++
             [mkPaymentRow e payment_id g a c status now now metadata]) other).
    rewrite status_in_app, status_in_kept. cbn [pt_payment_id pt_status].
    destruct (String.eqb_spec other payment_id) as [->|Hne].
    - by rewrite String.eqb_refl.
    - fold (status_in (payment_transactions (db m)) other).
      destruct (status_in (payment_transactions (db m)) other); [done|].
      destruct (String.eqb_spec payment_id other); congruence. }
  repeat split.
  - intros old Hold. rewrite Hupd, String.eqb_refl, Hold. reflexivity.
  - intros Hnone. rewrite Hupd, String.eqb_refl, Hnone. reflexivity.
  - intros other Hne. rewrite Hupd. apply String.eqb_neq in Hne. by rewrite Hne.
  - intros e g a c. by rewrite Hstore, String.eqb_refl.
  - intros e g a c other Hne. rewrite Hstore.
    apply String.eqb_neq in Hne. by rewrite Hne.
Qed.

Lemma payment_status_is_overwritten_witness :
  payment_status (update_payment_status paid 20 "tx_1" "failed" None) "tx_1"
    = Some "failed".
Proof.
  apply (proj1 (payment_status_is_overwritten paid 20 "tx_1" "failed" None)
           "completed").
  vm_compute. reflexivity.
Defined.

End RevenueFacts.

(** ** The payment orchestrator *)

Module PaymentsFacts.
Import PyStr Payments Scenario.

Lemma unconfigured_gateways cfg :
  unconfigured cfg = true ->
  _is_gateway_configured cfg "nowpayments" = false /\
  _is_gateway_configured cfg "flutterwave" = false /\
  _is_gateway_configured cfg "paddle" = false.
Proof.
  unfold unconfigured. intros H.
  apply andb_prop in H as [H Hp]. apply andb_prop in H as [Hn Hf].
  apply negb_true_iff in Hn, Hf, Hp. auto.
Qed.

(** C2, on the code: with no gateway configured the selection answers
    [demo] for every country code, but [create_payment] then refuses the
    gateway it has just selected, because [demo] is not an entry of
    [primary_gateways]: the result has [success = false] and status
    [failed], and [_create_demo_payment] is never reached. *)
Theorem demo_gateway_is_refused
    (adapter : float -> string -> string -> string -> PaymentResult)
    (hex12 : string) (cfg : Credentials) (amount : float)
    (currency plan customer_email : string) (country_code : option string) :
  unconfigured cfg = true ->
  _select_best_gateway cfg country_code = "demo" /\
  create_payment adapter hex12 cfg amount currency plan customer_email None
    country_code
    = mkPaymentResult false None amount currency "demo" "failed"
        "Gateway demo is not configured" None.
Proof.
  intros Hcfg. apply unconfigured_gateways in Hcfg as (Hn & Hf & Hp).
  assert (global_fallback cfg = "demo") as Hglobal.
  { unfold global_fallback. by rewrite Hn, Hf, Hp. }
  assert (_select_best_gateway cfg country_code = "demo") as Hselect.
  { unfold _select_best_gateway. rewrite Hf, Hp, Hglobal.
    by repeat match goal with |- context [if ?c then _ else _] => destruct c end. }
  split; [exact Hselect|].
  unfold create_payment. cbn [truthy]. rewrite Hselect. reflexivity.
Qed.

Lemma demo_gateway_is_refused_witness :
  _select_best_gateway no_credentials (Some "NG") = "demo" /\
  create_payment (fun _ _ _ _ => mkPaymentResult true None 0 "" "" "" "" None)
    "0123456789ab" no_credentials 49%float "USD" "professional"
    "test@example.com" None (Some "NG")
    = mkPaymentResult false None 49%float "USD" "demo" "failed"
        "Gateway demo is not configured" None.
Proof.
  apply demo_gateway_is_refused. reflexivity.
Defined.

End PaymentsFacts.

(** ** Signup *)

Module SignupFacts.
Import PyStr Re Security Revenue Scenario ReFacts SecurityFacts.

Lemma create_customer_refuses m now e0 :
  validate_email_chars (sanitize_chars (chars e0)) = false ->
  create_customer m now e0 = (m, Raise (ValueError "Invalid email format")).
Proof.
  intros H. unfold create_customer, validate_email.
  by rewrite sanitize_input_chars, H.
Qed.

(** C9 as stated fails on the code: an input with a quote character, an
    input of more than 255 characters and an input with a control
    character are each accepted, and the customer is stored under the
    rewritten e-mail. *)
Lemma create_customer_rewrites_email :
  let quoted := create_customer (started zeros) 1000 "dev';@example.com" in
  let padded := create_customer (started zeros) 1000 padded_email in
  let control := create_customer (started zeros) 1000 newline_email in
  existsb dangerous (chars "dev';@example.com") = true /\
  (255 < String.length padded_email)%nat /\
  snd quoted = Return (Some dev_customer) /\
  snd padded = Return (Some dev_customer) /\
  snd control = Return (Some dev_customer) /\
  email_taken (db (fst quoted)) "dev@example.com" = true.
Proof. vm_compute. repeat split; lia. Qed.

(** C9, amended: [create_customer] validates the input as rewritten by
    [sanitize_input] (the six dangerous characters deleted, surrounding
    white space stripped, at most 1000 characters kept), so two inputs
    with the same rewriting are treated alike.  The call is refused with
    a validation error, and the manager is left exactly as it was, when
    the rewritten e-mail has more than 255 characters, holds a character
    outside the e-mail alphabet (any control character among them), has
    two dots in a row or starts or ends with a dot; and also whenever the
    input itself has two dots in a row or starts or ends with a dot. *)
Theorem create_customer_validates_rewritten m now e0 :
  let rewritten := chars (sanitize_input e0) in
  ((255 < length rewritten)%nat \/
   existsb (fun c => negb (email_char c)) rewritten = true \/
   has_consecutive_dots rewritten = true \/
   starts_with_dot rewritten = true \/
   ends_with_dot rewritten = true \/
   has_consecutive_dots (chars e0) = true \/
   starts_with_dot (chars e0) = true \/
   ends_with_dot (chars e0) = true ->
   create_customer m now e0 = (m, Raise (ValueError "Invalid email format"))) /\
  (forall e1, sanitize_input e1 = sanitize_input e0 ->
     create_customer m now e1 = create_customer m now e0).
Proof.
  intros rewritten. split.
  - intros H. apply create_customer_refuses.
    unfold rewritten in H. rewrite sanitize_input_chars in H.
    destruct H as [H|[H|[H|[H|[H|[H|[H|H]]]]]]].
    + by apply validate_refuses_long.
    + destruct (validate_email_chars (sanitize_chars (chars e0))) eqn:Hv; [|done].
      apply sanitize_accepted_alphabet in Hv.
      apply existsb_exists in H as (c & Hin & Hc).
      rewrite Forall_forall in Hv. apply list_elem_of_In, Hv in Hin.
      by rewrite Hin in Hc.
    + by apply validate_refuses_dots.
    + by apply validate_refuses_leading.
    + by apply validate_refuses_trailing.
    + by apply sanitize_keeps_dots.
    + by apply sanitize_keeps_leading_dot.
    + by apply sanitize_keeps_trailing_dot.
  - intros e1 Heq. unfold create_customer. by rewrite Heq.
Qed.

Lemma create_customer_validates_rewritten_witness :
  create_customer (started zeros) 1000 "test..test@example.com"
    = (started zeros, Raise (ValueError "Invalid email format")).
Proof.
  apply (proj1 (create_customer_validates_rewritten (started zeros) 1000
                  "test..test@example.com")).
  do 5 right. left. vm_compute. reflexivity.
Defined.

End SignupFacts.

(** ** More on the rate limiter *)

Module RateLimitMore.
Import RateLimit RateRun RateLimitFacts.

Lemma prune_prune now last window stamps :
  last <= now ->
  prune now window (prune last window stamps) = prune now window stamps.
Proof.
  intros Hle. unfold prune. induction stamps as [|t stamps IH]; [done|].
  cbn [List.filter].
  destruct (Z.ltb_spec (last - t) window) as [Hl|Hl]; cbn [List.filter].
  - by rewrite IH.
  - destruct (Z.ltb_spec (now - t) window); [lia|]. exact IH.
Qed.

Lemma prune_snoc now window stamps :
  0 < window ->
  prune now window (stamps ++ [now]) = prune now window stamps ++ [now].
Proof.
  intros Hw. unfold prune. rewrite List.filter_app. cbn [List.filter].
  by destruct (Z.ltb_spec (now - now) window); [|lia].
Qed.

Lemma prune_length now window stamps :
  (length (prune now window stamps) <= length stamps)%nat.
Proof. apply List.filter_length_le. Qed.

(** The stamps left by a run, when the clock does not run backwards, are
    the allowed readings that are still inside the window. *)
Lemma steps_window window limit : forall clock stamps allowed last,
  0 < window ->
  nondecreasing last clock ->
  stamps = prune last window allowed ->
  Z.of_nat (length stamps) <= Z.max 0 limit ->
  let kept := prune (final_reading last clock) window
                (allowed ++ allowed_of clock (steps limit window stamps clock)) in
  Z.of_nat (length kept) <= Z.max 0 limit.
Proof.
  induction clock as [|now clock IH]; intros stamps allowed last Hw Hsorted Hst Hlen.
  - cbn [allowed_of steps final_reading]. rewrite app_nil_r. by rewrite <- Hst.
  - destruct Hsorted as [Hle Hsorted].
    cbn [steps final_reading]. unfold step.
    assert (prune now window stamps = prune now window allowed) as Hpruned
      by (rewrite Hst; by apply prune_prune).
    pose proof (prune_length now window stamps) as Hshort.
    destruct (Z.leb_spec limit (Z.of_nat (length (prune now window stamps))))
      as [Hfull|Hroom]; cbn [allowed_of].
    + cbn [app].
      apply (IH (prune now window stamps) allowed now); try done. lia.
    + rewrite app_assoc.
      apply (IH (prune now window stamps ++ [now]) (allowed ++ [now]) now);
        try done.
      * by rewrite prune_snoc, Hpruned.
      * rewrite length_app. cbn [length]. lia.
Qed.

(** X1: a true sliding window.  Starting from an identifier without
    stored timestamps and with a clock that does not run backwards, among
    the calls allowed so far at most [limit] lie within one window of the
    latest call. *)
Theorem check_rate_limit_window_bound (rl : limits) identifier limit window
    first clock :
  stamps_of rl identifier = [] ->
  0 < window ->
  nondecreasing first clock ->
  let verdicts := snd (run_checks rl identifier limit window (first :: clock)) in
  let allowed := allowed_of (first :: clock) verdicts in
  Z.of_nat (length (prune (final_reading first clock) window allowed))
    <= Z.max 0 limit.
Proof.
  intros Hfresh Hw Hsorted verdicts allowed.
  unfold allowed, verdicts. rewrite run_checks_steps, Hfresh.
  apply (steps_window window limit (first :: clock) [] [] first).
  - exact Hw.
  - split; [lia|exact Hsorted].
  - reflexivity.
  - cbn [length]. lia.
Qed.

Lemma check_rate_limit_window_bound_witness :
  let verdicts := snd (run_checks ∅ "agent-1" 2 60 [0; 30; 59; 60; 61; 90]) in
  verdicts = [true; true; false; true; false; true] /\
  Z.of_nat (length (prune 90 60 (allowed_of [0; 30; 59; 60; 61; 90] verdicts)))
    <= Z.max 0 2.
Proof.
  split; [reflexivity|].
  apply (check_rate_limit_window_bound ∅ "agent-1" 2 60 0 [30; 59; 60; 61; 90]).
  - reflexivity.
  - lia.
  - cbn [nondecreasing]. lia.
Defined.

(** X2: after a call with a positive window every timestamp stored for
    the identifier is younger than the window, and the list has grown by
    at most the one new reading and never beyond [limit] when it was
    within [limit] before. *)
Theorem check_rate_limit_keeps_fresh (rl : limits) now identifier limit window :
  0 < window ->
  let after := stamps_of (fst (check_rate_limit rl now identifier limit window))
                 identifier in
  Forall (fun t => now - t < window) after /\
  (Z.of_nat (length (stamps_of rl identifier)) <= limit ->
   Z.of_nat (length after) <= limit).
Proof.
  intros Hw after.
  destruct (check_rate_limit_step rl now identifier limit window) as [Hs _].
  unfold after. rewrite Hs. unfold step.
  pose proof (prune_length now window (stamps_of rl identifier)) as Hshort.
  assert (Forall (fun t => now - t < window)
            (prune now window (stamps_of rl identifier))) as Hfresh.
  { apply List.Forall_forall. intros t Ht. by apply prune_In in Ht as [_ Ht]. }
  destruct (Z.leb_spec limit
              (Z.of_nat (length (prune now window (stamps_of rl identifier)))));
    cbn [fst].
  - split; [exact Hfresh|lia].
  - split.
    + apply Forall_app. split; [exact Hfresh|]. constructor; [lia|constructor].
    + intros _. rewrite length_app. cbn [length]. lia.
Qed.

Lemma check_rate_limit_keeps_fresh_witness :
  Forall (fun t => 100 - t < 60)
    (stamps_of (fst (check_rate_limit {["agent-1" := [10; 50; 70]]} 100
                       "agent-1" 5 60)) "agent-1").
Proof.
  apply (proj1 (check_rate_limit_keeps_fresh {["agent-1" := [10; 50; 70]]} 100
                  "agent-1" 5 60 ltac:(lia))).
Defined.

End RateLimitMore.

(** ** The cache and the memoised lookups *)

Module CacheFacts.
Import PyStr Security Revenue CacheOps Scenario RevenueFacts.

(** X3: a value stored with [set] is returned by [get], leaving the
    cache as it is, up to and including the expiry time; after it, [get]
    answers [None] and drops the entry.  A [ttl] of zero counts as no
    [ttl]: the entry lives for the default 300. *)
Theorem cache_set_then_get m now key value ttl now' :
  let stored := performance_cache_set m now key value ttl in
  (now' <= now + effective_ttl ttl ->
     cache_get stored now' key = (stored, Some value)) /\
  (now + effective_ttl ttl < now' ->
     snd (cache_get stored now' key) = None /\
     cache (fst (cache_get stored now' key)) !! key = None /\
     ttl_cache (fst (cache_get stored now' key)) !! key = None) /\
  effective_ttl (Some 0) = 300.
Proof.
  intros stored.
  assert (cache stored !! key = Some value) as Hc
    by (unfold stored, performance_cache_set, cache_set, with_cache;
        cbn [cache]; apply lookup_insert_eq).
  assert (ttl_cache stored !! key = Some (now + effective_ttl ttl)) as Ht
    by (unfold stored, performance_cache_set, cache_set, with_cache;
        cbn [ttl_cache]; apply lookup_insert_eq).
  split; [|split; [|reflexivity]].
  - intros Hlive. unfold cache_get. rewrite Hc, Ht.
    by destruct (Z.ltb_spec (now + effective_ttl ttl) now'); [lia|].
  - intros Hdead. unfold cache_get. rewrite Hc, Ht.
    destruct (Z.ltb_spec (now + effective_ttl ttl) now'); [|lia].
    unfold with_cache. cbn [fst snd cache ttl_cache].
    by rewrite !lookup_delete_eq.
Qed.

Lemma cache_set_then_get_witness :
  cache_get (performance_cache_set (started zeros) 1000 "k" dev_customer (Some 0))
    1300 "k"
  = (performance_cache_set (started zeros) 1000 "k" dev_customer (Some 0),
     Some dev_customer).
Proof.
  apply (proj1 (cache_set_then_get (started zeros) 1000 "k" dev_customer
                  (Some 0) 1300)).
  vm_compute. discriminate.
Defined.

(** X4: after [delete] a key is a miss at any time, other keys are
    looked up as before, and after [clear] every key is a miss. *)
Theorem cache_delete_then_get m now key :
  snd (cache_get (cache_delete m key) now key) = None /\
  (forall other, other <> key ->
     snd (cache_get (cache_delete m key) now other) = snd (cache_get m now other)) /\
  (forall any, snd (cache_get (cache_clear m) now any) = None).
Proof.
  split; [|split].
  - unfold cache_get, cache_delete, with_cache. cbn [cache].
    by rewrite lookup_delete_eq.
  - intros other Hne. unfold cache_get, cache_delete, with_cache.
    cbn [cache ttl_cache]. rewrite !lookup_delete_ne by done.
    destruct (cache m !! other); [|done].
    destruct (ttl_cache m !! other) as [expiry|]; [|done].
    by destruct (expiry <? now).
  - intros any. unfold cache_get, cache_clear, with_cache. cbn [cache].
    by rewrite lookup_empty.
Qed.

Lemma cache_delete_then_get_witness :
  snd (cache_get
         (cache_delete (cache_set (started zeros) 0 "b" dev_customer 600) "a")
         5 "b")
  = snd (cache_get (cache_set (started zeros) 0 "b" dev_customer 600) 5 "b").
Proof.
  apply (proj1 (proj2 (cache_delete_then_get
                         (cache_set (started zeros) 0 "b" dev_customer 600)
                         5 "a")) "b").
  discriminate.
Defined.

Lemma lru_find_store key v l : lru_find key (lru_store key v l) = Some v.
Proof. unfold lru_store, maxsize. cbn [firstn]. apply lru_find_head. Qed.

Lemma lru_find_hit key v l : lru_find key (lru_hit key v l) = Some v.
Proof. apply lru_find_head. Qed.

Lemma get_customer_memo m now e :
  lru_find e (lru_get_customer (fst (get_customer m now e)))
    = Some (snd (get_customer m now e)).
Proof.
  unfold get_customer.
  destruct (lru_find e (lru_get_customer m)) as [r|]; cbn [fst snd].
  - apply lru_find_hit.
  - destruct (get_customer_body m now e) as [m1 r]. cbn [fst snd].
    apply lru_find_store.
Qed.

Lemma get_customer_by_api_key_memo m now k :
  lru_find k (lru_get_customer_by_api_key (fst (get_customer_by_api_key m now k)))
    = Some (snd (get_customer_by_api_key m now k)).
Proof.
  unfold get_customer_by_api_key.
  destruct (lru_find k (lru_get_customer_by_api_key m)) as [r|]; cbn [fst snd].
  - apply lru_find_hit.
  - destruct (get_customer_by_api_key_body m now k) as [m1 r]. cbn [fst snd].
    apply lru_find_store.
Qed.

Lemma lru_remove_length key l : (length (lru_remove key l) <= length l)%nat.
Proof. apply List.filter_length_le. Qed.

Lemma lru_remove_found key l v :
  lru_find key l = Some v -> (length (lru_remove key l) < length l)%nat.
Proof.
  induction l as [|[k w] l IH]; [done|].
  cbn [lru_find lru_remove List.filter fst].
  destruct (String.eqb k key); cbn [negb length].
  - intros _. pose proof (lru_remove_length key l). unfold lru_remove in *. lia.
  - intros H. apply IH in H. unfold lru_remove in *. lia.
Qed.

(** X6: neither memo ever holds more than 1000 entries. *)
Theorem lookup_memos_are_bounded m now argument :
  ((length (lru_get_customer m) <= maxsize)%nat ->
   (length (lru_get_customer (fst (get_customer m now argument))) <= maxsize)%nat) /\
  ((length (lru_get_customer_by_api_key m) <= maxsize)%nat ->
   (length (lru_get_customer_by_api_key
              (fst (get_customer_by_api_key m now argument))) <= maxsize)%nat).
Proof.
  split; intros Hlen.
  - unfold get_customer.
    destruct (lru_find argument (lru_get_customer m)) as [r|] eqn:Hfind.
    + cbn [fst lru_get_customer with_lru_get_customer]. unfold lru_hit.
      apply lru_remove_found in Hfind. cbn [length]. lia.
    + destruct (get_customer_body m now argument) as [m1 r].
      cbn [fst lru_get_customer with_lru_get_customer]. unfold lru_store.
      rewrite length_firstn. lia.
  - unfold get_customer_by_api_key.
    destruct (lru_find argument (lru_get_customer_by_api_key m)) as [r|] eqn:Hfind.
    + cbn [fst lru_get_customer_by_api_key with_lru_get_customer_by_api_key].
      unfold lru_hit. apply lru_remove_found in Hfind. cbn [length]. lia.
    + destruct (get_customer_by_api_key_body m now argument) as [m1 r].
      cbn [fst lru_get_customer_by_api_key with_lru_get_customer_by_api_key].
      unfold lru_store. rewrite length_firstn. lia.
Qed.

Lemma lookup_memos_are_bounded_witness :
  (length (lru_get_customer
             (fst (get_customer (restarted [dev_row] zeros) 2000 "dev@example.com")))
   <= maxsize)%nat.
Proof.
  apply (proj1 (lookup_memos_are_bounded (restarted [dev_row] zeros) 2000
                  "dev@example.com")).
  vm_compute. lia.
Defined.

End CacheFacts.

(** ** More on the regular-expression engine *)

Module ReMore.
Import PyStr Re ReFacts.

Lemma accepts_nullable_left l : forall a b,
  nullable a = true -> accepts b l = true -> accepts (Seq a b) l = true.
Proof.
  destruct l as [|c l]; intros a b Hn Hb; cbn [accepts deriv nullable].
  - by rewrite Hn.
  - rewrite Hn, accepts_Alt. cbn [accepts] in Hb. rewrite Hb. apply orb_true_r.
Qed.

(** The converse of [accepts_Seq]. *)
Lemma accepts_app l1 : forall a b l2,
  accepts a l1 = true -> accepts b l2 = true -> accepts (Seq a b) (l1 ++ l2) = true.
Proof.
  induction l1 as [|c l1 IH]; intros a b l2 Ha Hb.
  - by apply accepts_nullable_left.
  - cbn [app accepts deriv]. cbn [accepts] in Ha.
    destruct (nullable a).
    + rewrite accepts_Alt, IH by done. reflexivity.
    + by apply IH.
Qed.

Lemma accepts_Eps l : accepts Eps l = true -> l = [].
Proof.
  destruct l as [|c l]; [done|]. cbn [accepts deriv]. by rewrite dead_rejects.
Qed.

(** A literal accepts itself and nothing else. *)
Lemma accepts_Lit w : forall l, accepts (Lit w) l = true <-> l = w.
Proof.
  induction w as [|c w IH]; intros l; cbn [Lit].
  - split; [apply accepts_Eps|by intros ->].
  - split.
    + intros (l1 & l2 & -> & H1 & H2)%accepts_Seq.
      apply accepts_Cls in H1 as (c' & -> & Hc).
      apply Ascii.eqb_eq in Hc. subst c'. apply IH in H2. by subst l2.
    + intros ->. apply (accepts_app [c]).
      * cbn [accepts deriv]. by rewrite Ascii.eqb_refl.
      * by apply IH.
Qed.

(** [p{n}] accepts the strings of [n] characters of the class. *)
Lemma accepts_Rep p n : forall l,
  accepts (Rep n (Cls p)) l = true <-> length l = n /\ forallb p l = true.
Proof.
  induction n as [|n IH]; intros l; cbn [Rep].
  - split.
    + by intros ->%accepts_Eps.
    + intros [Hl _]. by destruct l.
  - split.
    + intros (l1 & l2 & -> & H1 & H2)%accepts_Seq.
      apply accepts_Cls in H1 as (c & -> & Hc).
      apply IH in H2 as [Hlen Hall]. cbn [app length forallb].
      by rewrite Hlen, Hc, Hall.
    + intros [Hlen Hall]. destruct l as [|c l]; [done|].
      cbn [length forallb] in *. apply andb_prop in Hall as [Hc Hall].
      apply (accepts_app [c]).
      * cbn [accepts deriv]. by rewrite Hc.
      * apply IH. split; [lia|done].
Qed.

End ReMore.

(** ** More on validation and sanitising *)

Module SecurityMore.
Import PyStr Re Security Access ReFacts ReMore SecurityFacts.

Lemma lstrip_head l :
  match lstrip l with
  | c :: _ => isspace c = false
  | [] => True
  end.
Proof.
  induction l as [|a l IH]; [done|]. cbn [lstrip].
  destruct (isspace a) eqn:Ha; [exact IH|exact Ha].
Qed.

Lemma lstrip_suffix l : exists spaces, l = spaces ++ lstrip l.
Proof.
  induction l as [|a l [spaces IH]]; [by exists []|]. cbn [lstrip].
  destruct (isspace a).
  - exists (a :: spaces). cbn [app]. by rewrite <- IH.
  - by exists [].
Qed.

Lemma rstrip_prefix l : exists spaces, l = rstrip l ++ spaces.
Proof.
  unfold rstrip. destruct (lstrip_suffix (rev l)) as [spaces Hs].
  exists (rev spaces).
  rewrite <- (rev_involutive l) at 1. rewrite Hs at 1.
  by rewrite rev_app_distr.
Qed.

Lemma strip_head l :
  match strip l with
  | c :: _ => isspace c = false
  | [] => True
  end.
Proof.
  unfold strip. destruct (rstrip_prefix (lstrip l)) as [spaces Hs].
  pose proof (lstrip_head l) as Hhead.
  destruct (rstrip (lstrip l)) as [|c rest]; [done|].
  by rewrite Hs in Hhead.
Qed.

(** X7: whatever the input, the sanitised text holds none of the six
    dangerous characters, has at most 1000 characters and does not start
    with white space; unless it was cut at 1000 characters it does not
    end with white space either. *)
Theorem sanitize_input_is_clean data :
  let clean := chars (sanitize_input data) in
  existsb dangerous clean = false /\
  (length clean <= 1000)%nat /\
  match clean with
  | c :: _ => isspace c = false
  | [] => True
  end /\
  ((length clean < 1000)%nat ->
   forall before c, clean = before ++ [c] -> isspace c = false).
Proof.
  intros clean. unfold clean. rewrite sanitize_input_chars.
  unfold sanitize_chars.
  set (kept := List.filter (fun c => negb (dangerous c)) (chars data)).
  assert (Forall (fun c => dangerous c = false) kept) as Hkept.
  { apply List.Forall_forall. intros c [_ Hc]%filter_In.
    by apply negb_true_iff in Hc. }
  assert (Forall (fun c => dangerous c = false) (strip kept)) as Hstrip.
  { unfold strip.
    destruct (rstrip_prefix (lstrip kept)) as [s1 H1].
    destruct (lstrip_suffix kept) as [s2 H2].
    rewrite H2, H1 in Hkept.
    apply Forall_app in Hkept as [_ Hkept].
    by apply Forall_app in Hkept as [Hkept _]. }
  split; [|split; [|split]].
  - apply not_true_iff_false. intros (c & Hin & Hc)%existsb_exists.
    apply (Forall_take _ 1000) in Hstrip.
    rewrite List.Forall_forall in Hstrip. apply Hstrip in Hin. congruence.
  - rewrite length_firstn. lia.
  - pose proof (strip_head kept) as Hhead.
    destruct (strip kept) as [|c rest]; [done|]. exact Hhead.
  - intros Hshort before c Heq.
    destruct (Nat.le_gt_cases (length (strip kept)) 1000) as [Hle|Hgt].
    + rewrite firstn_all2 in Heq by done. by apply strip_last in Heq.
    + rewrite length_firstn in Hshort. lia.
Qed.

Lemma sanitize_input_is_clean_witness :
  (length (chars (sanitize_input "  <b>dev@example.com</b> ")) < 1000)%nat /\
  isspace "b"%char = false.
Proof.
  assert (length (chars (sanitize_input "  <b>dev@example.com</b> ")) < 1000)%nat
    as Hshort by (vm_compute; lia).
  split; [exact Hshort|].
  apply (proj2 (proj2 (proj2 (sanitize_input_is_clean
                                "  <b>dev@example.com</b> ")))
           Hshort (chars "bdev@example.com/") "b"%char).
  by vm_compute.
Defined.

(** X8: [validate_api_key] accepts exactly the keys made of [gopt_] and
    23 letters or digits, and the same keys followed by one line feed. *)
Theorem validate_api_key_accepts key :
  validate_api_key key = true <->
  exists suffix,
    length suffix = 23%nat /\ forallb alnum suffix = true /\
    (chars key = chars "gopt_" ++ suffix \/
     chars key = (chars "gopt_" ++ suffix) ++ [newline]).
Proof.
  assert (forall l, accepts api_key_pattern l = true <->
            exists suffix, length suffix = 23%nat /\ forallb alnum suffix = true /\
                           l = chars "gopt_" ++ suffix) as Hpattern.
  { intros l. unfold api_key_pattern. split.
    - intros (l1 & l2 & -> & H1 & H2)%accepts_Seq.
      apply accepts_Lit in H1. apply accepts_Rep in H2 as [Hlen Hall].
      exists l2. by subst l1.
    - intros (suffix & Hlen & Hall & ->).
      apply accepts_app; [by apply accepts_Lit|by apply accepts_Rep]. }
  assert (validate_api_key key = match_anchored api_key_pattern (chars key)) as ->
    by (unfold validate_api_key; by destruct (chars key)).
  unfold match_anchored.
  split.
  - intros [H|H]%orb_prop.
    + apply Hpattern in H as (suffix & Hlen & Hall & ->). exists suffix. auto.
    + destruct (rev (chars key)) as [|c before] eqn:Hrev; [done|].
      apply andb_prop in H as [Hc H].
      apply is_char_eq in Hc. subst c.
      apply Hpattern in H as (suffix & Hlen & Hall & Hb). exists suffix.
      split; [done|]. split; [done|]. right.
      rewrite <- Hb, <- (rev_involutive (chars key)), Hrev. reflexivity.
  - intros (suffix & Hlen & Hall & [Hk|Hk]); rewrite Hk.
    + assert (accepts api_key_pattern (chars "gopt_" ++ suffix) = true) as ->
        by (apply Hpattern; by exists suffix).
      reflexivity.
    + assert (accepts api_key_pattern (chars "gopt_" ++ suffix) = true) as Hacc
        by (apply Hpattern; by exists suffix).
      rewrite rev_app_distr. cbn [rev app]. rewrite rev_involutive, Hacc.
      change (is_char 10 newline) with true. cbn [andb]. by rewrite orb_true_r.
Qed.

Lemma validate_api_key_accepts_witness :
  validate_api_key (str (chars "gopt_" ++ repeat "7"%char 23 ++ [newline])) = true.
Proof.
  apply validate_api_key_accepts. exists (repeat "7"%char 23).
  split; [reflexivity|]. split; [reflexivity|]. right. reflexivity.
Defined.

(** X9: an address accepted by [validate_email] is not empty, has at
    most 255 characters, holds an at sign, holds none of the dangerous
    characters, has no two dots in a row and neither starts nor ends with
    a dot. *)
Theorem validate_email_accepts_only address :
  validate_email address = true ->
  let l := chars address in
  l <> [] /\ (length l <= 255)%nat /\ contains_char 64 l = true /\
  existsb dangerous l = false /\ has_consecutive_dots l = false /\
  starts_with_dot l = false /\ ends_with_dot l = false.
Proof.
  unfold validate_email. intros Hvalid. cbv zeta.
  set (l := chars address) in *.
  pose proof (validate_accepts_at l Hvalid) as Hat.
  split; [by destruct l|].
  split.
  { destruct (Nat.le_gt_cases (length l) 255) as [|Hlong]; [done|].
    apply validate_refuses_long in Hlong. congruence. }
  split; [exact Hat|].
  unfold validate_email_chars in Hvalid.
  destruct l as [|a l']; [done|].
  destruct (255 <? _)%nat; [done|].
  destruct (negb _); [done|].
  apply negb_true_iff in Hvalid.
  cbn [existsb suspicious_patterns] in Hvalid.
  apply orb_false_elim in Hvalid as [Hd Hvalid].
  apply orb_false_elim in Hvalid as [Hdots Hvalid].
  apply orb_false_elim in Hvalid as [Hends _].
  apply orb_false_elim in Hends as [Hstart Hend].
  auto.
Qed.

Lemma validate_email_accepts_only_witness :
  contains_char 64 (chars "dev@example.com") = true.
Proof.
  apply (validate_email_accepts_only "dev@example.com").
  vm_compute. reflexivity.
Defined.

(** X10: the view behind [require_api_key] only ever runs with a key
    that [validate_api_key] accepts.  A [Bearer] header decides alone:
    the key of the request body is used only when there is no such
    header, so a bad bearer token is refused even beside a good key in
    the body. *)
Theorem require_api_key_guard authorization json_api_key :
  (forall key, require_api_key authorization json_api_key = Some key ->
     validate_api_key key = true) /\
  (forall token,
     authorization = Some ("Bearer " ++ token)%string ->
     require_api_key authorization json_api_key =
       if validate_api_key token then Some token else None) /\
  (authorization = None ->
   require_api_key authorization json_api_key =
     match json_api_key with
     | Some key => if validate_api_key key then Some key else None
     | None => None
     end).
Proof.
  assert (forall key, (if negb (truthy (Some key)) || negb (validate_api_key key)
                       then None else Some key)
                      = if validate_api_key key then Some key else None) as Hcheck.
  { intros key. destruct key as [|a key]; [reflexivity|].
    cbn [truthy String.eqb negb orb].
    by destruct (validate_api_key (String a key)). }
  split; [|split].
  - intros key. unfold require_api_key.
    destruct (match authorization with Some _ => _ | None => _ end) as [k|];
      [|done].
    rewrite Hcheck. destruct (validate_api_key k) eqn:Hk; [|done].
    by intros [= <-].
  - intros token ->. unfold require_api_key.
    change (truthy (Some ("Bearer " ++ token)%string)) with true.
    assert (startswith (chars "Bearer ") (chars ("Bearer " ++ token)) = true) as ->
      by reflexivity.
    cbn [andb].
    assert (after_bearer ("Bearer " ++ token) = token) as ->.
    { unfold after_bearer, str, chars. cbn [append list_ascii_of_string skipn].
      apply string_of_list_ascii_of_string. }
    apply Hcheck.
  - intros ->. unfold require_api_key.
    destruct json_api_key as [key|]; [apply Hcheck|done].
Qed.

Lemma require_api_key_guard_witness :
  require_api_key (Some "Bearer not-a-key") (Some "gopt_AAAAAAAAAAAAAAAAAAAAAAA")
    = None.
Proof.
  rewrite (proj1 (proj2 (require_api_key_guard (Some "Bearer not-a-key")
                           (Some "gopt_AAAAAAAAAAAAAAAAAAAAAAA"))) "not-a-key")
    by reflexivity.
  vm_compute. reflexivity.
Defined.

End SecurityMore.

(** ** More on the revenue manager *)

Module RevenueMore.
Import PyStr Security Token Revenue Tables Scenario SecurityFacts RevenueFacts
  CacheFacts.

(** *** What the operations do to the database *)

Lemma get_customer_db m now e : db (fst (get_customer m now e)) = db m.
Proof.
  unfold get_customer.
  destruct (lru_find e (lru_get_customer m)); [done|].
  unfold get_customer_body.
  pose proof (cache_get_db m now ("customer_email_" ++ e)) as Hdb.
  destruct (cache_get m now ("customer_email_" ++ e)) as [m1 [c|]];
    cbn [fst] in *; [done|].
  destruct (select_by_email (db m1) e) as [row|]; [|done].
  by destruct (row_to_customer (Some row)).
Qed.

(** The two things signup can do to the database: nothing, or append one
    customer row and one signup event for an e-mail and a key that were
    not stored. *)
Lemma create_customer_db m now e0 :
  db (fst (create_customer m now e0)) = db m \/
  exists key,
    email_taken (db m) (sanitize_input e0) = false /\
    api_key_taken (db m) key = false /\
    db (fst (create_customer m now e0)) =
      mkDB (customers (db m) ++
              [mkCustomerRow (1 + Z.of_nat (length (customers (db m))))
                 (sanitize_input e0) key "free" now None 0 0%float None None])
           (revenue_events (db m) ++
              [mkRevenueEvent (sanitize_input e0) "signup" 0 now
                 (SignupMeta "landing_page")])
           (gpu_usage_logs (db m)) (payment_transactions (db m)).
Proof.
  unfold create_customer.
  destruct (negb (validate_email (sanitize_input e0))); [by left|].
  unfold get_customer_by_email.
  pose proof (get_customer_db m now (sanitize_input e0)) as Hdb1.
  destruct (get_customer m now (sanitize_input e0)) as [m1 [existing|]];
    cbn [fst] in Hdb1; [by left|].
  pose proof (generate_api_key_db recursion_limit m1) as Hdb2.
  destruct (generate_api_key recursion_limit m1) as [m2 [key|]];
    cbn [fst] in Hdb2; [|left; cbn [fst]; congruence].
  destruct (email_taken (db m2) (sanitize_input e0) || api_key_taken (db m2) key)
    eqn:Htaken; [left; cbn [fst]; congruence|].
  apply orb_false_elim in Htaken as [He Hk].
  right. exists key. rewrite Hdb2, Hdb1 in He, Hk.
  split; [exact He|]. split; [exact Hk|].
  rewrite <- Hdb1, <- Hdb2.
  by destruct (post_init _).
Qed.

Lemma not_taken_not_in {A} (f : A -> string) (l : list A) s :
  existsb (fun r => String.eqb (f r) s) l = false -> ~ In s (List.map f l).
Proof.
  intros Hnone Hin. apply in_map_iff in Hin as (r & Hr & Hin).
  assert (existsb (fun r => String.eqb (f r) s) l = true) as Hsome.
  { apply existsb_exists. exists r. split; [done|]. rewrite Hr. apply String.eqb_refl. }
  congruence.
Qed.

Lemma NoDup_snoc (l : list string) s : NoDup l -> ~ In s l -> NoDup (l ++ [s]).
Proof.
  intros Hl Hs. apply NoDup_app. split; [done|]. split.
  - intros x Hx Hxs. apply list_elem_of_singleton in Hxs. subst x.
    by apply list_elem_of_In in Hx.
  - apply NoDup_singleton.
Qed.

(** X11: the rows of one customer per e-mail and per API key.  If no two
    stored customers share an e-mail or a key before [create_customer],
    none do after it, whatever the call returns or raises. *)
Theorem create_customer_keeps_customers_unique m now e0 :
  unique_customers (db m) ->
  unique_customers (db (fst (create_customer m now e0))).
Proof.
  intros [Hemails Hkeys].
  destruct (create_customer_db m now e0) as [->|(key & He & Hk & ->)]; [done|].
  unfold unique_customers, emails, api_keys in *. cbn [customers].
  rewrite !List.map_app. cbn [List.map row_email row_api_key].
  split; apply NoDup_snoc; try done.
  - by apply (not_taken_not_in row_email).
  - by apply (not_taken_not_in row_api_key).
Qed.

Lemma create_customer_keeps_customers_unique_witness :
  unique_customers
    (db (fst (create_customer (restarted [dev_row] ones) 2000 "ops@example.com"))).
Proof.
  apply create_customer_keeps_customers_unique.
  split; vm_compute; apply NoDup_ListNoDup; repeat constructor; intros [].
Defined.

(** X12: signup is append-only.  [create_customer] leaves every stored
    customer row and revenue event in place and adds at most one of each;
    it never touches the usage log or the payment transactions. *)
Theorem create_customer_appends m now e0 :
  let after := db (fst (create_customer m now e0)) in
  (exists added, customers after = customers (db m) ++ added /\
                 (length added <= 1)%nat /\
                 Forall (fun row => row_tier row = "free" /\ row_gpu_count row = 0)
                   added) /\
  (exists added, revenue_events after = revenue_events (db m) ++ added /\
                 (length added <= 1)%nat) /\
  gpu_usage_logs after = gpu_usage_logs (db m) /\
  payment_transactions after = payment_transactions (db m).
Proof.
  intros after. unfold after.
  destruct (create_customer_db m now e0) as [->|(key & He & Hk & ->)].
  - split; [exists []|split; [exists []|]]; rewrite ?app_nil_r; auto.
  - cbn [customers revenue_events gpu_usage_logs payment_transactions].
    split; [|split; [|done]].
    + eexists. split; [reflexivity|]. split; [done|].
      by repeat constructor.
    + eexists. split; [reflexivity|done].
Qed.

(** *** Upgrades *)

Lemma cache_get_outbox m now key : outbox (fst (cache_get m now key)) = outbox m.
Proof.
  unfold cache_get.
  destruct (cache m !! key); [|done].
  destruct (ttl_cache m !! key) as [expiry|]; [|done].
  by destruct (expiry <? now).
Qed.

Lemma get_customer_outbox m now e : outbox (fst (get_customer m now e)) = outbox m.
Proof.
  unfold get_customer.
  destruct (lru_find e (lru_get_customer m)); [done|].
  unfold get_customer_body.
  pose proof (cache_get_outbox m now ("customer_email_" ++ e)) as Hout.
  destruct (cache_get m now ("customer_email_" ++ e)) as [m1 [c|]];
    cbn [fst] in *; [done|].
  destruct (select_by_email (db m1) e) as [row|]; [|done].
  by destruct (row_to_customer (Some row)).
Qed.

Lemma complete_upgrade_unresolved m now e new_tier payment_id :
  pricing_price new_tier <> None ->
  snd (get_customer m now e) = None ->
  snd (complete_upgrade m now e new_tier payment_id)
    = Raise (AttributeError "'NoneType' object has no attribute 'tier'") /\
  db (fst (complete_upgrade m now e new_tier payment_id)) = db m.
Proof.
  unfold complete_upgrade, complete_upgrade_run.
  pose proof (get_customer_db m now e) as Hdb.
  destruct (get_customer m now e) as [m1 customer]. cbn [fst snd] in *.
  intros Hprice ->. by destruct (pricing_price new_tier).
Qed.

(** The UPDATE of [complete_upgrade], row by row. *)
Lemma upgrade_rows e new_tier now (rows : list CustomerRow) :
  Forall2 (upgraded e new_tier now) rows
    (List.map
       (fun r =>
          if String.eqb (row_email r) e then
            mkCustomerRow (row_id r) (row_email r) (row_api_key r) new_tier
              (row_created_at r) (Some now) (row_gpu_count r)
              (row_monthly_savings r) (row_flutterwave_customer_id r)
              (row_nowpayments_customer_id r)
          else r) rows).
Proof.
  induction rows as [|row rows IH]; [constructor|].
  cbn [List.map]. constructor; [|exact IH].
  unfold upgraded.
  destruct (String.eqb_spec (row_email row) e) as [Heq|Hne];
    cbn [row_id row_email row_api_key row_created_at row_gpu_count
         row_monthly_savings row_tier row_last_payment]; repeat split; try done.
Qed.

(** X13: a failed upgrade commits nothing and sends nothing, but leaves
    its write behind.  For a tier that has no price [complete_upgrade]
    raises [KeyError]; for a customer that [get_customer] does not
    resolve it raises [AttributeError].  Whenever it does not return
    normally, the stored database and the sent e-mails are those from
    before the call, and the connection is left uncommitted with the
    UPDATE of the tier applied to the rows of that e-mail and to nothing
    else; a call that returns has committed. *)
Theorem complete_upgrade_failure_commits_nothing m now e new_tier payment_id :
  let result := complete_upgrade m now e new_tier payment_id in
  let connection := snd (complete_upgrade_run m now e new_tier payment_id) in
  (pricing_price new_tier = None ->
     snd result = Raise (KeyError new_tier)) /\
  (pricing_price new_tier <> None -> snd (get_customer m now e) = None ->
     snd result = Raise (AttributeError "'NoneType' object has no attribute 'tier'")) /\
  (snd result <> Return tt ->
     db (fst result) = db m /\ outbox (fst result) = outbox m /\
     exists view,
       connection = Uncommitted view /\
       Forall2 (upgraded e new_tier now) (customers (db m)) (customers view) /\
       revenue_events view = revenue_events (db m) /\
       gpu_usage_logs view = gpu_usage_logs (db m) /\
       payment_transactions view = payment_transactions (db m)) /\
  (snd result = Return tt -> connection = Committed).
Proof.
  intros result connection.
  unfold result, connection, complete_upgrade, complete_upgrade_run.
  pose proof (get_customer_db m now e) as Hdb.
  pose proof (get_customer_outbox m now e) as Hout.
  destruct (get_customer m now e) as [m1 customer]. cbn [fst snd] in *.
  assert (forall price : option Z, price = None \/ customer = None ->
            db m1 = db m /\ outbox m1 = outbox m /\
            exists view,
              Uncommitted
                (mkDB (List.map
                         (fun r =>
                            if String.eqb (row_email r) e then
                              mkCustomerRow (row_id r) (row_email r) (row_api_key r)
                                new_tier (row_created_at r) (Some now)
                                (row_gpu_count r) (row_monthly_savings r)
                                (row_flutterwave_customer_id r)
                                (row_nowpayments_customer_id r)
                            else r) (customers (db m1)))
                   (revenue_events (db m1)) (gpu_usage_logs (db m1))
                   (payment_transactions (db m1))) = Uncommitted view /\
              Forall2 (upgraded e new_tier now) (customers (db m)) (customers view) /\
              revenue_events view = revenue_events (db m) /\
              gpu_usage_logs view = gpu_usage_logs (db m) /\
              payment_transactions view = payment_transactions (db m)) as Hfail.
  { intros _ _. split; [exact Hdb|]. split; [exact Hout|].
    eexists. split; [reflexivity|]. rewrite Hdb.
    cbn [customers revenue_events gpu_usage_logs payment_transactions].
    split; [apply upgrade_rows|done]. }
  destruct (pricing_price new_tier) as [price|].
  - destruct customer as [c|]; cbn [fst snd].
    + split; [done|]. split; [done|]. split; [by intros []|done].
    + split; [done|]. split; [done|]. split; [|done].
      intros _. apply (Hfail None). by right.
  - cbn [fst snd]. split; [done|]. split; [by intros []|]. split; [|done].
    intros _. apply (Hfail None). by left.
Qed.

Lemma complete_upgrade_failure_commits_nothing_witness :
  db (fst (complete_upgrade (restarted [dev_row] zeros) 2000 "dev@example.com"
             "custom" "pay_1")) = db (restarted [dev_row] zeros) /\
  snd (complete_upgrade_run (restarted [dev_row] zeros) 2000 "dev@example.com"
         "custom" "pay_1")
    = Uncommitted
        (mkDB [mkCustomerRow 1 "dev@example.com" dev_key "custom" 1000
                 (Some 2000) 0 0%float None None] [] [] []).
Proof.
  destruct (proj1 (proj2 (proj2 (complete_upgrade_failure_commits_nothing
                                   (restarted [dev_row] zeros) 2000
                                   "dev@example.com" "custom" "pay_1"))))
    as (Hdb & _ & _).
  - by vm_compute.
  - split; [exact Hdb|]. by vm_compute.
Defined.

(** X14: a successful upgrade rewrites the tier and the payment time of
    the rows with that e-mail and nothing else: every row keeps its id,
    e-mail, key, creation time, GPU count and savings, rows of other
    customers are untouched, exactly one [upgrade] event priced at the new
    tier is appended, and usage log and payment transactions are as
    before. *)
Theorem complete_upgrade_success m now e new_tier payment_id :
  let result := complete_upgrade m now e new_tier payment_id in
  snd result = Return tt ->
  Forall2 (upgraded e new_tier now) (customers (db m)) (customers (db (fst result))) /\
  (exists price from_tier,
     pricing_price new_tier = Some price /\
     revenue_events (db (fst result)) =
       revenue_events (db m) ++
         [mkRevenueEvent e "upgrade" price now
            (UpgradeMeta from_tier new_tier payment_id)]) /\
  gpu_usage_logs (db (fst result)) = gpu_usage_logs (db m) /\
  payment_transactions (db (fst result)) = payment_transactions (db m).
Proof.
  intros result. unfold result, complete_upgrade, complete_upgrade_run.
  pose proof (get_customer_db m now e) as Hdb.
  destruct (get_customer m now e) as [m1 customer]. cbn [fst] in Hdb.
  destruct (pricing_price new_tier) as [price|]; [|done].
  destruct customer as [c|]; [|done].
  intros _. cbn [fst db with_outbox with_db customers revenue_events
                 gpu_usage_logs payment_transactions].
  rewrite Hdb. split; [|split; [by exists price, (tier c)|done]].
  apply upgrade_rows.
Qed.

Lemma complete_upgrade_success_witness :
  Forall2 (upgraded "dev@example.com" "enterprise" 2000) [dev_row]
    (customers (db (fst (complete_upgrade (restarted [dev_row] zeros) 2000
                           "dev@example.com" "enterprise" "pay_1")))).
Proof.
  apply (complete_upgrade_success (restarted [dev_row] zeros) 2000
           "dev@example.com" "enterprise" "pay_1").
  vm_compute. reflexivity.
Defined.

(** *** Usage ingestion *)










Lemma _batch_process_lru_api m now customer gpu_data :
  lru_get_customer_by_api_key (fst (_batch_process_gpu_data m now customer gpu_data))
    = lru_get_customer_by_api_key m.
Proof.
  unfold _batch_process_gpu_data, _batch_process_gpu_data_run.
  destruct (prepare_batch _ _ _ _ _) as [[total batch]|]; [|done].
  by destruct (executemany _ _) as [logs []].
Qed.

Lemma _batch_process_lru m now customer gpu_data :
  lru_get_customer (fst (_batch_process_gpu_data m now customer gpu_data))
    = lru_get_customer m.
Proof.
  unfold _batch_process_gpu_data, _batch_process_gpu_data_run.
  destruct (prepare_batch _ _ _ _ _) as [[total batch]|]; [|done].
  by destruct (executemany _ _) as [logs []].
Qed.

(** *** Payment transactions *)

Lemma filter_id_kept (rows : list PaymentRow) payment_id :
  List.filter (fun r => String.eqb (pt_payment_id r) payment_id)
    (List.filter (fun r => negb (String.eqb (pt_payment_id r) payment_id)) rows)
  = [].
Proof.
  induction rows as [|r rows IH]; [done|]. cbn [List.filter].
  destruct (String.eqb (pt_payment_id r) payment_id) eqn:Hr; cbn [negb List.filter];
    [exact IH|]. by rewrite Hr.
Qed.

Lemma filter_filter_same (rows : list PaymentRow) payment_id :
  List.filter (fun r => negb (String.eqb (pt_payment_id r) payment_id))
    (List.filter (fun r => negb (String.eqb (pt_payment_id r) payment_id)) rows)
  = List.filter (fun r => negb (String.eqb (pt_payment_id r) payment_id)) rows.
Proof.
  induction rows as [|r rows IH]; [done|]. cbn [List.filter].
  destruct (String.eqb (pt_payment_id r) payment_id) eqn:Hr; cbn [negb List.filter];
    [exact IH|]. rewrite Hr. cbn [negb]. by rewrite IH.
Qed.

Lemma NoDup_filter_ids (rows : list PaymentRow) (keep : PaymentRow -> bool) :
  NoDup (List.map pt_payment_id rows) ->
  NoDup (List.map pt_payment_id (List.filter keep rows)).
Proof.
  induction rows as [|r rows IH]; [done|]. cbn [List.map List.filter].
  intros Hnd. apply NoDup_cons in Hnd as [Hr Hnd].
  destruct (keep r); [|by apply IH]. cbn [List.map].
  apply NoDup_cons. split; [|by apply IH].
  intros Hin. apply Hr. apply list_elem_of_In in Hin. apply list_elem_of_In.
  apply in_map_iff in Hin as (x & Hx & Hin). apply filter_In in Hin as [Hin _].
  apply in_map_iff. by exists x.
Qed.

(** X20: [store_payment_transaction] is an upsert keyed by the payment
    id.  After the call exactly one row holds the id and it carries the
    given data, the amount as a REAL column keeps it; the rows of other
    ids are the same rows in the same order; payment ids that were unique
    stay unique; and storing the same data a second time at the same
    clock reading leaves the table as the first call left it. *)
Theorem store_payment_transaction_upserts m now e payment_id g a c status metadata :
  let stored := store_payment_transaction m now e payment_id g a c status metadata in
  let row := mkPaymentRow e payment_id g (sqlite_real a) c status now now
               metadata in
  List.filter (fun r => String.eqb (pt_payment_id r) payment_id)
    (payment_transactions (db stored)) = [row] /\
  List.filter (fun r => negb (String.eqb (pt_payment_id r) payment_id))
    (payment_transactions (db stored))
  = List.filter (fun r => negb (String.eqb (pt_payment_id r) payment_id))
      (payment_transactions (db m)) /\
  (NoDup (payment_ids (db m)) -> NoDup (payment_ids (db stored))) /\
  db (store_payment_transaction stored now e payment_id g a c status metadata)
    = db stored /\
  customers (db stored) = customers (db m).
Proof.
  intros stored row. unfold stored, store_payment_transaction, payment_ids.
  cbn [db with_db payment_transactions customers revenue_events gpu_usage_logs].
  rewrite !List.filter_app. cbn [List.filter pt_payment_id].
  rewrite String.eqb_refl. cbn [negb].
  rewrite filter_id_kept, filter_filter_same, app_nil_r.
  split; [done|]. split; [done|]. split; [|split; [|done]].
  - intros Hnd. rewrite List.map_app. cbn [List.map pt_payment_id].
    apply NoDup_snoc; [by apply NoDup_filter_ids|].
    intros Hin. apply in_map_iff in Hin as (r & Hr & Hin).
    apply filter_In in Hin as [_ Hin]. rewrite Hr, String.eqb_refl in Hin. done.
  - reflexivity.
Qed.

Lemma store_payment_transaction_upserts_witness :
  NoDup (payment_ids
           (db (store_payment_transaction paid 20 "dev@example.com" "tx_1" "demo"
                  49%float "USD" "failed" None))).
Proof.
  apply (proj1 (proj2 (proj2 (store_payment_transaction_upserts paid 20
           "dev@example.com" "tx_1" "demo" 49%float "USD" "failed" None)))).
  vm_compute. apply NoDup_singleton.
Defined.

Lemma update_payment_status_ids m now payment_id status metadata :
  payment_ids (db (update_payment_status m now payment_id status metadata))
    = payment_ids (db m).
Proof.
  unfold update_payment_status, payment_ids. cbn [db with_db payment_transactions].
  induction (payment_transactions (db m)) as [|r rows IH]; [done|].
  cbn [List.map]. rewrite IH.
  by destruct (String.eqb (pt_payment_id r) payment_id).
Qed.

(** X21: [update_payment_status] rewrites rows in place.  The payment
    ids of the table, in order, are as before (so no row is added or
    lost); a row with another id is untouched; a row with the id keeps
    its customer, gateway, amount, currency and creation time and gets
    the new status and update time, and its metadata is replaced only by
    a non-empty text.  For an id that has no row the database is
    unchanged. *)
Theorem update_payment_status_in_place m now payment_id status metadata :
  let updated := update_payment_status m now payment_id status metadata in
  payment_ids (db updated) = payment_ids (db m) /\
  Forall2
    (fun before after =>
       (pt_payment_id before <> payment_id -> after = before) /\
       (pt_payment_id before = payment_id ->
          after = mkPaymentRow (pt_customer_email before) payment_id
                    (pt_payment_gateway before) (pt_amount before)
                    (pt_currency before) status (pt_created_at before) now
                    (if truthy metadata then metadata else pt_metadata before)))
    (payment_transactions (db m)) (payment_transactions (db updated)) /\
  (payment_status m payment_id = None -> db updated = db m) /\
  customers (db updated) = customers (db m).
Proof.
  intros updated. split; [apply update_payment_status_ids|].
  unfold updated, update_payment_status, payment_status, status_in.
  cbn [db with_db payment_transactions customers].
  split; [|split; [|done]].
  - induction (payment_transactions (db m)) as [|r rows IH]; [constructor|].
    cbn [List.map]. constructor; [|exact IH].
    destruct (String.eqb_spec (pt_payment_id r) payment_id) as [Heq|Hne].
    + split; [done|]. intros _. by rewrite Heq.
    + split; [done|]. intros Heq. done.
  - intros Hnone.
    assert (forall rows : list PaymentRow,
              List.find (fun r => String.eqb (pt_payment_id r) payment_id) rows = None ->
              List.map (fun r => if String.eqb (pt_payment_id r) payment_id
                                 then mkPaymentRow (pt_customer_email r) (pt_payment_id r)
                                        (pt_payment_gateway r) (pt_amount r)
                                        (pt_currency r) status (pt_created_at r) now
                                        (if truthy metadata then metadata
                                         else pt_metadata r)
                                 else r) rows = rows) as Hsame.
    { induction rows as [|r rows IH]; [done|]. cbn [List.find List.map].
      destruct (String.eqb (pt_payment_id r) payment_id); [done|].
      intros H. by rewrite IH. }
    destruct (List.find _ (payment_transactions (db m))) eqn:Hfind; [done|].
    rewrite Hsame by done. by destruct (db m).
Qed.

Lemma update_payment_status_in_place_witness :
  db (update_payment_status paid 20 "tx_unknown" "completed" None) = db paid.
Proof.
  apply (proj1 (proj2 (proj2 (update_payment_status_in_place paid 20 "tx_unknown"
                                "completed" None)))).
  vm_compute. reflexivity.
Defined.

End RevenueMore.

(** ** More on the payment orchestrator *)

Module PaymentsMore.
Import PyStr Payments Gateways Scenario PaymentsFacts.

Lemma supports_worldwide g country_code :
  info_countries g = None -> supports g country_code = true.
Proof. intros H. unfold supports. rewrite H. by destruct (truthy country_code). Qed.

(** The gateways that pass the loop of [get_available_gateways]. *)
Lemma available_filter cfg country_code :
  List.filter (fun g => _is_gateway_configured cfg (info_id g) &&
                        supports g country_code) primary_gateways
  = (if _is_gateway_configured cfg "nowpayments" then [nowpayments_info] else []) ++
    (if _is_gateway_configured cfg "flutterwave" &&
        supports flutterwave_info country_code then [flutterwave_info] else []) ++
    (if _is_gateway_configured cfg "paddle" then [paddle_info] else []).
Proof.
  unfold primary_gateways. cbn [List.filter].
  rewrite (supports_worldwide nowpayments_info), (supports_worldwide paddle_info)
    by reflexivity.
  rewrite !andb_true_r.
  change (info_id nowpayments_info) with "nowpayments".
  change (info_id flutterwave_info) with "flutterwave".
  change (info_id paddle_info) with "paddle".
  destruct (_is_gateway_configured cfg "nowpayments");
    destruct (_is_gateway_configured cfg "flutterwave" &&
              supports flutterwave_info country_code);
    destruct (_is_gateway_configured cfg "paddle"); reflexivity.
Qed.

(** X22: the gateway listing is never empty and is ordered by
    preference: its ids are either [demo] alone or a selection, in this
    order, of [nowpayments], [paddle], [flutterwave].  Every listed
    gateway other than [demo] is configured, and [demo] is listed exactly
    when no configured gateway serves the country. *)
Theorem get_available_gateways_listing cfg country_code :
  let ids := List.map entry_id (get_available_gateways cfg country_code) in
  ids <> [] /\
  (ids = ["demo"] \/ sublist ids ["nowpayments"; "paddle"; "flutterwave"]) /\
  Forall (fun id => id = "demo" \/ _is_gateway_configured cfg id = true) ids /\
  (In "demo" ids <->
   _is_gateway_configured cfg "nowpayments" = false /\
   _is_gateway_configured cfg "flutterwave" && supports flutterwave_info country_code
     = false /\
   _is_gateway_configured cfg "paddle" = false).
Proof.
  unfold get_available_gateways. rewrite available_filter.
  destruct (_is_gateway_configured cfg "nowpayments") eqn:Hn;
    destruct (_is_gateway_configured cfg "paddle") eqn:Hp;
    destruct (_is_gateway_configured cfg "flutterwave" &&
              supports flutterwave_info country_code) eqn:Hf;
    try (apply andb_prop in Hf as [Hf _]);
    vm_compute List.map; cbv zeta;
    (split; [done|]);
    (split; [first [by left
                   | right; repeat first [apply sublist_nil | apply sublist_skip
                                         | apply sublist_cons]]|]);
    (split; [repeat constructor; auto|]);
    (split; [cbn [In]; intros H; repeat destruct H as [H|H]; try discriminate H;
             try done
            | intros (H1 & H2 & H3); try discriminate; cbn [In]; auto]).
Qed.

Lemma get_available_gateways_listing_witness :
  In "demo" (List.map entry_id (get_available_gateways no_credentials (Some "NG"))).
Proof.
  apply (proj2 (proj2 (proj2 (get_available_gateways_listing no_credentials
                                (Some "NG"))))).
  repeat split.
Defined.

Lemma select_configured_flutterwave cfg country_code :
  _is_gateway_configured cfg "flutterwave" = true ->
  _select_best_gateway cfg country_code = "flutterwave".
Proof.
  intros Hf. unfold _select_best_gateway, global_fallback. rewrite Hf.
  destruct (truthy country_code); [|done].
  destruct (str_in (default "" country_code) africa); [done|].
  cbn [negb andb].
  destruct (str_in (default "" country_code) developed); [|done].
  by destruct (_is_gateway_configured cfg "paddle").
Qed.

(** X23: which gateway is selected.  The choice is [demo] or a
    configured gateway, and [demo] exactly when nothing is configured.  A
    configured Flutterwave is chosen for every country code, listed for
    it or not; without it the country only decides between Paddle and
    NOWPayments when both are configured. *)
Theorem select_best_gateway_choice cfg country_code :
  let chosen := _select_best_gateway cfg country_code in
  (chosen = "demo" \/ _is_gateway_configured cfg chosen = true) /\
  (chosen = "demo" <-> unconfigured cfg = true) /\
  (_is_gateway_configured cfg "flutterwave" = true -> chosen = "flutterwave") /\
  (_is_gateway_configured cfg "flutterwave" = false ->
   _is_gateway_configured cfg "nowpayments" = true ->
   _is_gateway_configured cfg "paddle" = true ->
   chosen = if truthy country_code &&
               negb (str_in (default "" country_code) africa) &&
               str_in (default "" country_code) developed
            then "paddle" else "nowpayments").
Proof.
  unfold _select_best_gateway, global_fallback, unconfigured.
  destruct (_is_gateway_configured cfg "flutterwave") eqn:Hf;
    destruct (_is_gateway_configured cfg "nowpayments") eqn:Hn;
    destruct (_is_gateway_configured cfg "paddle") eqn:Hp;
    destruct (truthy country_code);
    destruct (str_in (default "" country_code) africa);
    destruct (str_in (default "" country_code) developed);
    cbn [negb andb]; rewrite ?Hf, ?Hn, ?Hp;
    (split; [auto|]); (split; [split; [discriminate || done|discriminate || done]|]);
    (split; [discriminate || done|]); intros; discriminate || done.
Qed.

Lemma select_best_gateway_choice_witness :
  _select_best_gateway (mkCredentials None (Some "FLWSECK-1") None None) (Some "IN")
    = "flutterwave".
Proof.
  apply (proj1 (proj2 (proj2 (select_best_gateway_choice
           (mkCredentials None (Some "FLWSECK-1") None None) (Some "IN"))))).
  reflexivity.
Defined.

Section Outcomes.

Variable adapter : float -> string -> string -> string -> PaymentResult.
Variable hex12 : string.

(** X24: what [create_payment] can return.  The result is either what
    the NOWPayments adapter returned or a failed result without
    transaction id that echoes the requested amount and currency; the
    demo adapter is never reached.  With Flutterwave configured an
    automatic selection fails for every country, and naming a gateway
    that is not configured fails with the message of the source. *)
Theorem create_payment_outcomes cfg amount0 currency0 plan customer_email
    gateway0 country_code :
  let result := create_payment adapter hex12 cfg amount0 currency0 plan
                  customer_email gateway0 country_code in
  (result = adapter amount0 currency0 plan customer_email \/
   (success result = false /\ status result = "failed" /\
    transaction_id result = None /\ payment_url result = None /\
    amount result = amount0 /\ currency result = currency0)) /\
  (_is_gateway_configured cfg "flutterwave" = true -> truthy gateway0 = false ->
   success result = false /\ gateway result = "flutterwave") /\
  (forall name, gateway0 = Some name -> name <> "" ->
     _is_gateway_configured cfg name = false ->
     result = failed_result amount0 currency0 name
                ("Gateway " ++ name ++ " is not configured")).
Proof.
  intros result. unfold result, create_payment.
  split; [|split].
  - set (gw := if truthy gateway0 then default "" gateway0
               else _select_best_gateway cfg country_code).
    destruct (_is_gateway_configured cfg gw) eqn:Hconf; cbn [negb];
      [|right; by repeat split].
    destruct (String.eqb gw "nowpayments"); [by left|].
    destruct (String.eqb gw "paypal"); [right; by repeat split|].
    destruct (String.eqb gw "paddle"); [right; by repeat split|].
    destruct (String.eqb gw "razorpay"); [right; by repeat split|].
    destruct (String.eqb gw "flutterwave"); [right; by repeat split|].
    destruct (String.eqb_spec gw "demo") as [Hdemo|]; [|right; by repeat split].
    rewrite Hdemo in Hconf. discriminate Hconf.
  - intros Hf Hauto. rewrite Hauto.
    rewrite (select_configured_flutterwave cfg country_code Hf).
    rewrite Hf. by cbn.
  - intros name -> Hname Hconf.
    assert (truthy (Some name) = true) as ->
      by (unfold truthy; apply String.eqb_neq in Hname; by rewrite Hname).
    cbn [from_option id]. by rewrite Hconf.
Qed.

End Outcomes.

Lemma create_payment_outcomes_witness :
  success (create_payment (fun a c _ _ => mkPaymentResult true (Some "np_1") a c
                             "nowpayments" "pending" "ok" None)
             "0123456789ab" (mkCredentials (Some "np-key") (Some "FLWSECK-1") None None)
             49%float "USD" "professional" "dev@example.com" None (Some "US"))
    = false.
Proof.
  apply (proj1 (proj2 (create_payment_outcomes _ "0123456789ab"
           (mkCredentials (Some "np-key") (Some "FLWSECK-1") None None)
           49%float "USD" "professional" "dev@example.com" None (Some "US"))));
    reflexivity.
Defined.

End PaymentsMore.

(** ** The connection pool *)

Module PoolFacts.
Import Pool.

(** X25: the pool never outgrows its size.  A new pool holds
    [pool_size] connections, each opened with all four PRAGMAs; and for a
    positive [pool_size], a queue within the bound stays within it under
    [acquire], [release], a whole [with] block and [close_all]. *)
Theorem pool_stays_bounded p conn :
  length (queue (new_pool (pool_size p))) = pool_size p /\
  Forall (fun c => cache_size_10000 c = true /\ temp_store_memory c = true /\
                   journal_mode_wal c = true /\ synchronous_normal c = true)
    (queue (new_pool (pool_size p))) /\
  ((0 < pool_size p)%nat -> (length (queue p) <= pool_size p)%nat ->
   (length (queue (snd (acquire p))) <= pool_size p)%nat /\
   (length (queue (release p conn)) <= pool_size p)%nat /\
   (length (queue (fst (with_connection p id))) <= pool_size p)%nat /\
   (length (queue (close_all p)) <= pool_size p)%nat).
Proof.
  split; [|split].
  - unfold new_pool. cbn [queue]. by rewrite length_map, length_seq.
  - unfold new_pool. cbn [queue]. apply List.Forall_forall.
    intros c (i & <- & _)%in_map_iff. by repeat split.
  - intros Hpos Hlen.
    assert (forall q, (length (queue q) <= pool_size q)%nat -> (0 < pool_size q)%nat ->
              forall c, (length (queue (release q c)) <= pool_size q)%nat) as Hrelease.
    { intros q Hq Hp c. unfold release, full.
      destruct (Nat.ltb_spec 0 (pool_size q)); [|lia]. cbn [andb].
      destruct (Nat.leb_spec (pool_size q) (length (queue q))); cbn [queue];
        [done|]. rewrite length_app. cbn [length]. lia. }
    assert ((length (queue (snd (acquire p))) <= pool_size p)%nat /\
            pool_size (snd (acquire p)) = pool_size p) as [Hacq Hsize].
    { unfold acquire. destruct (queue p) as [|c rest] eqn:Hq; cbn [snd queue pool_size].
      - split; [cbn [length]; lia|done].
      - cbn [length] in Hlen. split; [lia|done]. }
    split; [exact Hacq|]. split; [by apply Hrelease|]. split.
    + unfold with_connection.
      destruct (acquire p) as [c p1]. cbn [fst snd] in *.
      rewrite <- Hsize. apply Hrelease; lia.
    + cbn [close_all queue length]. lia.
Qed.

Lemma pool_stays_bounded_witness :
  (length (queue (fst (with_connection (new_pool 10) conn_id))) <= 10)%nat.
Proof.
  apply (proj2 (proj2 (pool_stays_bounded (new_pool 10) (pooled_connection 0))));
    cbn; lia.
Defined.

(** X26: what a [with] block does to the pool.  With a connection
    waiting, the block gets the oldest one and puts it back behind the
    others; nothing is opened or closed.  With the queue empty and a
    positive [pool_size], the block gets a newly opened connection that
    lacks the cache-size and temp-store PRAGMAs, and that connection is
    then kept in the pool. *)
Theorem with_connection_round_trip {A} (p : PoolState) (body : Connection -> A) :
  (forall conn rest, queue p = conn :: rest ->
     (0 < pool_size p)%nat -> (length (queue p) <= pool_size p)%nat ->
     with_connection p body =
       (mkPool (pool_size p) (rest ++ [conn]) (opened p) (closed p), body conn)) /\
  (queue p = [] -> (0 < pool_size p)%nat ->
     let conn := fallback_connection (opened p) in
     with_connection p body =
       (mkPool (pool_size p) [conn] (S (opened p)) (closed p), body conn) /\
     cache_size_10000 conn = false /\ temp_store_memory conn = false).
Proof.
  split.
  - intros conn rest Hq Hpos Hlen. unfold with_connection, acquire. rewrite Hq.
    unfold release, full. cbn [pool_size queue opened closed].
    destruct (Nat.ltb_spec 0 (pool_size p)); [|lia]. cbn [andb].
    rewrite Hq in Hlen. cbn [length] in Hlen.
    by destruct (Nat.leb_spec (pool_size p) (length rest)); [lia|].
  - intros Hq Hpos conn. unfold with_connection, acquire. rewrite Hq.
    unfold release, full. cbn [pool_size queue opened closed length].
    destruct (Nat.ltb_spec 0 (pool_size p)); [|lia]. cbn [andb].
    by destruct (Nat.leb_spec (pool_size p) 0); [lia|].
Qed.

Lemma with_connection_round_trip_witness :
  with_connection (snd (acquire (new_pool 1))) conn_id
    = (mkPool 1 [fallback_connection 1] 2 [], 1%nat).
Proof.
  apply (proj2 (with_connection_round_trip (snd (acquire (new_pool 1))) conn_id));
    [reflexivity|cbn; lia].
Defined.

End PoolFacts.

(** ** Coherence of the cache and the memos *)

Module CoherenceFacts.
Import PyStr Security Token Revenue Tables Scenario Session RevenueFacts
  CacheFacts RevenueMore.

Lemma lru_find_firstn key n : forall (l : lru) v,
  lru_find key (firstn n l) = Some v -> lru_find key l = Some v.
Proof.
  induction n as [|n IH]; intros l v; [done|].
  destruct l as [|[k w] l]; [done|]. cbn [firstn lru_find].
  destruct (String.eqb k key); [done|]. apply IH.
Qed.

Lemma lru_find_remove key other : forall (l : lru),
  other <> key -> lru_find other (lru_remove key l) = lru_find other l.
Proof.
  intros l Hne. induction l as [|[k w] l IH]; [done|].
  cbn [lru_remove List.filter fst lru_find].
  destruct (String.eqb_spec k key) as [->|Hk]; cbn [negb lru_find].
  - fold (lru_remove key l). rewrite IH.
    destruct (String.eqb_spec key other); [congruence|done].
  - fold (lru_remove key l). by rewrite IH.
Qed.

Lemma lru_find_hit_cases key other v (l : lru) w :
  lru_find other (lru_hit key v l) = Some w ->
  (other = key /\ w = v) \/ lru_find other l = Some w.
Proof.
  unfold lru_hit. cbn [lru_find].
  destruct (String.eqb_spec key other) as [->|Hne].
  - intros [= <-]. by left.
  - rewrite lru_find_remove by congruence. by right.
Qed.

Lemma lru_find_store_cases key other v (l : lru) w :
  lru_find other (lru_store key v l) = Some w ->
  (other = key /\ w = v) \/ lru_find other l = Some w.
Proof.
  unfold lru_store. intros H%lru_find_firstn. cbn [lru_find] in H.
  destruct (String.eqb_spec key other) as [->|Hne].
  - injection H as <-. by left.
  - by right.
Qed.

Lemma row_to_customer_fields row c :
  row_to_customer (Some row) = Some c ->
  email c = row_email row /\ api_key c = row_api_key row /\ tier c = row_tier row.
Proof.
  unfold row_to_customer. destruct (post_init _); [done|]. by intros [= <-].
Qed.

Lemma select_by_email_found d e row :
  select_by_email d e = Some row -> row_email row = e.
Proof.
  unfold select_by_email. intros [_ H]%find_some. by apply String.eqb_eq.
Qed.

Lemma select_by_api_key_found d k row :
  select_by_api_key d k = Some row -> row_api_key row = k.
Proof.
  unfold select_by_api_key. intros [_ H]%find_some. by apply String.eqb_eq.
Qed.

(** Coherence only looks at the cache and the two memos. *)
Lemma coherent_same m m' :
  cache m' = cache m ->
  lru_get_customer m' = lru_get_customer m ->
  lru_get_customer_by_api_key m' = lru_get_customer_by_api_key m ->
  coherent m -> coherent m'.
Proof. unfold coherent. by intros -> -> ->. Qed.

Lemma coherent_cache_get m now key :
  coherent m ->
  coherent (fst (cache_get m now key)) /\
  (forall c, snd (cache_get m now key) = Some c -> cache m !! key = Some c).
Proof.
  intros Hm. unfold cache_get.
  destruct (cache m !! key) as [v|] eqn:Hv; [|by split].
  assert (coherent (with_cache m (delete key (cache m)) (delete key (ttl_cache m))))
    as Hdel.
  { destruct Hm as (Hc & He & Hk). split; [|by split].
    intros key' c. cbn [with_cache cache]. intros [_ H]%lookup_delete_Some.
    by apply Hc. }
  destruct (ttl_cache m !! key) as [expiry|]; [|by split].
  destruct (expiry <? now); by split.
Qed.

Lemma coherent_cache_set m now key c ttl :
  coherent m ->
  key = ("customer_email_" ++ email c)%string \/
  key = ("customer_api_" ++ api_key c)%string ->
  coherent (cache_set m now key c ttl).
Proof.
  intros (Hc & He & Hk) Hkey. split; [|by split].
  intros key' c'. unfold cache_set, with_cache. cbn [cache].
  destruct (decide (key = key')) as [<-|Hne].
  - rewrite lookup_insert_eq. by intros [= <-].
  - rewrite lookup_insert_ne by done. apply Hc.
Qed.

Lemma coherent_cache_delete m key : coherent m -> coherent (cache_delete m key).
Proof.
  intros (Hc & He & Hk). split; [|by split].
  intros key' c. unfold cache_delete, with_cache. cbn [cache].
  intros [_ H]%lookup_delete_Some. by apply Hc.
Qed.

Lemma email_key_inj e e' :
  ("customer_email_" ++ e)%string = ("customer_email_" ++ e')%string -> e = e'.
Proof. intros H. injection H as H. exact H. Qed.

Lemma api_key_inj k k' :
  ("customer_api_" ++ k)%string = ("customer_api_" ++ k')%string -> k = k'.
Proof. intros H. injection H as H. exact H. Qed.

Lemma email_key_not_api e k :
  ("customer_email_" ++ e)%string <> ("customer_api_" ++ k)%string.
Proof. intros H. discriminate H. Qed.

Lemma get_customer_coherent m now e :
  coherent m ->
  coherent (fst (get_customer m now e)) /\
  (forall c, snd (get_customer m now e) = Some c -> email c = e).
Proof.
  intros Hm. unfold get_customer.
  destruct (lru_find e (lru_get_customer m)) as [result|] eqn:Hfind; cbn [fst snd].
  - destruct Hm as (Hc & He & Hk). split.
    + split; [exact Hc|]. split; [|exact Hk].
      intros e' c. cbn [with_lru_get_customer lru_get_customer].
      intros [[-> <-]|H]%lru_find_hit_cases; by apply He.
    + intros c ->. by apply He.
  - assert (coherent (fst (get_customer_body m now e)) /\
            (forall c, snd (get_customer_body m now e) = Some c -> email c = e))
      as [Hbody Hres].
    { unfold get_customer_body.
      destruct (coherent_cache_get m now ("customer_email_" ++ e) Hm) as [Hg Hhit].
      destruct (cache_get m now ("customer_email_" ++ e)) as [m1 [cached|]];
        cbn [fst snd] in *.
      - split; [exact Hg|]. intros c [= <-].
        destruct Hm as (Hc & _ & _).
        destruct (Hc _ _ (Hhit _ eq_refl)) as [H|H].
        + symmetry. by apply email_key_inj.
        + by apply email_key_not_api in H.
      - destruct (select_by_email (db m1) e) as [row|] eqn:Hrow; [|by split].
        destruct (row_to_customer (Some row)) as [c|] eqn:Hc; cbn [fst snd];
          [|by split].
        apply row_to_customer_fields in Hc as (Hce & _).
        apply select_by_email_found in Hrow.
        assert (email c = e) as Hemail by congruence.
        split; [|by intros ? [= <-]].
        apply coherent_cache_set; [exact Hg|]. left. by rewrite Hemail. }
    destruct (get_customer_body m now e) as [m1 result]. cbn [fst snd] in *.
    split; [|exact Hres].
    destruct Hbody as (Hc & He & Hk). split; [exact Hc|]. split; [|exact Hk].
    intros e' c. cbn [with_lru_get_customer lru_get_customer].
    intros [[-> Hv]|H]%lru_find_store_cases; [by apply Hres|by apply He].
Qed.

Lemma get_customer_by_api_key_coherent m now k :
  coherent m ->
  coherent (fst (get_customer_by_api_key m now k)) /\
  (forall c, snd (get_customer_by_api_key m now k) = Some c ->
     api_key c = k /\ validate_api_key k = true).
Proof.
  intros Hm. unfold get_customer_by_api_key.
  destruct (lru_find k (lru_get_customer_by_api_key m)) as [result|] eqn:Hfind;
    cbn [fst snd].
  - destruct Hm as (Hc & He & Hk). split.
    + split; [exact Hc|]. split; [exact He|].
      intros k' c.
      cbn [with_lru_get_customer_by_api_key lru_get_customer_by_api_key].
      intros [[-> <-]|H]%lru_find_hit_cases; by apply Hk.
    + intros c ->. by apply Hk.
  - assert (coherent (fst (get_customer_by_api_key_body m now k)) /\
            (forall c, snd (get_customer_by_api_key_body m now k) = Some c ->
               api_key c = k /\ validate_api_key k = true))
      as [Hbody Hres].
    { unfold get_customer_by_api_key_body.
      destruct (validate_api_key k) eqn:Hvalid; cbn [negb]; [|by split].
      destruct (coherent_cache_get m now ("customer_api_" ++ k) Hm) as [Hg Hhit].
      destruct (cache_get m now ("customer_api_" ++ k)) as [m1 [cached|]];
        cbn [fst snd] in *.
      - split; [exact Hg|]. intros c [= <-].
        destruct Hm as (Hc & _ & _).
        destruct (Hc _ _ (Hhit _ eq_refl)) as [H|H].
        + symmetry in H. by apply email_key_not_api in H.
        + split; [|done]. symmetry. by apply api_key_inj.
      - destruct (select_by_api_key (db m1) k) as [row|] eqn:Hrow; [|by split].
        destruct (row_to_customer (Some row)) as [c|] eqn:Hc; cbn [fst snd];
          [|by split].
        apply row_to_customer_fields in Hc as (_ & Hck & _).
        apply select_by_api_key_found in Hrow.
        assert (api_key c = k) as Hkey by congruence.
        split; [|by intros ? [= <-]].
        apply coherent_cache_set; [exact Hg|]. right. by rewrite Hkey. }
    destruct (get_customer_by_api_key_body m now k) as [m1 result].
    cbn [fst snd] in *.
    split; [|exact Hres].
    destruct Hbody as (Hc & He & Hk). split; [exact Hc|]. split; [exact He|].
    intros k' c.
    cbn [with_lru_get_customer_by_api_key lru_get_customer_by_api_key].
    intros [[-> Hv]|H]%lru_find_store_cases; [by apply Hres|by apply Hk].
Qed.

Lemma generate_api_key_coherent : forall depth m,
  coherent m -> coherent (fst (generate_api_key depth m)).
Proof.
  induction depth as [|depth IH]; intros m Hm; [done|].
  rewrite generate_api_key_S. cbv zeta.
  assert (coherent (with_rng_pos m (rng_pos m + 18))) as Hm1
    by (by apply (coherent_same m)).
  destruct (api_key_taken _ _); [by apply IH|done].
Qed.

Lemma create_customer_coherent m now e0 :
  coherent m -> coherent (fst (create_customer m now e0)).
Proof.
  intros Hm. unfold create_customer.
  destruct (negb (validate_email (sanitize_input e0))); [done|].
  unfold get_customer_by_email.
  destruct (get_customer_coherent m now (sanitize_input e0) Hm) as [H1 _].
  destruct (get_customer m now (sanitize_input e0)) as [m1 [c|]];
    cbn [fst] in *; [done|].
  pose proof (generate_api_key_coherent recursion_limit m1 H1) as H2.
  destruct (generate_api_key recursion_limit m1) as [m2 [key|]];
    cbn [fst] in *; [|done].
  destruct (email_taken _ _ || api_key_taken _ _); [done|].
  cbv zeta. destruct (post_init _); cbn [fst]; by apply (coherent_same m2).
Qed.

Lemma complete_upgrade_coherent m now e t p :
  coherent m -> coherent (fst (complete_upgrade m now e t p)).
Proof.
  intros Hm. unfold complete_upgrade, complete_upgrade_run.
  destruct (get_customer_coherent m now e Hm) as [H1 _].
  destruct (get_customer m now e) as [m1 customer]. cbn [fst] in *.
  destruct (pricing_price t); [|done].
  destruct customer; [|done].
  cbn [fst]. by apply (coherent_same m1).
Qed.

Lemma track_gpu_usage_coherent m now k g :
  coherent m -> coherent (fst (track_gpu_usage m now k g)).
Proof.
  intros Hm. unfold track_gpu_usage.
  destruct (get_customer_by_api_key_coherent m now k Hm) as [H1 _].
  destruct (get_customer_by_api_key m now k) as [m1 [customer|]];
    cbn [fst] in *; [|done].
  destruct (_ && _); [done|].
  unfold _batch_process_gpu_data, _batch_process_gpu_data_run.
  destruct (prepare_batch _ _ _ _ _) as [[total rows]|]; [|done].
  destruct (executemany _ _) as [logs []]; [|done].
  cbn [fst]. do 2 apply coherent_cache_delete. by apply (coherent_same m1).
Qed.

Lemma perform_coherent m c : coherent m -> coherent (perform m c).
Proof.
  intros Hm. destruct c; cbn [perform].
  - by apply get_customer_coherent.
  - by apply get_customer_coherent.
  - by apply get_customer_by_api_key_coherent.
  - by apply create_customer_coherent.
  - by apply complete_upgrade_coherent.
  - by apply track_gpu_usage_coherent.
  - by apply (coherent_same m).
  - by apply (coherent_same m).
Qed.

Lemma run_coherent : forall calls m, coherent m -> coherent (run calls m).
Proof.
  induction calls as [|c calls IH]; intros m Hm; [done|].
  apply IH. by apply perform_coherent.
Qed.

Lemma restarted_coherent rows r : coherent (restarted rows r).
Proof.
  split; [|split].
  - intros key c. cbn [restarted cache]. by rewrite lookup_empty.
  - intros e c. cbn [restarted lru_get_customer lru_find]. discriminate.
  - intros k c. cbn [restarted lru_get_customer_by_api_key lru_find]. discriminate.
Qed.

(** X27: a lookup by e-mail answers for the address it was asked about.
    Whatever rows the database held at start-up and whatever calls the
    session made since (lookups, signups, upgrades, usage reports, payment
    writes, at any clock readings), a customer that [get_customer] returns
    carries the e-mail it was called with: neither the memo nor the TTL
    cache can hand out an entry stored under another address. *)
Theorem get_customer_answers_for_email rows r calls now e c :
  snd (get_customer (run calls (restarted rows r)) now e) = Some c ->
  email c = e.
Proof.
  apply get_customer_coherent, run_coherent, restarted_coherent.
Qed.

Lemma get_customer_answers_for_email_witness :
  snd (get_customer
         (run [GetCustomer 3 "dev@example.com";
               CreateCustomer 5 "new@example.com";
               TrackGpuUsage 7 dev_key [idle_sample];
               CompleteUpgrade 9 "dev@example.com" "professional" "pay_1"]
            (restarted [dev_row] zeros)) 10 (email dev_customer))
    = Some dev_customer /\
  email dev_customer = email dev_customer.
Proof.
  split; [by vm_compute|].
  apply (get_customer_answers_for_email [dev_row] zeros
           [GetCustomer 3 "dev@example.com";
            CreateCustomer 5 "new@example.com";
            TrackGpuUsage 7 dev_key [idle_sample];
            CompleteUpgrade 9 "dev@example.com" "professional" "pay_1"]
           10 (email dev_customer) dev_customer).
  by vm_compute.
Defined.

(** X28: a lookup by API key answers only for a well-formed key, and for
    that key.  In every state a session can reach from a start-up, a
    customer returned by [get_customer_by_api_key] carries the key the
    call was made with, and that key passes [validate_api_key]; so a key
    the validator refuses never resolves to a customer, cached or not. *)
Theorem get_customer_by_api_key_answers_for_key rows r calls now k c :
  snd (get_customer_by_api_key (run calls (restarted rows r)) now k) = Some c ->
  api_key c = k /\ validate_api_key k = true.
Proof.
  apply get_customer_by_api_key_coherent, run_coherent, restarted_coherent.
Qed.

Lemma get_customer_by_api_key_answers_for_key_witness :
  api_key dev_customer = dev_key /\ validate_api_key dev_key = true.
Proof.
  apply (get_customer_by_api_key_answers_for_key [dev_row] zeros
           [CreateCustomer 5 "new@example.com";
            TrackGpuUsage 7 dev_key [idle_sample];
            GetCustomer 8 "dev@example.com"]
           10 dev_key dev_customer).
  by vm_compute.
Defined.

End CoherenceFacts.

(** ** How long a memoised answer lasts *)

Module MemoFacts.
Import PyStr Security Token Revenue Tables Scenario Session RevenueFacts
  CacheFacts RevenueMore.

Lemma held_within_find n key v l : held_within n key v l -> lru_find key l = Some v.
Proof.
  intros (before & after & -> & Hbefore & _).
  induction before as [|[k w] before IH]; cbn [app lru_find].
  - by rewrite String.eqb_refl.
  - inversion Hbefore as [|? ? Hk Hrest]; subst. cbn [fst] in Hk.
    destruct (String.eqb_spec k key); [done|]. by apply IH.
Qed.

Lemma held_within_mono n n' key v l :
  (n <= n')%nat -> held_within n key v l -> held_within n' key v l.
Proof.
  intros Hle (before & after & -> & Hbefore & Hlen).
  exists before, after. split; [done|]. split; [done|lia].
Qed.

Lemma held_within_front key v l : held_within 0 key v ((key, v) :: l).
Proof. exists [], l. split; [done|]. split; [constructor|done]. Qed.

Lemma held_within_hit_other n key v other w l :
  other <> key -> held_within n key v l ->
  held_within (S n) key v (lru_hit other w l).
Proof.
  intros Hne (before & after & -> & Hbefore & Hlen).
  unfold lru_hit, lru_remove. rewrite List.filter_app. cbn [List.filter fst].
  assert (String.eqb key other = false) as ->
    by (apply String.eqb_neq; congruence).
  cbn [negb].
  exists ((other, w) ::
            List.filter (fun entry => negb (String.eqb (fst entry) other)) before),
         (List.filter (fun entry => negb (String.eqb (fst entry) other)) after).
  split; [done|]. split.
  - constructor; [done|].
    apply List.Forall_forall. intros entry [Hin _]%List.filter_In.
    by apply (proj1 (List.Forall_forall _ _) Hbefore).
  - cbn [length].
    pose proof (List.filter_length_le
                  (fun entry : string * option Customer =>
                     negb (String.eqb (fst entry) other)) before).
    lia.
Qed.

Lemma held_within_store_other n key v other w l :
  other <> key -> (S n < maxsize)%nat -> held_within n key v l ->
  held_within (S n) key v (lru_store other w l).
Proof.
  intros Hne Hroom (before & after & -> & Hbefore & Hlen).
  unfold lru_store.
  change ((other, w) :: before ++ (key, v) :: after)
    with (((other, w) :: before) ++ (key, v) :: after).
  rewrite List.firstn_app.
  rewrite (List.firstn_all2 ((other, w) :: before)) by (cbn [length]; lia).
  destruct (maxsize - length ((other, w) :: before))%nat as [|room] eqn:Hrest;
    [cbn [length] in Hrest; lia|].
  cbn [firstn].
  exists ((other, w) :: before), (firstn room after).
  split; [done|]. split; [by constructor|]. cbn [length]. lia.
Qed.

(** One call of a memoised method does one of three things to its memo. *)
Lemma lru_step_held n key v l l' :
  lru_step l l' -> (S n < maxsize)%nat ->
  held_within n key v l -> held_within (S n) key v l'.
Proof.
  intros [->|[(k & w & Hfind & ->)|(k & w & Hfind & ->)]] Hroom Hheld.
  - apply (held_within_mono n); [lia|done].
  - destruct (String.eqb_spec k key) as [->|Hne].
    + rewrite (held_within_find _ _ _ _ Hheld) in Hfind. injection Hfind as <-.
      apply (held_within_mono 0); [lia|]. apply held_within_front.
    + by apply held_within_hit_other.
  - destruct (String.eqb_spec k key) as [->|Hne].
    + rewrite (held_within_find _ _ _ _ Hheld) in Hfind. discriminate.
    + by apply held_within_store_other.
Qed.

Lemma cache_get_lru m now key :
  lru_get_customer (fst (cache_get m now key)) = lru_get_customer m.
Proof.
  unfold cache_get.
  destruct (cache m !! key); [|done].
  destruct (ttl_cache m !! key) as [expiry|]; [|done].
  by destruct (expiry <? now).
Qed.

Lemma get_customer_body_lru m now e :
  lru_get_customer (fst (get_customer_body m now e)) = lru_get_customer m.
Proof.
  unfold get_customer_body.
  pose proof (cache_get_lru m now ("customer_email_" ++ e)) as Hget.
  destruct (cache_get m now ("customer_email_" ++ e)) as [m1 [c|]];
    cbn [fst] in *; [done|].
  destruct (select_by_email (db m1) e) as [row|]; [|done].
  by destruct (row_to_customer (Some row)).
Qed.

Lemma get_customer_by_api_key_body_lru_api m now k :
  lru_get_customer_by_api_key (fst (get_customer_by_api_key_body m now k))
    = lru_get_customer_by_api_key m.
Proof.
  unfold get_customer_by_api_key_body.
  destruct (negb (validate_api_key k)); [done|].
  pose proof (cache_get_lru_api m now ("customer_api_" ++ k)) as Hget.
  destruct (cache_get m now ("customer_api_" ++ k)) as [m1 [c|]];
    cbn [fst] in *; [done|].
  destruct (select_by_api_key (db m1) k) as [row|]; [|done].
  by destruct (row_to_customer (Some row)).
Qed.

Lemma get_customer_by_api_key_lru m now k :
  lru_get_customer (fst (get_customer_by_api_key m now k)) = lru_get_customer m.
Proof.
  unfold get_customer_by_api_key.
  destruct (lru_find k (lru_get_customer_by_api_key m)); [done|].
  unfold get_customer_by_api_key_body.
  destruct (negb (validate_api_key k)); [done|].
  pose proof (cache_get_lru m now ("customer_api_" ++ k)) as Hget.
  destruct (cache_get m now ("customer_api_" ++ k)) as [m1 [c|]];
    cbn [fst] in *; [done|].
  destruct (select_by_api_key (db m1) k) as [row|]; [|done].
  by destruct (row_to_customer (Some row)).
Qed.

Lemma get_customer_step m now e :
  lru_step (lru_get_customer m) (lru_get_customer (fst (get_customer m now e))).
Proof.
  unfold get_customer.
  destruct (lru_find e (lru_get_customer m)) as [result|] eqn:Hfind.
  - right. left. by exists e, result.
  - pose proof (get_customer_body_lru m now e) as Hbody.
    destruct (get_customer_body m now e) as [m1 result]. cbn [fst] in *.
    right. right. exists e, result. cbn [with_lru_get_customer lru_get_customer].
    by rewrite Hbody.
Qed.

Lemma get_customer_by_api_key_step m now k :
  lru_step (lru_get_customer_by_api_key m)
    (lru_get_customer_by_api_key (fst (get_customer_by_api_key m now k))).
Proof.
  unfold get_customer_by_api_key.
  destruct (lru_find k (lru_get_customer_by_api_key m)) as [result|] eqn:Hfind.
  - right. left. by exists k, result.
  - pose proof (get_customer_by_api_key_body_lru_api m now k) as Hbody.
    destruct (get_customer_by_api_key_body m now k) as [m1 result]. cbn [fst] in *.
    right. right. exists k, result.
    cbn [with_lru_get_customer_by_api_key lru_get_customer_by_api_key].
    by rewrite Hbody.
Qed.

Lemma generate_api_key_lru : forall depth m,
  lru_get_customer (fst (generate_api_key depth m)) = lru_get_customer m /\
  lru_get_customer_by_api_key (fst (generate_api_key depth m))
    = lru_get_customer_by_api_key m.
Proof.
  induction depth as [|depth IH]; intros m; [done|].
  rewrite generate_api_key_S. cbv zeta.
  destruct (api_key_taken _ _); [|done].
  destruct (IH (with_rng_pos m (rng_pos m + 18))) as [-> ->]. done.
Qed.

Lemma create_customer_lru m now e0 :
  (lru_get_customer (fst (create_customer m now e0)) = lru_get_customer m \/
   lru_get_customer (fst (create_customer m now e0))
     = lru_get_customer (fst (get_customer m now (sanitize_input e0)))) /\
  lru_get_customer_by_api_key (fst (create_customer m now e0))
    = lru_get_customer_by_api_key m.
Proof.
  unfold create_customer.
  destruct (negb (validate_email (sanitize_input e0))); [by split; [left|]|].
  unfold get_customer_by_email.
  pose proof (get_customer_lru_api m now (sanitize_input e0)) as Hapi.
  destruct (get_customer m now (sanitize_input e0)) as [m1 [c|]];
    cbn [fst] in *; [by split; [right|]|].
  destruct (generate_api_key_lru recursion_limit m1) as [Hlru Hlru_api].
  destruct (generate_api_key recursion_limit m1) as [m2 [key|]];
    cbn [fst] in *; [|split; [by right|congruence]].
  destruct (email_taken _ _ || api_key_taken _ _);
    [cbn [fst]; split; [by right|congruence]|].
  cbv zeta. destruct (post_init _); cbn [fst];
    (split; [by right|exact (eq_trans Hlru_api Hapi)]).
Qed.

Lemma complete_upgrade_lru m now e new_tier payment_id :
  lru_get_customer (fst (complete_upgrade m now e new_tier payment_id))
    = lru_get_customer (fst (get_customer m now e)).
Proof.
  unfold complete_upgrade, complete_upgrade_run.
  destruct (get_customer m now e) as [m1 customer]. cbn [fst].
  destruct (pricing_price new_tier); [|done].
  by destruct customer.
Qed.

Lemma track_gpu_usage_lru m now key gpu_data :
  lru_get_customer (fst (track_gpu_usage m now key gpu_data)) = lru_get_customer m /\
  lru_get_customer_by_api_key (fst (track_gpu_usage m now key gpu_data))
    = lru_get_customer_by_api_key (fst (get_customer_by_api_key m now key)).
Proof.
  unfold track_gpu_usage.
  pose proof (get_customer_by_api_key_lru m now key) as Hlru.
  destruct (get_customer_by_api_key m now key) as [m1 [customer|]];
    cbn [fst] in *; [|done].
  destruct (_ && _); [done|].
  by rewrite _batch_process_lru, _batch_process_lru_api.
Qed.

(** Every call of the session moves each memo by at most one step. *)
Lemma perform_step m c :
  lru_step (lru_get_customer m) (lru_get_customer (perform m c)) /\
  lru_step (lru_get_customer_by_api_key m)
    (lru_get_customer_by_api_key (perform m c)).
Proof.
  destruct c as [now e|now e|now k|now e|now e t p|now k g|now e p g a c s md
                |now p s md]; cbn [perform].
  - split; [apply get_customer_step|]. rewrite get_customer_lru_api. by left.
  - split; [apply get_customer_step|].
    unfold get_customer_by_email. rewrite get_customer_lru_api. by left.
  - split; [|apply get_customer_by_api_key_step].
    rewrite get_customer_by_api_key_lru. by left.
  - destruct (create_customer_lru m now e) as [[->| ->] ->];
      (split; [|by left]); [by left|apply get_customer_step].
  - rewrite complete_upgrade_lru, complete_upgrade_lru_api.
    split; [apply get_customer_step|by left].
  - destruct (track_gpu_usage_lru m now k g) as [-> ->].
    split; [by left|apply get_customer_by_api_key_step].
  - split; by left.
  - split; by left.
Qed.

Lemma run_held : forall calls m n key v,
  (n + length calls < maxsize)%nat ->
  (held_within n key v (lru_get_customer m) ->
   held_within (n + length calls) key v (lru_get_customer (run calls m))) /\
  (held_within n key v (lru_get_customer_by_api_key m) ->
   held_within (n + length calls) key v
     (lru_get_customer_by_api_key (run calls m))).
Proof.
  induction calls as [|c calls IH]; intros m n key v Hroom.
  - cbn [run fold_left length]. rewrite Nat.add_0_r. done.
  - cbn [length] in *. change (run (c :: calls) m) with (run calls (perform m c)).
    destruct (perform_step m c) as [Hstep Hstep_api].
    destruct (IH (perform m c) (S n) key v ltac:(lia)) as [Hemail Hapi].
    replace (n + S (length calls))%nat with (S n + length calls)%nat by lia.
    split; intros Hheld.
    + apply Hemail. apply (lru_step_held n _ _ _ _ Hstep); [lia|done].
    + apply Hapi. apply (lru_step_held n _ _ _ _ Hstep_api); [lia|done].
Qed.

Lemma get_customer_held m now e :
  held_within 0 e (snd (get_customer m now e))
    (lru_get_customer (fst (get_customer m now e))).
Proof.
  unfold get_customer.
  destruct (lru_find e (lru_get_customer m)) as [result|]; cbn [fst snd].
  - apply held_within_front.
  - destruct (get_customer_body m now e) as [m1 result]. cbn [fst snd].
    cbn [with_lru_get_customer lru_get_customer]. unfold lru_store, maxsize.
    cbn [firstn]. apply held_within_front.
Qed.

Lemma get_customer_by_api_key_held m now k :
  held_within 0 k (snd (get_customer_by_api_key m now k))
    (lru_get_customer_by_api_key (fst (get_customer_by_api_key m now k))).
Proof.
  unfold get_customer_by_api_key.
  destruct (lru_find k (lru_get_customer_by_api_key m)) as [result|];
    cbn [fst snd].
  - apply held_within_front.
  - destruct (get_customer_by_api_key_body m now k) as [m1 result]. cbn [fst snd].
    cbn [with_lru_get_customer_by_api_key lru_get_customer_by_api_key].
    unfold lru_store, maxsize. cbn [firstn]. apply held_within_front.
Qed.

(** A memoised answer is what the next lookup returns. *)
Lemma get_customer_of_held n m now e v :
  held_within n e v (lru_get_customer m) -> snd (get_customer m now e) = v.
Proof.
  intros Hheld%held_within_find. unfold get_customer. by rewrite Hheld.
Qed.

Lemma get_customer_by_api_key_of_held n m now k v :
  held_within n k v (lru_get_customer_by_api_key m) ->
  snd (get_customer_by_api_key m now k) = v.
Proof.
  intros Hheld%held_within_find. unfold get_customer_by_api_key. by rewrite Hheld.
Qed.

(** X5: the first answer sticks through the next 999 calls.  Once
    [get_customer] or [get_customer_by_api_key] has answered for an
    argument, it gives the same answer for it after any session of at
    most 999 further calls of the manager's methods (lookups, signups,
    upgrades, usage reports, payment writes, with any arguments and at
    any clock readings) and whatever the database has become by then:
    the memo entry is consulted first, no method invalidates it, and 999
    other entries are not enough to push it out of a memo of 1000.  What
    a call adds to the memos depends on its arguments alone, not on what
    its writes achieve. *)
Theorem lookup_answers_are_memoised m now now' d calls argument :
  (length calls <= 999)%nat ->
  snd (get_customer
         (with_db (run calls (fst (get_customer m now argument))) d) now' argument)
    = snd (get_customer m now argument) /\
  snd (get_customer_by_api_key
         (with_db (run calls (fst (get_customer_by_api_key m now argument))) d)
         now' argument)
    = snd (get_customer_by_api_key m now argument).
Proof.
  intros Hlen. split.
  - apply (get_customer_of_held (0 + length calls)).
    change (lru_get_customer (with_db ?s d)) with (lru_get_customer s).
    apply run_held; [unfold maxsize; lia|]. apply get_customer_held.
  - apply (get_customer_by_api_key_of_held (0 + length calls)).
    change (lru_get_customer_by_api_key (with_db ?s d))
      with (lru_get_customer_by_api_key s).
    apply run_held; [unfold maxsize; lia|]. apply get_customer_by_api_key_held.
Qed.

Lemma lookup_answers_are_memoised_witness :
  snd (get_customer
         (with_db
            (run [CompleteUpgrade 2001 "dev@example.com" "professional" "pay_1";
                  GetCustomer 2002 "other@example.com"]
               (fst (get_customer (restarted [dev_row] zeros) 2000
                       "dev@example.com")))
            (mkDB [] [] [] [])) 9000 "dev@example.com")
    = Some dev_customer.
Proof.
  rewrite (proj1 (lookup_answers_are_memoised (restarted [dev_row] zeros) 2000
                    9000 (mkDB [] [] [] [])
                    [CompleteUpgrade 2001 "dev@example.com" "professional" "pay_1";
                     GetCustomer 2002 "other@example.com"]
                    "dev@example.com" ltac:(cbn [length]; lia))).
  by vm_compute.
Defined.

(** X15: a customer who signed up in this process cannot be upgraded
    during the next 999 calls.  After the first signup on a freshly
    started manager and any session of at most 999 further lookups,
    signups and payment writes (calls that leave no connection behind,
    so that the UPDATE is not refused for a lock), [complete_upgrade]
    for that customer raises [AttributeError] for every priced tier, at
    any clock reading, and commits nothing: the memoised [None] of the
    signup's existence check is what [get_customer] still answers. *)
Theorem upgrade_after_signup_fails r now now' e0 new_tier payment_id calls :
  validate_email (sanitize_input e0) = true ->
  pricing_price new_tier <> None ->
  forallb settles calls = true ->
  (length calls <= 999)%nat ->
  exists m1 c,
    create_customer (started r) now e0 = (m1, Return (Some c)) /\
    snd (complete_upgrade (run calls m1) now' (email c) new_tier payment_id)
      = Raise (AttributeError "'NoneType' object has no attribute 'tier'") /\
    db (fst (complete_upgrade (run calls m1) now' (email c) new_tier payment_id))
      = db (run calls m1).
Proof.
  intros Hvalid Hprice _ Hlen. rewrite create_customer_started by done.
  eexists _, _. split; [reflexivity|].
  cbn [email new_customer].
  set (m1 := signed_up r now (sanitize_input e0)).
  apply complete_upgrade_unresolved; [done|].
  apply (get_customer_of_held (0 + length calls)).
  apply run_held; [unfold maxsize; lia|].
  unfold m1, signed_up. cbn [lru_get_customer]. apply held_within_front.
Qed.

Lemma upgrade_after_signup_fails_witness :
  exists m1 c,
    create_customer (started zeros) 1000 "dev@example.com" = (m1, Return (Some c)) /\
    snd (complete_upgrade
           (run [GetCustomerByApiKey 1001 (api_key c);
                 CreateCustomer 1002 "other@example.com"] m1)
           1003 (email c) "professional" "pay_1")
      = Raise (AttributeError "'NoneType' object has no attribute 'tier'").
Proof.
  destruct (upgrade_after_signup_fails zeros 1000 1003 "dev@example.com"
              "professional" "pay_1"
              [GetCustomerByApiKey 1001 (first_key zeros);
               CreateCustomer 1002 "other@example.com"])
    as (m1 & c & Hcreate & Hraise & _).
  - by vm_compute.
  - discriminate.
  - reflexivity.
  - cbn [length]. lia.
  - exists m1, c. split; [exact Hcreate|].
    assert (api_key c = first_key zeros) as ->; [|exact Hraise].
    rewrite create_customer_started in Hcreate by (by vm_compute).
    by injection Hcreate as _ <-.
Defined.

(** X19: ingestion does not refresh what the key lookup answers.  After
    an accepted batch and any session of at most 999 further calls,
    [get_customer_by_api_key] with the same key still returns the
    customer as resolved for that batch, with the GPU count and savings
    from before it: the cache entries were deleted, the memo entry was
    not. *)
Theorem lookup_after_ingestion_is_stale m now now' key gpu_data m' report calls :
  track_gpu_usage m now key gpu_data = (m', TrackOk report) ->
  (length calls <= 999)%nat ->
  snd (get_customer_by_api_key (run calls m') now' key)
    = snd (get_customer_by_api_key m now key).
Proof.
  intros Hok Hlen.
  apply (get_customer_by_api_key_of_held (0 + length calls)).
  apply run_held; [unfold maxsize; lia|].
  destruct (track_gpu_usage_lru m now key gpu_data) as [_ Hlru].
  rewrite Hok in Hlru. cbn [fst] in Hlru. rewrite Hlru.
  apply get_customer_by_api_key_held.
Qed.

Lemma lookup_after_ingestion_is_stale_witness :
  option_map gpu_count
    (snd (get_customer_by_api_key
            (run [GetCustomer 2500 "dev@example.com"]
               (fst (track_gpu_usage (restarted [dev_row] zeros) 2000 dev_key
                       [idle_sample; costly_sample])))
            9000 dev_key)) = Some 0 /\
  List.map row_gpu_count
    (customers (db (fst (track_gpu_usage (restarted [dev_row] zeros) 2000 dev_key
                           [idle_sample; costly_sample])))) = [2].
Proof.
  split; [|by vm_compute].
  rewrite (lookup_after_ingestion_is_stale (restarted [dev_row] zeros) 2000 9000
             dev_key [idle_sample; costly_sample]
             (fst (track_gpu_usage (restarted [dev_row] zeros) 2000 dev_key
                     [idle_sample; costly_sample]))
             (mkUsageReport 2 6.5 4680 "free")
             [GetCustomer 2500 "dev@example.com"]).
  - by vm_compute.
  - by vm_compute.
  - cbn [length]. lia.
Defined.

End MemoFacts.

(** ** Key generation *)

Module KeyFacts.
Import PyStr Token Revenue Keys RevenueFacts.

Lemma candidate_next m i :
  candidate (with_rng_pos m (rng_pos m + 18)) i = candidate m (S i).
Proof.
  unfold candidate. cbn [with_rng_pos rng rng_pos].
  by replace (rng_pos m + 18 + 18 * i)%nat with (rng_pos m + 18 * S i)%nat by lia.
Qed.

Lemma candidate_first m :
  candidate m 0 = ("gopt_" ++ str (firstn 23 (token_urlsafe (rng m) (rng_pos m) 18)))%string.
Proof. unfold candidate. by rewrite Nat.mul_0_r, Nat.add_0_r. Qed.

(** X29: [generate_api_key] returns the first candidate that no stored
    customer holds.  With the recursion limit [depth], the call leaves
    the database alone and either returns candidate number [n] for some
    [n < depth], having found the candidates before it taken and drawn
    18 bytes for each try, or raises [RecursionError] after [depth]
    tries, all of them taken. *)
Theorem generate_api_key_first_unused : forall depth m,
  db (fst (generate_api_key depth m)) = db m /\
  match snd (generate_api_key depth m) with
  | Some key =>
      exists n, (n < depth)%nat /\
        key = candidate m n /\
        api_key_taken (db m) key = false /\
        (forall i, (i < n)%nat -> api_key_taken (db m) (candidate m i) = true) /\
        rng_pos (fst (generate_api_key depth m)) = (rng_pos m + 18 * S n)%nat
  | None =>
      (forall i, (i < depth)%nat -> api_key_taken (db m) (candidate m i) = true) /\
      rng_pos (fst (generate_api_key depth m)) = (rng_pos m + 18 * depth)%nat
  end.
Proof.
  induction depth as [|depth IH]; intros m.
  - cbn [generate_api_key fst snd]. split; [done|]. split; [lia|lia].
  - rewrite generate_api_key_S. cbv zeta. rewrite <- candidate_first.
    change (db (with_rng_pos m (rng_pos m + 18))) with (db m).
    destruct (api_key_taken (db m) (candidate m 0)) eqn:Htaken.
    + destruct (IH (with_rng_pos m (rng_pos m + 18))) as [Hdb Hres].
      split; [exact Hdb|].
      change (db (with_rng_pos m (rng_pos m + 18))) with (db m) in Hres.
      change (rng_pos (with_rng_pos m (rng_pos m + 18))) with (rng_pos m + 18)%nat
        in Hres.
      destruct (snd (generate_api_key depth (with_rng_pos m (rng_pos m + 18))))
        as [key|].
      * destruct Hres as (n & Hn & Hkey & Hfree & Hbefore & Hpos).
        exists (S n). rewrite candidate_next in Hkey.
        split; [lia|]. split; [exact Hkey|]. split; [exact Hfree|].
        split; [|lia].
        intros [|i] Hi; [exact Htaken|].
        rewrite <- candidate_next. apply Hbefore. lia.
      * destruct Hres as [Hall Hpos]. split; [|lia].
        intros [|i] Hi; [exact Htaken|].
        rewrite <- candidate_next. apply Hall. lia.
    + cbn [fst snd]. split; [done|]. exists 0%nat.
      split; [lia|]. split; [done|]. split; [exact Htaken|].
      split; [lia|]. cbn [with_rng_pos rng_pos]. lia.
Qed.

Lemma generate_api_key_first_unused_witness :
  snd (generate_api_key 2
         (Scenario.restarted
            [mkCustomerRow 1 "dev@example.com" (Scenario.first_key Scenario.mixed)
               "free" 1000 None 0 0%float None None] Scenario.mixed))
  = Some "gopt_EBAQEBAQEBAQEBAQEBAQEBA".
Proof.
  pose proof (generate_api_key_first_unused 2
    (Scenario.restarted
       [mkCustomerRow 1 "dev@example.com" (Scenario.first_key Scenario.mixed)
          "free" 1000 None 0 0%float None None] Scenario.mixed)) as [_ H].
  destruct (snd (generate_api_key 2 _)) as [key|] eqn:Hkey.
  - destruct H as (n & Hn & -> & Hfree & Hbefore & _).
    destruct n as [|[|n]]; [by vm_compute in Hfree| by vm_compute |lia].
  - destruct H as [Hall _]. specialize (Hall 1%nat ltac:(lia)).
    by vm_compute in Hall.
Defined.

End KeyFacts.
